(** * Lumina gateway: key service, proxy dispatcher and log ingress

    A shallow embedding of the request pipeline of the Lumina LLM gateway
    (Go packages [models], [cache], [database], [auth], [logging] and
    [proxy]) together with the properties the specification states about
    it.

    Conventions.
    - Go [string] is a byte string: Rocq [string].  Go [[]byte] is
      [list byte].
    - Go [float64] is the binary64 type [float] of the Standard Library.
    - A Go [*T] that the code tests against [nil] is [option T].
    - A Go [error] result is a sum: [inl v] is [(v, nil)], [inr e] is
      [(_, e)].
    - Library functions the code calls but does not define
      ([filepath.Match], [sha256.Sum256], the AES-GCM [cipher.AEAD]) are
      interfaces (type classes) the definitions are generic in. *)

From Stdlib Require Import ZArith QArith Qabs List String Ascii Bool Floats Lia.
From Stdlib.Strings Require Import Byte.
From stdpp Require Import base option list gmap strings sorting.

Import ListNotations.
Local Open Scope string_scope.
Local Open Scope list_scope.


(* ===================================================================== *)
(** ** Go's [strings] package, as far as the gateway uses it *)
(* ===================================================================== *)

Module strings.

(** [strings.HasPrefix(s, prefix)] *)
Definition HasPrefix (s p : string) : bool := String.prefix p s.

(** [strings.TrimPrefix(s, prefix)] *)
Definition TrimPrefix (s p : string) : string :=
  if HasPrefix s p
  then String.substring (String.length p) (String.length s - String.length p) s
  else s.

(** [strings.HasSuffix(s, suffix)]: [suffix] ends [s] when it is [s]
    itself or ends the tail of [s]. *)
Fixpoint HasSuffix (s suf : string) : bool :=
  String.eqb s suf ||
  match s with
  | EmptyString => false
  | String _ r => HasSuffix r suf
  end.

(** [strings.TrimSuffix(s, suffix)] *)
Definition TrimSuffix (s suf : string) : string :=
  if HasSuffix s suf
  then String.substring 0 (String.length s - String.length suf) s
  else s.

(** [strings.Contains(s, substr)] *)
Fixpoint Contains (s sub : string) : bool :=
  String.prefix sub s ||
  match s with
  | EmptyString => false
  | String _ r => Contains r sub
  end.

(** [strings.SplitN(s, sep, 2)] for a one-byte separator: the string
    itself when [sep] does not occur, otherwise what is before and what
    is after the first occurrence. *)
Fixpoint SplitN2 (s : string) (sep : ascii) : list string :=
  match s with
  | EmptyString => [EmptyString]
  | String c r =>
      if Ascii.eqb c sep then [EmptyString; r]
      else match SplitN2 r sep with
           | [a; b] => [String c a; b]
           | _ => [s]
           end
  end.

End strings.

(* ===================================================================== *)
(** ** Package [models] *)
(* ===================================================================== *)

Module models.

(** [time.Time], as seconds on some clock. *)
Definition Time := Z.

Record VirtualKey := {
  ID : string;
  UserID : string;
  Name : string;
  KeyHash : string;
  AllowedModels : list string;
  BudgetLimit : option float;
  CurrentSpend : float;
  CreatedAt : Time;
  RevokedAt : option Time;
}.

Record UserProvider := {
  up_UserID : string;
  up_Provider : string;
  up_APIKeyEncrypted : list byte;
}.

Record DailyStat := {
  ds_KeyID : string;
  ds_Date : Z;
  ds_TotalTokens : Z;
  ds_TotalCost : float;
}.

(** [KeyConfig]: what the cache holds for a token hash. *)
Record KeyConfig := {
  kc_KeyID : string;
  kc_UserID : string;
  kc_Name : string;
  kc_AllowedModels : list string;
  kc_Providers : gmap string string;
  kc_BudgetLimit : option float;
  kc_CurrentSpend : float;
}.

Record UsageLog := {
  PromptTokens : Z;
  CompletionTokens : Z;
  TotalTokens : Z;
}.

(** [UpdateKeyRequest]: every field is optional ([omitempty] pointers
    and a slice that is [nil] when the field is absent). *)
Record UpdateKeyRequest := {
  ur_Name : option string;
  ur_AllowedModels : option (list string);
  ur_BudgetLimit : option float;
}.

(** [LogEntry], reduced to the fields the ingress queue and the cost
    accounting look at. *)
Record LogEntry := {
  le_TraceID : string;
  le_VirtualKeyID : string;
  le_Model : string;
  le_Provider : string;
  le_Content : string;
  le_Usage : UsageLog;
  le_StatusCode : Z;
  le_CostUSD : float;
}.

(** [CreateKeyRequest] and [CreateKeyResponse] *)
Record CreateKeyRequest := {
  cr_Name : string;
  cr_AllowedModels : list string;
  cr_BudgetLimit : option float;
}.

Record CreateKeyResponse := {
  resp_ID : string;
  resp_Name : string;
  resp_AllowedModels : list string;
  resp_VirtualKey : string;
  resp_CreatedAt : Time;
}.

End models.

(* ===================================================================== *)
(** ** Errors and library interfaces *)
(* ===================================================================== *)

(** A Go [error] value: the five sentinels of package [auth], an
    [errors.New] (or driver) error, and [fmt.Errorf("msg: %w", err)]. *)
Inductive error : Type :=
| ErrInvalidKey
| ErrKeyRevoked
| ErrBudgetExceeded
| ErrModelNotAllowed
| ErrProviderNotFound
| errorString (msg : string)
| wrapError (msg : string) (err : error).

(** [err.Error()] *)
Fixpoint Error (e : error) : string :=
  match e with
  | ErrInvalidKey => "invalid virtual key"
  | ErrKeyRevoked => "virtual key has been revoked"
  | ErrBudgetExceeded => "budget limit exceeded"
  | ErrModelNotAllowed => "model not allowed for this key"
  | ErrProviderNotFound => "provider not configured for this key"
  | errorString msg => msg
  | wrapError msg err => msg +:+ ": " +:+ Error err
  end.

#[global] Instance error_eq_dec : EqDecision error.
Proof. solve_decision. Defined.

#[global] Instance byte_eq_decision : EqDecision byte := Byte.byte_eq_dec.

(** [hex.EncodeToString(sha256.Sum256([]byte(s))[:])] *)
Class Sha256 := sha256_hex : string -> string.

(** [filepath.Match(pattern, name)]: the [matched] flag and whether the
    error is [filepath.ErrBadPattern]. *)
Class Filepath := filepath_Match : string -> string -> bool * bool.

(** The [cipher.AEAD] that [cipher.NewGCM(aes.NewCipher(key))] returns,
    as a function of the key: [Seal(nil, nonce, plaintext, nil)] and
    [Open(nil, nonce, ciphertext, nil)]. *)
Class AEAD := {
  NonceSize : nat;
  Seal : list byte -> list byte -> list byte -> list byte;
  Open : list byte -> list byte -> list byte -> option (list byte);
}.

(** What the gateway relies on from an authenticated cipher: opening
    what was sealed under the same key and nonce gives the plaintext
    back, and a sealed box does not open once a byte of the nonce or of
    the box differs. *)
Class AEADLaws `{AEAD} : Prop := {
  Open_Seal key nonce plaintext :
    length nonce = NonceSize ->
    Open key nonce (Seal key nonce plaintext) = Some plaintext;
  Open_nonce_tampered key nonce plaintext i b :
    length nonce = NonceSize ->
    i < length nonce -> nonce !! i <> Some b ->
    Open key (<[i:=b]> nonce) (Seal key nonce plaintext) = None;
  Open_box_tampered key nonce plaintext i b :
    length nonce = NonceSize ->
    i < length (Seal key nonce plaintext) ->
    Seal key nonce plaintext !! i <> Some b ->
    Open key nonce (<[i:=b]> (Seal key nonce plaintext)) = None;
}.

(* ===================================================================== *)
(** ** The stores: relational rows, cache entries, and failing calls *)
(* ===================================================================== *)

Module store.
Import models.

(** The relational store: the three tables the core reads and writes. *)
Record DB := {
  virtual_keys : list VirtualKey;
  user_providers : list UserProvider;
  daily_stats : list DailyStat;
}.

(** The calls that leave the process. *)
Inductive op : Set :=
| CacheGet | CacheSet | CacheDel
| DbGetVirtualKeyByHash | DbGetVirtualKeyByID | DbGetUserProviders
| DbRevokeVirtualKey | DbUpdateVirtualKey
| DbUpdateKeySpend | DbUpsertDailyStat.

#[global] Instance op_eq_dec : EqDecision op.
Proof. solve_decision. Defined.

(** Which calls fail, and with what driver error.  A call that fails
    leaves its store as it was. *)
Definition faults := op -> option error.

Definition no_faults : faults := fun _ => None.

(** The world a request runs in: both stores and the calls made so far
    (most recent first). *)
Record World := {
  db : DB;
  kv : gmap string KeyConfig;
  calls : list op;
}.

(** A step of the service: it may fail, and it may change the world
    either way. *)
Definition M (A : Type) : Type := World -> (A + error) * World.

#[global] Instance M_ret : MRet M := fun A a w => (inl a, w).

#[global] Instance M_bind : MBind M := fun A B k m w =>
  match m w with
  | (inl a, w') => k a w'
  | (inr e, w') => (inr e, w')
  end.

Definition throw {A} (e : error) : M A := fun w => (inr e, w).

(** [if err != nil { return fmt.Errorf("msg: %w", err) }] *)
Definition wrapping {A} (msg : string) (m : M A) : M A :=
  fun w =>
    match m w with
    | (inl a, w') => (inl a, w')
    | (inr e, w') => (inr (wrapError msg e), w')
    end.

(** Run [m], hand its error (or [nil]) to the caller as a value. *)
Definition try {A} (m : M A) : M (option error) :=
  fun w =>
    match m w with
    | (inl _, w') => (inl None, w')
    | (inr e, w') => (inl (Some e), w')
    end.

(** One call to a store: recorded, then either failing as [f] says or
    running [run] on the world. *)
Definition call {A} (f : faults) (o : op) (run : World -> A * World) : M A :=
  fun w =>
    let w1 := {| db := db w; kv := kv w; calls := o :: calls w |} in
    match f o with
    | Some e => (inr e, w1)
    | None => let '(a, w2) := run w1 in (inl a, w2)
    end.

Definition with_db (w : World) (d : DB) : World :=
  {| db := d; kv := kv w; calls := calls w |}.

Definition with_kv (w : World) (c : gmap string KeyConfig) : World :=
  {| db := db w; kv := c; calls := calls w |}.

Definition attempted (o : op) (w : World) : bool :=
  bool_decide (o ∈ calls w).

(** The calls of account administration (creating a key, listing the
    keys of a user, setting and removing a provider credential).  They
    fail as an [admin_faults] says and are not among the calls that
    [calls] records. *)
Inductive admin_op : Set :=
| DbCreateVirtualKey
| DbListVirtualKeysByUser
| DbSetUserProvider
| DbRemoveUserProvider.

#[global] Instance admin_op_eq_dec : EqDecision admin_op.
Proof. solve_decision. Defined.

Definition admin_faults := admin_op -> option error.

Definition no_admin_faults : admin_faults := fun _ => None.

(** One such call: it fails as [f] says, or runs the statement, which
    the store may itself refuse. *)
Definition admin_call {A} (f : admin_faults) (o : admin_op)
    (run : World -> (A + error) * World) : M A :=
  fun w =>
    match f o with
    | Some e => (inr e, w)
    | None => run w
    end.

End store.

(* ===================================================================== *)
(** ** Package [cache] *)
(* ===================================================================== *)

Module cache.
Import models store.

Definition keyConfigPrefix : string := "key_config:".

(** [json.Marshal] refuses a [float64] that is NaN or infinite. *)
Definition json_unsupported (x : float) : bool :=
  PrimFloat.is_nan x || PrimFloat.is_infinity x.

Definition marshal_fails (config : KeyConfig) : bool :=
  json_unsupported (kc_CurrentSpend config) ||
  match kc_BudgetLimit config with
  | Some b => json_unsupported b
  | None => false
  end.

(** [GetKeyConfig]: [redis.Nil] is a miss, [(nil, nil)]; any other
    error of the read is returned. *)
Definition GetKeyConfig (f : faults) (keyHash : string) : M (option KeyConfig) :=
  wrapping "failed to get key config"
    (call f CacheGet (fun w => (kv w !! (keyConfigPrefix +:+ keyHash), w))).

(** [SetKeyConfig]: the entry lives for [keyConfigTTL], one hour. *)
Definition SetKeyConfig (f : faults) (keyHash : string) (config : KeyConfig) : M unit :=
  if marshal_fails config
  then throw (wrapError "failed to marshal key config" (errorString "json: unsupported value"))
  else wrapping "failed to set key config"
         (call f CacheSet (fun w =>
            (tt, with_kv w (<[keyConfigPrefix +:+ keyHash := config]> (kv w))))).

Definition DeleteKeyConfig (f : faults) (keyHash : string) : M unit :=
  wrapping "failed to delete key config"
    (call f CacheDel (fun w =>
       (tt, with_kv w (delete (keyConfigPrefix +:+ keyHash) (kv w))))).

Definition rateLimitPrefix : string := "rate_limit:".

(** [rateLimitWindow]: one minute, in the seconds of [Time]. *)
Definition rateLimitWindow : Z := 60.

(** The counters the cache holds: the value of each and the time at
    which it expires. *)
Definition Counters := gmap string (Z * Time).

(** What a command at [now] finds under a key: nothing once the entry
    has expired. *)
Definition unexpired (now : Time) (entry : option (Z * Time)) : option Z :=
  match entry with
  | Some (n, expires) => if (now <? expires)%Z then Some n else None
  | None => None
  end.

(** [IncrementRateLimit]: [INCR], which starts a missing counter at 0
    and refuses to pass the largest [int64], then [EXPIRE], both sent in
    one pipeline; [fail] is the failure of the round trip. *)
Definition IncrementRateLimit (fail : option error) (keyHash : string) (now : Time)
    (cs : Counters) : (Z + error) * Counters :=
  let key := rateLimitPrefix +:+ keyHash in
  match fail with
  | Some e => (inr (wrapError "failed to increment rate limit" e), cs)
  | None =>
      match unexpired now (cs !! key) with
      | Some n =>
          if decide (n = 2 ^ 63 - 1)%Z
          then (inr (wrapError "failed to increment rate limit"
                       (errorString "ERR increment or decrement would overflow")),
                <[key := (n, (now + rateLimitWindow)%Z)]> cs)
          else (inl (n + 1)%Z, <[key := ((n + 1)%Z, (now + rateLimitWindow)%Z)]> cs)
      | None => (inl 1%Z, <[key := (1%Z, (now + rateLimitWindow)%Z)]> cs)
      end
  end.

(** [GetRateLimitCount]: [redis.Nil] counts as 0. *)
Definition GetRateLimitCount (fail : option error) (keyHash : string) (now : Time)
    (cs : Counters) : Z + error :=
  match fail with
  | Some e => inr (wrapError "failed to get rate limit count" e)
  | None => inl (default 0%Z (unexpired now (cs !! (rateLimitPrefix +:+ keyHash))))
  end.

End cache.

(* ===================================================================== *)
(** ** Package [database] *)
(* ===================================================================== *)

(** The statements are modelled on the rows as Go reads and writes them;
    the column types of the schema and their rounding (the cap and the
    spend are DECIMAL(10,2)) are the store's own and are left out. *)
Module database.
Import models store.

Definition is_null {A} (x : option A) : bool :=
  match x with
  | None => true
  | Some _ => false
  end.

(** [SELECT ... FROM virtual_keys WHERE key_hash = $1 AND revoked_at IS
    NULL]; [sql.ErrNoRows] is [(nil, nil)]. *)
Definition GetVirtualKeyByHash (f : faults) (keyHash : string) : M (option VirtualKey) :=
  wrapping "failed to get virtual key"
    (call f DbGetVirtualKeyByHash (fun w =>
       (List.find (fun k => String.eqb (KeyHash k) keyHash && is_null (RevokedAt k))
          (virtual_keys (db w)), w))).

(** [SELECT ... FROM virtual_keys WHERE id = $1] *)
Definition GetVirtualKeyByID (f : faults) (id : string) : M (option VirtualKey) :=
  wrapping "failed to get virtual key"
    (call f DbGetVirtualKeyByID (fun w =>
       (List.find (fun k => String.eqb (ID k) id) (virtual_keys (db w)), w))).

(** [SELECT ... FROM user_providers WHERE user_id = $1] *)
Definition GetUserProviders (f : faults) (userID : string) : M (list UserProvider) :=
  wrapping "failed to get user providers"
    (call f DbGetUserProviders (fun w =>
       (List.filter (fun p => String.eqb (up_UserID p) userID) (user_providers (db w)), w))).

Definition update_keys (g : VirtualKey -> VirtualKey) (id : string) (d : DB) : DB :=
  {| virtual_keys :=
       List.map (fun k => if String.eqb (ID k) id then g k else k) (virtual_keys d);
     user_providers := user_providers d;
     daily_stats := daily_stats d |}.

Definition set_RevokedAt (t : option Time) (k : VirtualKey) : VirtualKey :=
  {| ID := ID k; UserID := UserID k; Name := Name k; KeyHash := KeyHash k;
     AllowedModels := AllowedModels k; BudgetLimit := BudgetLimit k;
     CurrentSpend := CurrentSpend k; CreatedAt := CreatedAt k;
     RevokedAt := t |}.

(** [UPDATE virtual_keys SET revoked_at = NOW() WHERE id = $1] *)
Definition RevokeVirtualKey (f : faults) (id : string) (now : Time) : M unit :=
  wrapping "failed to revoke virtual key"
    (call f DbRevokeVirtualKey (fun w =>
       (tt, with_db w (update_keys (set_RevokedAt (Some now)) id (db w))))).

(** The [SET] list [UpdateVirtualKey] builds: one assignment per
    argument that is not [nil]. *)
Definition patch (name : option string) (allowedModels : option (list string))
    (budgetLimit : option float) (k : VirtualKey) : VirtualKey :=
  {| ID := ID k; UserID := UserID k;
     Name := match name with Some n => n | None => Name k end;
     KeyHash := KeyHash k;
     AllowedModels := match allowedModels with Some l => l | None => AllowedModels k end;
     BudgetLimit := match budgetLimit with Some b => Some b | None => BudgetLimit k end;
     CurrentSpend := CurrentSpend k; CreatedAt := CreatedAt k;
     RevokedAt := RevokedAt k |}.

(** [UpdateVirtualKey]: no statement is sent when there is nothing to
    set. *)
Definition UpdateVirtualKey (f : faults) (id : string) (name : option string)
    (allowedModels : option (list string)) (budgetLimit : option float) : M unit :=
  if is_null name && is_null allowedModels && is_null budgetLimit
  then mret tt
  else wrapping "failed to update virtual key"
         (call f DbUpdateVirtualKey (fun w =>
            (tt, with_db w (update_keys (patch name allowedModels budgetLimit) id (db w))))).

Definition add_spend (amount : float) (k : VirtualKey) : VirtualKey :=
  {| ID := ID k; UserID := UserID k; Name := Name k; KeyHash := KeyHash k;
     AllowedModels := AllowedModels k; BudgetLimit := BudgetLimit k;
     CurrentSpend := (CurrentSpend k + amount)%float; CreatedAt := CreatedAt k;
     RevokedAt := RevokedAt k |}.

(** [UPDATE virtual_keys SET current_spend = current_spend + $1 WHERE
    id = $2] *)
Definition UpdateKeySpend (f : faults) (keyID : string) (amount : float) : M unit :=
  wrapping "failed to update key spend"
    (call f DbUpdateKeySpend (fun w =>
       (tt, with_db w (update_keys (add_spend amount) keyID (db w))))).

Definition same_day (keyID : string) (today : Z) (r : DailyStat) : bool :=
  String.eqb (ds_KeyID r) keyID && Z.eqb (ds_Date r) today.

Definition upsert_stat (keyID : string) (today tokens : Z) (cost : float)
    (rows : list DailyStat) : list DailyStat :=
  if List.existsb (same_day keyID today) rows
  then List.map (fun r =>
         if same_day keyID today r
         then {| ds_KeyID := ds_KeyID r; ds_Date := ds_Date r;
                 ds_TotalTokens := ds_TotalTokens r + tokens;
                 ds_TotalCost := (ds_TotalCost r + cost)%float |}
         else r) rows
  else rows ++ [{| ds_KeyID := keyID; ds_Date := today;
                   ds_TotalTokens := tokens; ds_TotalCost := cost |}].

(** [INSERT INTO daily_stats ... VALUES (..., CURRENT_DATE, $3, $4) ON
    CONFLICT (key_id, date) DO UPDATE SET total_tokens = ... + ...,
    total_cost = ... + ...] *)
Definition UpsertDailyStat (f : faults) (keyID : string) (tokens : Z) (cost : float)
    (today : Z) : M unit :=
  wrapping "failed to upsert daily stat"
    (call f DbUpsertDailyStat (fun w =>
       (tt, with_db w
              {| virtual_keys := virtual_keys (db w);
                 user_providers := user_providers (db w);
                 daily_stats := upsert_stat keyID today tokens cost (daily_stats (db w)) |}))).

(** [INSERT INTO virtual_keys (...) VALUES (...)]: the table's primary
    key [id] and its [UNIQUE] column [key_hash] make the store refuse a
    row whose id or hash is already there. *)
Definition CreateVirtualKey (f : admin_faults) (key : VirtualKey) : M unit :=
  wrapping "failed to create virtual key"
    (admin_call f DbCreateVirtualKey (fun w =>
       if List.existsb
            (fun k => String.eqb (ID k) (ID key) || String.eqb (KeyHash k) (KeyHash key))
            (virtual_keys (db w))
       then (inr (errorString "pq: duplicate key value violates unique constraint"), w)
       else (inl tt,
             with_db w
               {| virtual_keys := virtual_keys (db w) ++ [key];
                  user_providers := user_providers (db w);
                  daily_stats := daily_stats (db w) |}))).

(** [ORDER BY created_at DESC] *)
Definition created_desc (a b : VirtualKey) : Prop := (CreatedAt b <= CreatedAt a)%Z.

#[global] Instance created_desc_dec a b : Decision (created_desc a b).
Proof. unfold created_desc. apply _. Defined.

(** [SELECT ... FROM virtual_keys WHERE user_id = $1 ORDER BY created_at
    DESC]: revoked keys included. *)
Definition ListVirtualKeysByUser (f : admin_faults) (userID : string)
    : M (list VirtualKey) :=
  wrapping "failed to list virtual keys"
    (admin_call f DbListVirtualKeysByUser (fun w =>
       (inl (merge_sort created_desc
               (List.filter (fun k => String.eqb (UserID k) userID)
                  (virtual_keys (db w)))), w))).

Definition same_provider (userID provider : string) (p : UserProvider) : bool :=
  String.eqb (up_UserID p) userID && String.eqb (up_Provider p) provider.

(** [INSERT INTO user_providers ... ON CONFLICT (user_id, provider) DO
    UPDATE SET api_key_encrypted = EXCLUDED.api_key_encrypted, ...] *)
Definition upsert_provider (userID provider : string) (encryptedKey : list byte)
    (rows : list UserProvider) : list UserProvider :=
  if List.existsb (same_provider userID provider) rows
  then List.map (fun p =>
         if same_provider userID provider p
         then {| up_UserID := up_UserID p; up_Provider := up_Provider p;
                 up_APIKeyEncrypted := encryptedKey |}
         else p) rows
  else rows ++ [{| up_UserID := userID; up_Provider := provider;
                   up_APIKeyEncrypted := encryptedKey |}].

Definition SetUserProvider (f : admin_faults) (userID provider : string)
    (encryptedKey : list byte) : M unit :=
  wrapping "failed to set user provider"
    (admin_call f DbSetUserProvider (fun w =>
       (inl tt,
        with_db w
          {| virtual_keys := virtual_keys (db w);
             user_providers :=
               upsert_provider userID provider encryptedKey (user_providers (db w));
             daily_stats := daily_stats (db w) |}))).

(** [DELETE FROM user_providers WHERE user_id = $1 AND provider = $2] *)
Definition RemoveUserProvider (f : admin_faults) (userID provider : string) : M unit :=
  wrapping "failed to remove user provider"
    (admin_call f DbRemoveUserProvider (fun w =>
       (inl tt,
        with_db w
          {| virtual_keys := virtual_keys (db w);
             user_providers :=
               List.filter (fun p => negb (same_provider userID provider p))
                 (user_providers (db w));
             daily_stats := daily_stats (db w) |}))).

(** An entry of the embedded [migrations] directory. *)
Record DirEntry := {
  de_Name : string;
  de_IsDir : bool;
  de_Content : string;
}.

(** What [Migrate] sees of the store: the versions in
    [schema_migrations], and the migration scripts executed so far, the
    oldest first. *)
Record Schema := {
  schema_migrations : list string;
  executed : list string;
}.

(** The calls of [Migrate], each of which may fail. *)
Inductive migrate_op : Type :=
| CreateMigrationsTable
| ReadDir
| CheckMigration (name : string)
| ReadFile (name : string)
| ExecMigration (name : string)
| RecordMigration (name : string).

Definition migrate_faults := migrate_op -> option error.

(** The loop of [Migrate] over the directory entries. *)
Fixpoint migrateEntries (f : migrate_faults) (entries : list DirEntry) (st : Schema)
    : (unit + error) * Schema :=
  match entries with
  | [] => (inl tt, st)
  | entry :: rest =>
      if de_IsDir entry then migrateEntries f rest st
      else
        match f (CheckMigration (de_Name entry)) with
        | Some e => (inr (wrapError "failed to check migration status" e), st)
        | None =>
            if bool_decide (de_Name entry ∈ schema_migrations st)
            then migrateEntries f rest st
            else
              match f (ReadFile (de_Name entry)) with
              | Some e =>
                  (inr (wrapError ("failed to read migration " +:+ de_Name entry) e), st)
              | None =>
                  match f (ExecMigration (de_Name entry)) with
                  | Some e =>
                      (inr (wrapError ("failed to execute migration " +:+ de_Name entry) e),
                       st)
                  | None =>
                      let st1 :=
                        {| schema_migrations := schema_migrations st;
                           executed := executed st ++ [de_Content entry] |} in
                      match f (RecordMigration (de_Name entry)) with
                      | Some e =>
                          (inr (wrapError
                                  ("failed to record migration " +:+ de_Name entry) e),
                           st1)
                      | None =>
                          migrateEntries f rest
                            {| schema_migrations :=
                                 schema_migrations st1 ++ [de_Name entry];
                               executed := executed st1 |}
                      end
                  end
              end
        end
  end.

(** [Migrate]: [entries] is what [migrationsFS.ReadDir] lists. *)
Definition Migrate (f : migrate_faults) (entries : list DirEntry) (st : Schema)
    : (unit + error) * Schema :=
  match f CreateMigrationsTable with
  | Some e => (inr (wrapError "failed to create migrations table" e), st)
  | None =>
      match f ReadDir with
      | Some e => (inr (wrapError "failed to read migrations" e), st)
      | None => migrateEntries f entries st
      end
  end.

End database.

(* ===================================================================== *)
(** ** Package [config] *)
(* ===================================================================== *)

Module config.

Record Config := {
  Port : string;
  DatabaseURL : string;
  RedisURL : string;
  OpenSearchURL : string;
  JWTSecret : string;
  EncryptionKey : string;
  LogLevel : string;
}.

(** [os.Getenv]: the value of the variable, empty when it is not set. *)
Definition os_Getenv (env : gmap string string) (key : string) : string :=
  default "" (env !! key).

(** [getEnv] *)
Definition getEnv (env : gmap string string) (key defaultValue : string) : string :=
  let value := os_Getenv env key in
  if negb (String.eqb value "") then value else defaultValue.

(** [Load] *)
Definition Load (env : gmap string string) : Config + error :=
  let cfg :=
    {| Port := getEnv env "PORT" "8080";
       DatabaseURL := os_Getenv env "DATABASE_URL";
       RedisURL := getEnv env "REDIS_URL" "redis://localhost:6379";
       OpenSearchURL := getEnv env "OPENSEARCH_URL" "http://localhost:9200";
       JWTSecret := os_Getenv env "JWT_SECRET";
       EncryptionKey := os_Getenv env "ENCRYPTION_KEY";
       LogLevel := getEnv env "LOG_LEVEL" "info" |} in
  if String.eqb (DatabaseURL cfg) "" then inr (errorString "DATABASE_URL is required")
  else if String.eqb (JWTSecret cfg) "" then inr (errorString "JWT_SECRET is required")
  else if String.eqb (EncryptionKey cfg) ""
  then inr (errorString "ENCRYPTION_KEY is required")
  else if decide (String.length (EncryptionKey cfg) < 32)
  then inr (errorString "ENCRYPTION_KEY must be at least 32 characters")
  else inl cfg.

End config.

(* ===================================================================== *)
(** ** Go's [encoding/hex], as far as the gateway uses it *)
(* ===================================================================== *)

Module hex.

Definition hextable : string := "0123456789abcdef".

Definition digit (n : nat) : ascii :=
  match String.get n hextable with
  | Some c => c
  | None => "0"%char
  end.

(** [hex.EncodeToString]: two lower-case digits per byte, the high
    nibble first. *)
Fixpoint EncodeToString (src : list byte) : string :=
  match src with
  | [] => EmptyString
  | b :: rest =>
      String (digit (Byte.to_nat b / 16))
        (String (digit (Byte.to_nat b mod 16)) (EncodeToString rest))
  end.

End hex.

(* ===================================================================== *)
(** ** Package [auth]: the key service *)
(* ===================================================================== *)

Module auth.
Import models store.

Definition virtualKeyPrefix : string := "lum_".

(** [KeyService]: the stores are the [World]; what is left is the master
    key. *)
Record KeyService := { encryptionKey : list byte }.

(** [NewKeyService]: the first 32 bytes of the configured key;
    [encryptionKey[:32]] panics on a shorter string ([None]). *)
Definition NewKeyService (encryptionKey : string) : option KeyService :=
  if decide (32 <= String.length encryptionKey)
  then Some {| auth.encryptionKey := take 32 (list_byte_of_string encryptionKey) |}
  else None.

(** [aes.NewCipher]: a key of 16, 24 or 32 bytes, or [KeySizeError]. *)
Definition aes_NewCipher (key : list byte) : option error :=
  if decide (length key = 16 \/ length key = 24 \/ length key = 32)
  then None
  else Some (errorString "crypto/aes: invalid key size").

(** [io.ReadFull(rand.Reader, buf)] for a buffer of [n] bytes, reading
    from the bytes [entropy] the reader has to give. *)
Definition io_ReadFull (entropy : list byte) (n : nat) : list byte + error :=
  if decide (n <= length entropy)
  then inl (take n entropy)
  else inr (errorString "unexpected EOF").

Section crypto.
Context `{Sha256} `{AEAD}.

(** [HashKey] *)
Definition HashKey (virtualKey : string) : string := sha256_hex virtualKey.

(** [Encrypt]: [gcm.Seal(nonce, nonce, plaintext, nil)] appends the box
    to the nonce. *)
Definition Encrypt (s : KeyService) (entropy : list byte) (plaintext : string)
    : list byte + error :=
  match aes_NewCipher (encryptionKey s) with
  | Some e => inr e
  | None =>
      match io_ReadFull entropy NonceSize with
      | inr e => inr e
      | inl nonce =>
          inl (nonce ++ Seal (encryptionKey s) nonce (list_byte_of_string plaintext))
      end
  end.

(** [Decrypt] *)
Definition Decrypt (s : KeyService) (ciphertext : list byte) : string + error :=
  match aes_NewCipher (encryptionKey s) with
  | Some e => inr e
  | None =>
      if decide (length ciphertext < NonceSize)
      then inr (errorString "ciphertext too short")
      else
        let nonce := take NonceSize ciphertext in
        let ciphertext := drop NonceSize ciphertext in
        match Open (encryptionKey s) nonce ciphertext with
        | None => inr (errorString "cipher: message authentication failed")
        | Some plaintext => inl (string_of_list_byte plaintext)
        end
  end.

(** The loop of [ValidateKey] over the user's provider rows: the first
    row that does not decrypt ends the validation. *)
Fixpoint decryptProviders (s : KeyService) (userProviders : list UserProvider)
    (providers : gmap string string) : gmap string string + error :=
  match userProviders with
  | [] => inl providers
  | p :: rest =>
      match Decrypt s (up_APIKeyEncrypted p) with
      | inr e => inr (wrapError "decryption error" e)
      | inl realAPIKey =>
          decryptProviders s rest (<[up_Provider p := realAPIKey]> providers)
      end
  end.

(** [ValidateKey] *)
Definition ValidateKey (f : faults) (s : KeyService) (virtualKey : string)
    : M KeyConfig :=
  if negb (strings.HasPrefix virtualKey virtualKeyPrefix) then throw ErrInvalidKey
  else
    let keyHash := HashKey virtualKey in
    config ← wrapping "cache error" (cache.GetKeyConfig f keyHash);
    match config with
    | Some config => mret config
    | None =>
        key ← wrapping "database error" (database.GetVirtualKeyByHash f keyHash);
        match key with
        | None => throw ErrInvalidKey
        | Some key =>
            if negb (database.is_null (RevokedAt key)) then throw ErrKeyRevoked
            else
              userProviders ←
                wrapping "failed to get user providers"
                  (database.GetUserProviders f (UserID key));
              match decryptProviders s userProviders ∅ with
              | inr e => throw e
              | inl providers =>
                  let config :=
                    {| kc_KeyID := ID key; kc_UserID := UserID key;
                       kc_Name := Name key;
                       kc_AllowedModels := AllowedModels key;
                       kc_Providers := providers;
                       kc_BudgetLimit := BudgetLimit key;
                       kc_CurrentSpend := CurrentSpend key |} in
                  _ ← try (cache.SetKeyConfig f keyHash config);
                  mret config
              end
        end
    end.

End crypto.

(** [GetProviderKey] *)
Definition GetProviderKey (config : KeyConfig) (provider : string) : string + error :=
  match kc_Providers config !! provider with
  | Some apiKey => inl apiKey
  | None => inr ErrProviderNotFound
  end.

Section patterns.
Context `{Filepath}.

(** [matchModelPattern] *)
Definition matchModelPattern (pattern model : string) : bool :=
  if String.eqb pattern "*" then true
  else
    let '(matched, err) := filepath_Match pattern model in
    if negb err && matched then true
    else if strings.HasSuffix pattern "*"
         then strings.HasPrefix model (strings.TrimSuffix pattern "*")
         else false.

(** [IsModelAllowed] *)
Definition IsModelAllowed (config : KeyConfig) (model : string) : bool :=
  if decide (length (kc_AllowedModels config) = 0) then true
  else List.existsb (fun pattern => matchModelPattern pattern model)
         (kc_AllowedModels config).

End patterns.

(** [CheckBudget]: [nil] ([None]) admits the request. *)
Definition CheckBudget (config : KeyConfig) (estimatedCost : float) : option error :=
  match kc_BudgetLimit config with
  | None => None
  | Some limit =>
      if (limit <? kc_CurrentSpend config + estimatedCost)%float
      then Some ErrBudgetExceeded
      else None
  end.

(** [UpdateSpend] *)
Definition UpdateSpend (f : faults) (keyID : string) (cost : float) (tokens : Z)
    (today : Z) : M unit :=
  database.UpdateKeySpend f keyID cost;;
  database.UpsertDailyStat f keyID tokens cost today;;
  mret tt.

(** [RevokeKey] *)
Definition RevokeKey (f : faults) (keyID userID : string) (now : Time) : M unit :=
  key ← database.GetVirtualKeyByID f keyID;
  match key with
  | None => throw (errorString "key not found")
  | Some key =>
      if negb (String.eqb (UserID key) userID) then throw (errorString "unauthorized")
      else
        database.RevokeVirtualKey f keyID now;;
        _ ← try (cache.DeleteKeyConfig f (KeyHash key));
        mret tt
  end.

(** [UpdateKey] *)
Definition UpdateKey (f : faults) (keyID userID : string) (req : UpdateKeyRequest)
    : M unit :=
  key ← database.GetVirtualKeyByID f keyID;
  match key with
  | None => throw (errorString "key not found")
  | Some key =>
      if negb (String.eqb (UserID key) userID) then throw (errorString "unauthorized")
      else
        database.UpdateVirtualKey f keyID (ur_Name req) (ur_AllowedModels req)
          (ur_BudgetLimit req);;
        _ ← try (cache.DeleteKeyConfig f (KeyHash key));
        mret tt
  end.

(** [GenerateVirtualKey]: [rand.Read] fills the 32 zeroed bytes of [b]
    with what the source of randomness gives (all 32, unless it fails),
    and its error is not looked at. *)
Definition GenerateVirtualKey (random : list byte) : string :=
  let b := take 32 (random ++ replicate 32 "000"%byte) in
  virtualKeyPrefix +:+ hex.EncodeToString b.

(** [GetKey] *)
Definition GetKey (f : faults) (keyID userID : string) : M VirtualKey :=
  key ← database.GetVirtualKeyByID f keyID;
  match key with
  | None => throw (errorString "key not found")
  | Some key =>
      if negb (String.eqb (UserID key) userID) then throw (errorString "unauthorized")
      else mret key
  end.

(** [ListKeys] *)
Definition ListKeys (f : admin_faults) (userID : string) : M (list VirtualKey) :=
  database.ListVirtualKeysByUser f userID.

(** The loop of [invalidateUserKeyCache]: one [DeleteKeyConfig] per key,
    each of which may fail on its own ([fdel], by hash); a failure is
    printed and the loop goes on. *)
Fixpoint invalidateKeys (fdel : string -> option error) (keys : list VirtualKey)
    : M unit :=
  match keys with
  | [] => mret tt
  | key :: rest =>
      _ ← try (cache.DeleteKeyConfig (fun _ => fdel (KeyHash key)) (KeyHash key));
      invalidateKeys fdel rest
  end.

(** [invalidateUserKeyCache] *)
Definition invalidateUserKeyCache (f : admin_faults) (fdel : string -> option error)
    (userID : string) : M unit :=
  keys ← wrapping "failed to list user keys" (database.ListVirtualKeysByUser f userID);
  invalidateKeys fdel keys.

(** [RemoveUserProvider] *)
Definition RemoveUserProvider (f : admin_faults) (fdel : string -> option error)
    (userID provider : string) : M unit :=
  database.RemoveUserProvider f userID provider;;
  _ ← try (invalidateUserKeyCache f fdel userID);
  mret tt.

Section admin.
Context `{Sha256} `{AEAD}.

(** [CreateKey]: [id] is the fresh [uuid.New()], [now] the clock. *)
Definition CreateKey (f : admin_faults) (random : list byte) (id : string)
    (now : Time) (userID : string) (req : CreateKeyRequest) : M CreateKeyResponse :=
  let virtualKey := GenerateVirtualKey random in
  let keyHash := HashKey virtualKey in
  let key :=
    {| ID := id; UserID := userID; Name := cr_Name req; KeyHash := keyHash;
       AllowedModels := cr_AllowedModels req; BudgetLimit := cr_BudgetLimit req;
       CurrentSpend := 0%float; CreatedAt := now; RevokedAt := None |} in
  database.CreateVirtualKey f key;;
  mret {| resp_ID := ID key; resp_Name := Name key;
          resp_AllowedModels := AllowedModels key;
          resp_VirtualKey := virtualKey; resp_CreatedAt := CreatedAt key |}.

(** [SetUserProvider] *)
Definition SetUserProvider (s : KeyService) (entropy : list byte)
    (f : admin_faults) (fdel : string -> option error)
    (userID provider apiKey : string) : M unit :=
  match Encrypt s entropy apiKey with
  | inr e => throw (wrapError "failed to encrypt API key" e)
  | inl encryptedKey =>
      database.SetUserProvider f userID provider encryptedKey;;
      _ ← try (invalidateUserKeyCache f fdel userID);
      mret tt
  end.

End admin.

End auth.

(* ===================================================================== *)
(** ** Package [logging]: the ingress side of the pipeline *)
(* ===================================================================== *)

Module logging.
Import models.

Definition batchSize : nat := 100.
Definition workerCount : nat := 10.
Definition channelSize : nat := 1000.

(** [Pipeline]: the buffer of [logChan] (oldest entry first), whether
    the channel has been closed, the shared batch, and the batches handed
    to [bulkIndex] so far (most recent first). *)
Record Pipeline := {
  logChan : list LogEntry;
  closed : bool;
  batch : list LogEntry;
  flushed : list (list LogEntry);
}.

(** [New]: [make(chan *models.LogEntry, channelSize)], an empty batch. *)
Definition New : Pipeline :=
  {| logChan := []; closed := false; batch := []; flushed := [] |}.

(** What a call of [Log] did. *)
Inductive logged : Set :=
| Enqueued
| Dropped
| Panicked.

(** [Log]: a [select] with a [default] case, so the send happens only
    when the buffer has room; a send on a closed channel panics. *)
Definition Log (p : Pipeline) (entry : LogEntry) : Pipeline * logged :=
  if closed p then (p, Panicked)
  else if decide (length (logChan p) < channelSize)
       then ({| logChan := logChan p ++ [entry]; closed := closed p;
                batch := batch p; flushed := flushed p |}, Enqueued)
       else (p, Dropped).

(** [flush]: swap the batch for an empty one and index what it held. *)
Definition flush (p : Pipeline) : Pipeline :=
  match batch p with
  | [] => p
  | _ => {| logChan := logChan p; closed := closed p;
            batch := []; flushed := batch p :: flushed p |}
  end.

(** A [worker] receives the oldest entry and [addToBatch] appends it to
    the batch, under the mutex. *)
Definition receive (p : Pipeline) : Pipeline :=
  match logChan p with
  | [] => p
  | entry :: rest =>
      {| logChan := rest; closed := closed p;
         batch := batch p ++ [entry]; flushed := flushed p |}
  end.

(** One turn of a [worker] with no other goroutine in between: the
    receive, then the flush [addToBatch] asks for once the batch has
    reached [batchSize]. *)
Definition worker (p : Pipeline) : Pipeline :=
  let p' := receive p in
  if decide (batchSize <= length (batch p')) then flush p' else p'.

(** [Close], up to the workers draining the channel. *)
Definition Close (p : Pipeline) : Pipeline :=
  {| logChan := logChan p; closed := true; batch := batch p; flushed := flushed p |}.

(** What can happen to a pipeline, one goroutine at a time: a caller
    logs, a worker receives, a worker or the ticker flushes, the server
    closes. *)
Inductive step : Pipeline -> Pipeline -> Prop :=
| step_Log p entry : step p (fst (Log p entry))
| step_receive p : step p (receive p)
| step_flush p : step p (flush p)
| step_Close p : step p (Close p).

Inductive reachable : Pipeline -> Prop :=
| reachable_New : reachable New
| reachable_step p p' : reachable p -> step p p' -> reachable p'.

End logging.

(* ===================================================================== *)
(** ** Package [proxy]: dispatch and cost *)
(* ===================================================================== *)

Module proxy.
Import models store.

Definition openAIBaseURL : string := "https://api.openai.com".
Definition anthropicBaseURL : string := "https://api.anthropic.com".

(** [float64(n)] for a Go [int]: the nearest binary64, ties to even. *)
Definition float64_of_int (n : Z) : float :=
  SF2Prim (binary_normalize prec emax n 0 false).

(** [parseModel]: [provider/model] split at the first slash. *)
Definition parseModel (model : string) : string * string + string :=
  match strings.SplitN2 model "/" with
  | [p; m] => inl (p, m)
  | _ => inr ("invalid model format: expected 'provider/model', got '" +:+ model +:+ "'")
  end.

(** The two nested [switch] statements of [calculateCost]: the price
    pair, in USD per million tokens. *)
Definition prices (provider actualModel : string) : float * float :=
  if String.eqb provider "openai" then
    if strings.HasPrefix actualModel "gpt-4o" then (2.50, 10.00)%float
    else if strings.HasPrefix actualModel "gpt-4" then (30.00, 60.00)%float
    else if strings.HasPrefix actualModel "gpt-3.5" then (0.50, 1.50)%float
    else if strings.HasPrefix actualModel "o1" then (15.00, 60.00)%float
    else (1.00, 2.00)%float
  else if String.eqb provider "anthropic" then
    if strings.Contains actualModel "opus" then (15.00, 75.00)%float
    else if strings.Contains actualModel "sonnet" then (3.00, 15.00)%float
    else if strings.Contains actualModel "haiku" then (0.25, 1.25)%float
    else (3.00, 15.00)%float
  else (1.00, 2.00)%float.

(** The model name [calculateCost] prices: what follows the first slash
    of the full model, or the whole string when there is no slash. *)
Definition actualModelOf (model : string) : string :=
  match parseModel model with
  | inl (_, actualModel) => actualModel
  | inr _ => model
  end.

(** [calculateCost]: each operation rounds to binary64 on its own (the
    compiler fuses none of them, as on amd64). *)
Definition calculateCost (provider model : string) (usage : UsageLog) : float :=
  let actualModel := actualModelOf model in
  let '(inputPrice, outputPrice) := prices provider actualModel in
  let inputCost := (float64_of_int (PromptTokens usage) / 1000000 * inputPrice)%float in
  let outputCost := (float64_of_int (CompletionTokens usage) / 1000000 * outputPrice)%float in
  (inputCost + outputCost)%float.

(** A decoded JSON value ([interface{}] after [json.Unmarshal]). *)
#[warnings="-register-all"] Inductive jsonv : Type :=
| JNull
| JBool (b : bool)
| JNumber (x : float)
| JString (str : string)
| JArray (items : list jsonv)
| JObject (fields : list (string * jsonv)).

(** The request body as the handler meets it: [io.ReadAll] failed,
    [json.Unmarshal] into a map failed, or the decoded object. *)
Inductive body : Type :=
| ReadError
| NotJSONObject
| Object (requestData : gmap string jsonv).

Record Request := {
  Authorization : string;
  Body : body;
}.

(** What [proxyUnified] has done when it reaches [h.httpClient.Do]: it
    has answered with [writeError], or it sends [upstreamReq]. *)
Inductive dispatch : Type :=
| WriteError (status : Z) (message : string)
| Upstream (targetURL : string) (headers : gmap string string)
    (modifiedBody : gmap string jsonv) (isStreaming : bool).

(** [extractModel] *)
Definition extractModel (data : gmap string jsonv) : string :=
  match data !! "model" with
  | Some (JString model) => model
  | _ => "unknown"
  end.

Section handler.
Context `{Sha256} `{AEAD} `{Filepath}.

(** [extractAndValidateKey] *)
Definition extractAndValidateKey (f : faults) (s : auth.KeyService) (r : Request)
    : M KeyConfig :=
  if negb (strings.HasPrefix (Authorization r) "Bearer ")
  then throw (errorString "missing or invalid authorization header")
  else auth.ValidateKey f s (strings.TrimPrefix (Authorization r) "Bearer ").

(** [proxyUnified], from the top to the upstream call. *)
Definition proxyUnified (f : faults) (s : auth.KeyService) (r : Request)
    (path requestType : string) (w : World) : dispatch * World :=
  match extractAndValidateKey f s r w with
  | (inr err, w') => (WriteError 401 (Error err), w')
  | (inl keyConfig, w') =>
      match Body r with
      | ReadError => (WriteError 400 "failed to read request body", w')
      | NotJSONObject => (WriteError 400 "invalid JSON body", w')
      | Object requestData =>
          let modelField := extractModel requestData in
          match parseModel modelField with
          | inr msg => (WriteError 400 msg, w')
          | inl (provider, actualModel) =>
              if negb (auth.IsModelAllowed keyConfig modelField)
              then (WriteError 403
                      ("model '" +:+ modelField +:+ "' is not allowed for this key"), w')
              else
                match auth.GetProviderKey keyConfig provider with
                | inr _ =>
                    (WriteError 400
                       ("provider '" +:+ provider +:+ "' is not configured for this key"), w')
                | inl realAPIKey =>
                    let modifiedBody := <["model" := JString actualModel]> requestData in
                    let isStreaming :=
                      match requestData !! "stream" with
                      | Some (JBool stream) => stream
                      | _ => false
                      end in
                    if String.eqb provider "openai" then
                      (Upstream (openAIBaseURL +:+ path)
                         (<["Content-Type" := "application/json"]>
                            (<["Authorization" := "Bearer " +:+ realAPIKey]> ∅))
                         modifiedBody isStreaming, w')
                    else if String.eqb provider "anthropic" then
                      (Upstream (anthropicBaseURL +:+ "/v1/messages")
                         (<["Content-Type" := "application/json"]>
                            (<["x-api-key" := realAPIKey]>
                               (<["anthropic-version" := "2023-06-01"]> ∅)))
                         modifiedBody isStreaming, w')
                    else
                      (WriteError 400 ("unsupported provider: " +:+ provider), w')
                end
          end
      end
  end.

(** The four routes. *)
Definition ChatCompletions f s r := proxyUnified f s r "/v1/chat/completions" "chat".
Definition Completions f s r := proxyUnified f s r "/v1/completions" "completion".
Definition Embeddings f s r := proxyUnified f s r "/v1/embeddings" "embedding".

End handler.

(** [json.Unmarshal(data, &m)] for a [map[string]interface{}]: the
    decoded object, or an error that leaves [m] as it was. *)
Class Json := json_Unmarshal : list byte -> option (gmap string jsonv).

(** [v.(map[string]interface{})[name]] on a decoded object, whose keys
    are distinct. *)
Definition field (fields : list (string * jsonv)) (name : string) : option jsonv :=
  match List.find (fun kv => String.eqb (fst kv) name) fields with
  | Some kv => Some (snd kv)
  | None => None
  end.

(** [int(x)] for a [float64], as on amd64: the value truncated towards
    zero, and the least [int64] when that is out of range or [x] is a
    NaN. *)
Definition int_of_float64 (x : float) : Z :=
  match Prim2SF x with
  | S754_zero _ => 0
  | S754_finite sign m e =>
      let magnitude :=
        if (0 <=? e)%Z then (Z.pos m * 2 ^ e)%Z else (Z.pos m / 2 ^ (- e))%Z in
      let v := if sign then (- magnitude)%Z else magnitude in
      if ((- 2 ^ 63 <=? v) && (v <? 2 ^ 63))%Z then v else (- 2 ^ 63)%Z
  | _ => (- 2 ^ 63)%Z
  end.

(** Addition of two [int]s, which wraps around. *)
Definition int_add (a b : Z) : Z :=
  ((a + b + 2 ^ 63) mod 2 ^ 64 - 2 ^ 63)%Z.

(** The usage [handleJSONResponse] reads off the decoded response. *)
Definition extractUsage (responseData : gmap string jsonv) : UsageLog :=
  match responseData !! "usage" with
  | Some (JObject u) =>
      let promptTokens :=
        match field u "prompt_tokens" with
        | Some (JNumber pt) => int_of_float64 pt
        | _ => 0%Z
        end in
      let completionTokens :=
        match field u "completion_tokens" with
        | Some (JNumber ct) => int_of_float64 ct
        | _ => 0%Z
        end in
      {| PromptTokens := promptTokens; CompletionTokens := completionTokens;
         TotalTokens := int_add promptTokens completionTokens |}
  | _ => {| PromptTokens := 0; CompletionTokens := 0; TotalTokens := 0 |}
  end.

(** [extractContent]: the OpenAI format, then the Anthropic one. *)
Definition extractContent (data : gmap string jsonv) : string :=
  let openai :=
    match data !! "choices" with
    | Some (JArray (JObject choice :: _)) =>
        match field choice "message" with
        | Some (JObject message) =>
            match field message "content" with
            | Some (JString content) => Some content
            | _ => None
            end
        | _ => None
        end
    | _ => None
    end in
  match openai with
  | Some content => content
  | None =>
      match data !! "content" with
      | Some (JArray (JObject item :: _)) =>
          match field item "text" with
          | Some (JString text) => text
          | _ => ""
          end
      | _ => ""
      end
  end.

(** [io.EOF] *)
Definition io_EOF : error := errorString "EOF".

(** A response body: what the successive calls of [Read] return, the
    bytes and the error of each; past the last of them [Read] returns
    no byte and [io.EOF]. *)
Definition Reader := list (list byte * option error).

(** [io.ReadAll] *)
Fixpoint io_ReadAll (body : Reader) : list byte * option error :=
  match body with
  | [] => ([], None)
  | (data, None) :: rest =>
      let '(more, err) := io_ReadAll rest in (data ++ more, err)
  | (data, Some err) :: _ =>
      (data, if decide (err = io_EOF) then None else Some err)
  end.

(** The upstream's [http.Response]. *)
Record Response := {
  StatusCode : Z;
  Header : list (string * list string);
  ResponseBody : Reader;
}.

(** What has been written to the client: bytes as they are, or the
    JSON encoding of [{"error": message}]. *)
Inductive written : Type :=
| Bytes (data : list byte)
| ErrorJSON (message : string).

(** An [http.ResponseWriter]: the header map, the status line and the
    headers that went out with it (at the first [WriteHeader]), the body
    written, the number of flushes, and whether the writer is an
    [http.Flusher]. *)
Record ResponseWriter := {
  rw_header : gmap string (list string);
  rw_sent : option (Z * gmap string (list string));
  rw_body : list written;
  rw_flushes : nat;
  rw_flusher : bool;
}.

Definition Header_Set (w : ResponseWriter) (key value : string) : ResponseWriter :=
  {| rw_header := <[key := [value]]> (rw_header w); rw_sent := rw_sent w;
     rw_body := rw_body w; rw_flushes := rw_flushes w; rw_flusher := rw_flusher w |}.

Definition Header_Add (w : ResponseWriter) (key value : string) : ResponseWriter :=
  {| rw_header := <[key := default [] (rw_header w !! key) ++ [value]]> (rw_header w);
     rw_sent := rw_sent w;
     rw_body := rw_body w; rw_flushes := rw_flushes w; rw_flusher := rw_flusher w |}.

(** [WriteHeader]: a second call changes nothing. *)
Definition WriteHeader (w : ResponseWriter) (status : Z) : ResponseWriter :=
  match rw_sent w with
  | Some _ => w
  | None =>
      {| rw_header := rw_header w; rw_sent := Some (status, rw_header w);
         rw_body := rw_body w; rw_flushes := rw_flushes w; rw_flusher := rw_flusher w |}
  end.

(** [Write]: the status line goes out first, as 200, if it has not. *)
Definition Write (w : ResponseWriter) (data : written) : ResponseWriter :=
  let w := WriteHeader w 200 in
  {| rw_header := rw_header w; rw_sent := rw_sent w;
     rw_body := rw_body w ++ [data]; rw_flushes := rw_flushes w;
     rw_flusher := rw_flusher w |}.

Definition Flush (w : ResponseWriter) : ResponseWriter :=
  let w := WriteHeader w 200 in
  {| rw_header := rw_header w; rw_sent := rw_sent w;
     rw_body := rw_body w; rw_flushes := S (rw_flushes w);
     rw_flusher := rw_flusher w |}.

(** [writeError] *)
Definition writeError (w : ResponseWriter) (status : Z) (message : string)
    : ResponseWriter :=
  Write (WriteHeader (Header_Set w "Content-Type" "application/json") status)
    (ErrorJSON message).

(** The read loop of [handleStreamingResponse]: what a read brings is
    written and flushed, and the first error, [io.EOF] or another, ends
    the loop. *)
Fixpoint stream (w : ResponseWriter) (body : Reader) : ResponseWriter :=
  match body with
  | [] => w
  | (data, err) :: rest =>
      let w := if decide (0 < length data) then Flush (Write w (Bytes data)) else w in
      match err with
      | Some _ => w
      | None => stream w rest
      end
  end.

(** [handleStreamingResponse] *)
Definition handleStreamingResponse (w : ResponseWriter) (resp : Response)
    (traceID : string) (keyConfig : KeyConfig) (provider fullModel : string)
    (p : logging.Pipeline) : ResponseWriter * logging.Pipeline :=
  let w := Header_Set w "Content-Type" "text/event-stream" in
  let w := Header_Set w "Cache-Control" "no-cache" in
  let w := Header_Set w "Connection" "keep-alive" in
  let w := WriteHeader w (StatusCode resp) in
  if negb (rw_flusher w) then (writeError w 500 "streaming not supported", p)
  else
    let w := stream w (ResponseBody resp) in
    let logEntry :=
      {| le_TraceID := traceID; le_VirtualKeyID := kc_KeyID keyConfig;
         le_Model := fullModel; le_Provider := provider;
         le_Content := "[streaming response]";
         le_Usage := {| PromptTokens := 0; CompletionTokens := 0; TotalTokens := 0 |};
         le_StatusCode := StatusCode resp; le_CostUSD := 0%float |} in
    (w, fst (logging.Log p logEntry)).

Section responses.
Context `{Json}.

(** [handleJSONResponse]: the goroutine that updates the spend is run
    where it is started; [today] is the store's [CURRENT_DATE].  [Log]
    on a closed pipeline panics and the handler is unwound before it
    writes anything. *)
Definition handleJSONResponse (f : faults) (w : ResponseWriter) (resp : Response)
    (traceID : string) (keyConfig : KeyConfig) (provider fullModel : string)
    (today : Z) (p : logging.Pipeline) (world : World)
    : ResponseWriter * logging.Pipeline * World :=
  match io_ReadAll (ResponseBody resp) with
  | (_, Some _) => (writeError w 502 "failed to read upstream response", p, world)
  | (respBody, None) =>
      let responseData := default ∅ (json_Unmarshal respBody) in
      let usage := extractUsage responseData in
      let cost := calculateCost provider fullModel usage in
      let world :=
        snd (auth.UpdateSpend f (kc_KeyID keyConfig) cost (TotalTokens usage) today
               world) in
      let logEntry :=
        {| le_TraceID := traceID; le_VirtualKeyID := kc_KeyID keyConfig;
           le_Model := fullModel; le_Provider := provider;
           le_Content := extractContent responseData;
           le_Usage := usage;
           le_StatusCode := StatusCode resp; le_CostUSD := cost |} in
      match logging.Log p logEntry with
      | (p, logging.Panicked) => (w, p, world)
      | (p, _) =>
          let w :=
            foldl
              (fun w kv => foldl (fun w value => Header_Add w (fst kv) value) w (snd kv))
              w (Header resp) in
          let w := WriteHeader w (StatusCode resp) in
          (Write w (Bytes respBody), p, world)
      end
  end.

End responses.

End proxy.

(* ===================================================================== *)
(** ** Package [api]: the key handlers of the dashboard *)
(* ===================================================================== *)

Module api.
Import models store.

(** What [writeJSON] encodes. *)
Inductive payload : Type :=
| ErrorBody (error : string)
| MessageBody (message : string)
| KeyBody (key : VirtualKey)
| KeysBody (keys : list VirtualKey)
| CreatedBody (resp : CreateKeyResponse).

Definition answer : Type := Z * payload.

(** [key.KeyHash = ""] *)
Definition mask (key : VirtualKey) : VirtualKey :=
  {| ID := ID key; UserID := UserID key; Name := Name key; KeyHash := "";
     AllowedModels := AllowedModels key; BudgetLimit := BudgetLimit key;
     CurrentSpend := CurrentSpend key; CreatedAt := CreatedAt key;
     RevokedAt := RevokedAt key |}.

(** The status and message the key handlers give to an error of the
    service. *)
Definition keyError (err : error) (failure : string) : answer :=
  if String.eqb (Error err) "key not found" then (404%Z, ErrorBody "key not found")
  else if String.eqb (Error err) "unauthorized" then (403%Z, ErrorBody "forbidden")
  else (500%Z, ErrorBody failure).

(** [ListKeys] *)
Definition ListKeys (f : admin_faults) (userID : string) (w : World)
    : answer * World :=
  match auth.ListKeys f userID w with
  | (inr _, w') => ((500%Z, ErrorBody "failed to list keys"), w')
  | (inl keys, w') => ((200%Z, KeysBody (List.map mask keys)), w')
  end.

(** [GetKey] *)
Definition GetKey (f : faults) (userID keyID : string) (w : World) : answer * World :=
  match auth.GetKey f keyID userID w with
  | (inr err, w') => (keyError err "failed to get key", w')
  | (inl key, w') => ((200%Z, KeyBody (mask key)), w')
  end.

(** [RevokeKey] *)
Definition RevokeKey (f : faults) (userID keyID : string) (now : Time) (w : World)
    : answer * World :=
  match auth.RevokeKey f keyID userID now w with
  | (inr err, w') => (keyError err "failed to revoke key", w')
  | (inl _, w') => ((200%Z, MessageBody "key revoked"), w')
  end.

(** [UpdateKey]: [body] is the decoded request, if it decodes. *)
Definition UpdateKey (f : faults) (userID keyID : string)
    (body : option UpdateKeyRequest) (w : World) : answer * World :=
  match body with
  | None => ((400%Z, ErrorBody "invalid request body"), w)
  | Some req =>
      match auth.UpdateKey f keyID userID req w with
      | (inr err, w') => (keyError err "failed to update key", w')
      | (inl _, w') => ((200%Z, MessageBody "key updated"), w')
      end
  end.

Section handlers.
Context `{Sha256} `{AEAD}.

(** [CreateKey] *)
Definition CreateKey (f : admin_faults) (random : list byte) (id : string)
    (now : Time) (userID : string) (body : option CreateKeyRequest) (w : World)
    : answer * World :=
  match body with
  | None => ((400%Z, ErrorBody "invalid request body"), w)
  | Some req =>
      if String.eqb (cr_Name req) "" then ((400%Z, ErrorBody "name is required"), w)
      else
        match auth.CreateKey f random id now userID req w with
        | (inr _, w') => ((500%Z, ErrorBody "failed to create key"), w')
        | (inl resp, w') => ((201%Z, CreatedBody resp), w')
        end
  end.

(** [SetProvider]: [body] is the decoded [SetProviderRequest], the
    provider and the API key. *)
Definition SetProvider (s : auth.KeyService) (entropy : list byte) (f : admin_faults)
    (fdel : string -> option error) (userID : string)
    (body : option (string * string)) (w : World) : answer * World :=
  match body with
  | None => ((400%Z, ErrorBody "invalid request body"), w)
  | Some (provider, apiKey) =>
      if negb (String.eqb provider "openai") && negb (String.eqb provider "anthropic")
      then ((400%Z, ErrorBody "provider must be 'openai' or 'anthropic'"), w)
      else if String.eqb apiKey "" then ((400%Z, ErrorBody "api_key is required"), w)
      else
        match auth.SetUserProvider s entropy f fdel userID provider apiKey w with
        | (inr _, w') => ((500%Z, ErrorBody "failed to set provider"), w')
        | (inl _, w') => ((200%Z, MessageBody "provider configured"), w')
        end
  end.

End handlers.

(** [RemoveProvider] *)
Definition RemoveProvider (f : admin_faults) (fdel : string -> option error)
    (userID provider : string) (w : World) : answer * World :=
  if String.eqb provider "openai" || String.eqb provider "anthropic" then
    match auth.RemoveUserProvider f fdel userID provider w with
    | (inr _, w') => ((500%Z, ErrorBody "failed to remove provider"), w')
    | (inl _, w') => ((200%Z, MessageBody "provider removed"), w')
    end
  else ((400%Z, ErrorBody "invalid provider"), w).

End api.

(* ===================================================================== *)
(** * The vocabulary of the properties *)
(* ===================================================================== *)

Section vocabulary.
Context `{Filepath}.
Import models store.

(** The pattern glob-matches the model: [filepath.Match] says so and
    reports no error. *)
Definition glob_matches (pattern model : string) : Prop :=
  filepath_Match pattern model = (true, false).

(** The pattern ends in a star and the rest of it starts the model. *)
Definition prefix_matches (pattern model : string) : Prop :=
  exists q, pattern = q +:+ "*" /\ exists r, model = q +:+ r.





(** The rational a finite binary64 stands for. *)
Definition exact (x : float) : option Q :=
  match Prim2SF x with
  | S754_zero _ => Some (0 # 1)
  | S754_finite s m e =>
      let v := if (0 <=? e)%Z then inject_Z (Z.pos m * 2 ^ e)
               else Z.pos m # (2 ^ Z.to_pos (- e)) in
      Some (if s then Qopp v else v)
  | _ => None
  end.

(** Submitting a run of entries with no worker receiving in between. *)
Definition submit (p : logging.Pipeline) (entries : list LogEntry) : logging.Pipeline :=
  foldl (fun q entry => fst (logging.Log q entry)) p entries.

(** The row [GetVirtualKeyByHash] selects for a hash. *)
Definition live_key (keyHash : string) (d : DB) : option VirtualKey :=
  List.find (fun k => String.eqb (KeyHash k) keyHash && database.is_null (RevokedAt k))
    (virtual_keys d).

(** The configuration [ValidateKey] builds from a row and the decrypted
    credentials of its owner. *)
Definition config_of (key : VirtualKey) (providers : gmap string string) : KeyConfig :=
  {| kc_KeyID := ID key; kc_UserID := UserID key; kc_Name := Name key;
     kc_AllowedModels := AllowedModels key; kc_Providers := providers;
     kc_BudgetLimit := BudgetLimit key; kc_CurrentSpend := CurrentSpend key |}.

(** The headers of a request to OpenAI and of one to Anthropic. *)
Definition openai_headers (realAPIKey : string) : gmap string string :=
  <["Content-Type" := "application/json"]>
    (<["Authorization" := "Bearer " +:+ realAPIKey]> ∅).

Definition anthropic_headers (realAPIKey : string) : gmap string string :=
  <["Content-Type" := "application/json"]>
    (<["x-api-key" := realAPIKey]> (<["anthropic-version" := "2023-06-01"]> ∅)).

(** Where [proxyUnified] sends a request of a provider, and with which
    headers. *)
Definition upstream_url (provider path : string) : string :=
  if String.eqb provider "openai" then proxy.openAIBaseURL +:+ path
  else proxy.anthropicBaseURL +:+ "/v1/messages".

Definition upstream_headers (provider realAPIKey : string) : gmap string string :=
  if String.eqb provider "openai" then openai_headers realAPIKey
  else anthropic_headers realAPIKey.

End vocabulary.

Section service_vocabulary.
Context `{Sha256} `{AEAD}.
Import models store.

(** A digit of [hex.EncodeToString]. *)
Definition is_hex_digit (c : ascii) : bool :=
  bool_decide (c ∈ list_ascii_of_string hex.hextable).

(** The uniqueness constraints of the schema: the primary key and the
    [UNIQUE] hash of [virtual_keys], [UNIQUE(user_id, provider)] of
    [user_providers], [UNIQUE(key_id, date)] of [daily_stats]. *)
Definition consistent (d : DB) : Prop :=
  NoDup (ID <$> virtual_keys d) /\
  NoDup (KeyHash <$> virtual_keys d) /\
  NoDup ((fun p => (up_UserID p, up_Provider p)) <$> user_providers d) /\
  NoDup ((fun r => (ds_KeyID r, ds_Date r)) <$> daily_stats d).

(** What the key service can be asked to do, with the failures of the
    stores during the call. *)
Inductive request : Type :=
| CreateKeyReq (f : admin_faults) (random : list byte) (id : string) (now : Time)
    (userID : string) (req : CreateKeyRequest)
| ValidateKeyReq (f : faults) (s : auth.KeyService) (virtualKey : string)
| UpdateSpendReq (f : faults) (keyID : string) (cost : float) (tokens today : Z)
| RevokeKeyReq (f : faults) (keyID userID : string) (now : Time)
| UpdateKeyReq (f : faults) (keyID userID : string) (req : UpdateKeyRequest)
| SetUserProviderReq (s : auth.KeyService) (entropy : list byte) (f : admin_faults)
    (fdel : string -> option error) (userID provider apiKey : string)
| RemoveUserProviderReq (f : admin_faults) (fdel : string -> option error)
    (userID provider : string).

(** The world after the service has answered a request. *)
Definition serve (w : World) (r : request) : World :=
  match r with
  | CreateKeyReq f random id now userID req =>
      snd (auth.CreateKey f random id now userID req w)
  | ValidateKeyReq f s virtualKey => snd (auth.ValidateKey f s virtualKey w)
  | UpdateSpendReq f keyID cost tokens today =>
      snd (auth.UpdateSpend f keyID cost tokens today w)
  | RevokeKeyReq f keyID userID now => snd (auth.RevokeKey f keyID userID now w)
  | UpdateKeyReq f keyID userID req => snd (auth.UpdateKey f keyID userID req w)
  | SetUserProviderReq s entropy f fdel userID provider apiKey =>
      snd (auth.SetUserProvider s entropy f fdel userID provider apiKey w)
  | RemoveUserProviderReq f fdel userID provider =>
      snd (auth.RemoveUserProvider f fdel userID provider w)
  end.

(** What a row keeps while the service runs: its id, owner, hash and
    creation time, and, once revoked, being revoked. *)
Definition keeps (k k' : VirtualKey) : Prop :=
  ID k' = ID k /\ UserID k' = UserID k /\ KeyHash k' = KeyHash k /\
  CreatedAt k' = CreatedAt k /\
  (RevokedAt k <> None -> RevokedAt k' <> None).

(** The rows of [virtual_keys] later on: the rows there were, each
    keeping the above, followed by the rows created since. *)
Definition evolves (rows rows' : list VirtualKey) : Prop :=
  exists kept added, rows' = kept ++ added /\ Forall2 keeps rows kept.

(** The providers the gateway knows, and a world that holds
    credentials of no other: in the rows of [user_providers] and in the
    cached configurations. *)
Definition known_provider (provider : string) : Prop :=
  provider = "openai" \/ provider = "anthropic".

Definition supported (w : World) : Prop :=
  (forall row, row ∈ user_providers (db w) -> known_provider (up_Provider row)) /\
  (forall entry config provider apiKey,
     kv w !! entry = Some config ->
     kc_Providers config !! provider = Some apiKey ->
     known_provider provider).

(** The cache entry of a key. *)
Definition cache_key (k : VirtualKey) : string :=
  cache.keyConfigPrefix +:+ KeyHash k.

(** The rows of [user_providers] a user owns. *)
Definition providers_of (userID : string) (d : DB) : list UserProvider :=
  List.filter (fun p => String.eqb (up_UserID p) userID) (user_providers d).



(** What happens to a pipeline: a caller logs an entry, a worker
    receives one, the batch is flushed, the pipeline is closed. *)
Inductive event : Type :=
| LogCall (entry : LogEntry)
| WorkerReceive
| FlushCall
| CloseCall.

Definition after (p : logging.Pipeline) (ev : event) : logging.Pipeline :=
  match ev with
  | LogCall entry => fst (logging.Log p entry)
  | WorkerReceive => logging.receive p
  | FlushCall => logging.flush p
  | CloseCall => logging.Close p
  end.

(** The entries [Log] took into the channel during a run of events. *)
Fixpoint accepted (p : logging.Pipeline) (events : list event) : list LogEntry :=
  match events with
  | [] => []
  | ev :: rest =>
      match ev with
      | LogCall entry =>
          match snd (logging.Log p entry) with
          | logging.Enqueued => [entry]
          | _ => []
          end
      | _ => []
      end ++ accepted (after p ev) rest
  end.

(** Every entry the pipeline holds or has handed to [bulkIndex]. *)
Definition held (p : logging.Pipeline) : list LogEntry :=
  concat (rev (logging.flushed p)) ++ logging.batch p ++ logging.logChan p.

(** The answers to a run of [IncrementRateLimit] for one key, at the
    given times, and the counters it leaves. *)
Fixpoint hits (keyHash : string) (times : list Time) (cs : cache.Counters)
    : list (Z + error) * cache.Counters :=
  match times with
  | [] => ([], cs)
  | now :: rest =>
      let '(r, cs) := cache.IncrementRateLimit None keyHash now cs in
      let '(rs, cs) := hits keyHash rest cs in
      (r :: rs, cs)
  end.

(** Times in order, each less than a window after the one before. *)
Fixpoint paced (now : Time) (times : list Time) : Prop :=
  match times with
  | [] => True
  | t :: rest => (now <= t < now + cache.rateLimitWindow)%Z /\ paced t rest
  end.

(** A writer nothing has been written to. *)
Definition fresh (flusher : bool) : proxy.ResponseWriter :=
  {| proxy.rw_header := ∅; proxy.rw_sent := None; proxy.rw_body := [];
     proxy.rw_flushes := 0; proxy.rw_flusher := flusher |}.

(** The bytes among what was written. *)
Definition bytes_of (body : list proxy.written) : list byte :=
  concat (List.map (fun c => match c with
                             | proxy.Bytes data => data
                             | proxy.ErrorJSON _ => []
                             end) body).

End service_vocabulary.

(* ===================================================================== *)
(** * Sample data *)
(* ===================================================================== *)

Module sample.
Import models store.

(** Stand-ins for the three library functions, to run the service on
    sample data: a digest that tags its input, a matcher for patterns
    without operators, and a cipher whose box is the plaintext, the nonce
    and the plaintext again. *)
Definition sha : Sha256 := fun virtualKey => "sha256:" +:+ virtualKey.

Definition glob : Filepath := fun pattern name => (String.eqb pattern name, false).

Definition aead : AEAD :=
  {| NonceSize := 12;
     Seal := fun key nonce plaintext => plaintext ++ nonce ++ plaintext;
     Open := fun key nonce box =>
       let plaintext := take ((length box - length nonce) / 2) box in
       if decide (box = plaintext ++ nonce ++ plaintext) then Some plaintext else None |}.

Definition masterKey : string := "0123456789abcdef0123456789abcdef".

Definition svc : auth.KeyService :=
  {| auth.encryptionKey := list_byte_of_string masterKey |}.

Definition entropy : list byte := list_byte_of_string "nonce-000001".

Definition token : string := "lum_5f2c".

(** A key with a cap of one dollar that has already spent five. *)
Definition key : VirtualKey :=
  {| ID := "key-1"; UserID := "user-1"; Name := "ci";
     KeyHash := sha token; AllowedModels := [];
     BudgetLimit := Some 1%float; CurrentSpend := 5%float;
     CreatedAt := 0%Z; RevokedAt := None |}.

Definition sealed (apiKey : string) : list byte :=
  match @auth.Encrypt aead svc entropy apiKey with
  | inl c => c
  | inr _ => []
  end.

Definition database : DB :=
  {| virtual_keys := [key];
     user_providers :=
       [ {| up_UserID := "user-1"; up_Provider := "openai";
            up_APIKeyEncrypted := sealed "sk-openai" |};
         {| up_UserID := "user-1"; up_Provider := "anthropic";
            up_APIKeyEncrypted := sealed "sk-ant" |} ];
     daily_stats := [] |}.

Definition world : World := {| db := database; kv := ∅; calls := [] |}.

(** The cache is down: every read of it fails. *)
Definition cache_read_fails : faults :=
  fun o => if decide (o = CacheGet) then Some (errorString "dial tcp: connection refused")
           else None.

(** The relational store rejects the spend increment. *)
Definition increment_fails : faults :=
  fun o => if decide (o = DbUpdateKeySpend) then Some (errorString "pq: deadlock detected")
           else None.

(** The cache takes no writes. *)
Definition cache_write_fails : faults :=
  fun o => if decide (o = CacheSet) then Some (errorString "redis: connection pool timeout")
           else None.

(** The cache refuses the purge of an entry. *)
Definition cache_delete_fails : faults :=
  fun o => if decide (o = CacheDel) then Some (errorString "redis: connection pool timeout")
           else None.

(** The configuration of [key] with both credentials of its owner. *)
Definition config : KeyConfig :=
  {| kc_KeyID := "key-1"; kc_UserID := "user-1"; kc_Name := "ci";
     kc_AllowedModels := [];
     kc_Providers := <["anthropic" := "sk-ant"]> (<["openai" := "sk-openai"]> ∅);
     kc_BudgetLimit := Some 1%float; kc_CurrentSpend := 5%float |}.

(** The world once the key has been validated: its configuration is in
    the cache. *)
Definition cached : World :=
  snd (@auth.ValidateKey sha aead no_faults svc token world).

Definition request (model : string) : proxy.Request :=
  {| proxy.Authorization := "Bearer " +:+ token;
     proxy.Body := proxy.Object {[ "model" := proxy.JString model ]} |}.

Definition entry : LogEntry :=
  {| le_TraceID := "trace-1"; le_VirtualKeyID := "key-1";
     le_Model := "openai/gpt-4o"; le_Provider := "openai";
     le_Content := "hi";
     le_Usage := {| PromptTokens := 10; CompletionTokens := 20; TotalTokens := 30 |};
     le_StatusCode := 200%Z; le_CostUSD := 0x1.d7dbf487fcb93p-13%float |}.

(** Two draws of thirty-two random bytes. *)
Definition random : list byte := list_byte_of_string "0123456789abcdef0123456789abcdef".

Definition random' : list byte := list_byte_of_string "fedcba9876543210fedcba9876543210".

Definition staging : CreateKeyRequest :=
  {| cr_Name := "staging"; cr_AllowedModels := ["openai/*"]; cr_BudgetLimit := None |}.

(** A second account, with a key and a credential of its own. *)
Definition token2 : string := "lum_9a1d".

Definition key2 : VirtualKey :=
  {| ID := "key-2"; UserID := "user-2"; Name := "batch";
     KeyHash := sha token2; AllowedModels := ["openai/*"];
     BudgetLimit := None; CurrentSpend := 0%float;
     CreatedAt := 3600%Z; RevokedAt := None |}.

Definition shared : World :=
  {| db :=
       {| virtual_keys := [key; key2];
          user_providers :=
            user_providers database ++
            [ {| up_UserID := "user-2"; up_Provider := "openai";
                 up_APIKeyEncrypted := sealed "sk-two" |} ];
          daily_stats := [] |};
     kv := ∅; calls := [] |}.

(** A key revoked some time ago, beside the live one. *)
Definition token0 : string := "lum_0b7e".

Definition retired : VirtualKey :=
  {| ID := "key-0"; UserID := "user-1"; Name := "old";
     KeyHash := sha token0; AllowedModels := [];
     BudgetLimit := None; CurrentSpend := 2%float;
     CreatedAt := 0%Z; RevokedAt := Some 1800%Z |}.

Definition archive : World :=
  {| db :=
       {| virtual_keys := [retired; key];
          user_providers := user_providers database;
          daily_stats := [] |};
     kv := ∅; calls := [] |}.

(** The Anthropic credential of the owner of [key] has been cut short
    in the store: five bytes, less than a nonce. *)
Definition truncated : UserProvider :=
  {| up_UserID := "user-1"; up_Provider := "anthropic";
     up_APIKeyEncrypted := list_byte_of_string "short" |}.

Definition corrupt : World :=
  {| db :=
       {| virtual_keys := [key];
          user_providers :=
            [ {| up_UserID := "user-1"; up_Provider := "openai";
                 up_APIKeyEncrypted := sealed "sk-openai" |};
              truncated ];
          daily_stats := [] |};
     kv := ∅; calls := [] |}.

(** Nothing of account administration fails, and every purge of a
    cache entry goes through. *)
Definition purge_ok : string -> option error := fun _ => None.

(** Two migration scripts, a store on which none has run, and a store
    that executes the second script but fails to record it. *)
Definition migrations : list database.DirEntry :=
  [ {| database.de_Name := "001_initial.sql"; database.de_IsDir := false;
       database.de_Content := "CREATE TABLE users (id UUID PRIMARY KEY)" |};
    {| database.de_Name := "002_providers.sql"; database.de_IsDir := false;
       database.de_Content := "ALTER TABLE virtual_keys DROP COLUMN provider" |} ].

Definition blank : database.Schema :=
  {| database.schema_migrations := []; database.executed := [] |}.

Definition migrated : database.Schema :=
  {| database.schema_migrations := ["001_initial.sql"; "002_providers.sql"];
     database.executed :=
       ["CREATE TABLE users (id UUID PRIMARY KEY)";
        "ALTER TABLE virtual_keys DROP COLUMN provider"] |}.

Definition no_migrate_faults : database.migrate_faults := fun _ => None.

Definition record_fails : database.migrate_faults :=
  fun o =>
    match o with
    | database.RecordMigration name =>
        if String.eqb name "002_providers.sql"
        then Some (errorString "pq: connection reset by peer")
        else None
    | _ => None
    end.

(** The body of a reply in Anthropic's format: the usage is reported as
    input and output tokens. *)
Definition anthropic_reply : gmap string proxy.jsonv :=
  {[ "usage" :=
       proxy.JObject [ ("input_tokens", proxy.JNumber 12%float);
                       ("output_tokens", proxy.JNumber 40%float) ] ]}.

End sample.

(** The sample cipher keeps the laws of an authenticated cipher. *)
Lemma sample_Open_Seal (nonce plaintext : list byte) :
  (length (plaintext ++ nonce ++ plaintext) - length nonce) / 2 = length plaintext.
Proof.
  rewrite !length_app.
  replace (length plaintext + (length nonce + length plaintext) - length nonce)
    with (length plaintext * 2) by lia.
  apply Nat.div_mul. lia.
Qed.

Lemma sample_take (nonce nonce' plaintext : list byte) :
  length nonce' = length nonce ->
  take ((length (plaintext ++ nonce ++ plaintext) - length nonce') / 2)
    (plaintext ++ nonce ++ plaintext) = plaintext.
Proof.
  intros ->. by rewrite sample_Open_Seal, take_app_length.
Qed.

Lemma sample_aead_laws : @AEADLaws sample.aead.
Proof.
  split; cbn [Seal Open NonceSize sample.aead].
  - intros _ nonce p _. rewrite sample_take by done. by case_decide.
  - intros _ nonce p i b _ Hi Hb.
    rewrite sample_take by apply length_insert.
    case_decide as Heq; [| done].
    apply app_inv_head, app_inv_tail in Heq.
    exfalso. apply Hb. rewrite Heq. by apply list_lookup_insert_eq.
  - intros _ nonce p i b _ Hi Hb.
    rewrite length_insert, sample_Open_Seal.
    set (p' := take (length p) _).
    assert (length p' = length p) as Hlen.
    { unfold p'. rewrite length_take, length_insert, !length_app. lia. }
    case_decide as Heq; [exfalso | done].
    assert (forall j, (<[i:=b]> (p ++ nonce ++ p)) !! j = (p' ++ nonce ++ p') !! j) as Hj
      by (intros j; by rewrite <- Heq).
    clear Heq. rewrite !length_app in Hi.
    destruct (decide (i < length p)) as [H1|H1];
      [| destruct (decide (i < length p + length nonce)) as [H2|H2]].
    + pose proof (Hj i) as Ha. pose proof (Hj (length p + length nonce + i)) as Hb'.
      rewrite list_lookup_insert_eq in Ha by (rewrite !length_app; lia).
      rewrite list_lookup_insert_ne in Hb' by lia.
      rewrite (lookup_app_l p') in Ha by lia.
      rewrite !lookup_app_r in Hb' by lia.
      replace (length p + length nonce + i - length p' - length nonce) with i in Hb' by lia.
      replace (length p + length nonce + i - length p - length nonce) with i in Hb' by lia.
      rewrite lookup_app_l in Hb by lia. congruence.
    + pose proof (Hj i) as Ha.
      rewrite list_lookup_insert_eq in Ha by (rewrite !length_app; lia).
      rewrite lookup_app_r, lookup_app_l in Ha by lia.
      rewrite lookup_app_r, lookup_app_l in Hb by lia.
      rewrite Hlen in Ha. congruence.
    + pose proof (Hj i) as Ha. pose proof (Hj (i - length p - length nonce)) as Hb'.
      rewrite list_lookup_insert_eq in Ha by (rewrite !length_app; lia).
      rewrite list_lookup_insert_ne in Hb' by lia.
      rewrite !lookup_app_r in Ha by lia.
      rewrite !lookup_app_l in Hb' by lia.
      rewrite !lookup_app_r in Hb by lia.
      rewrite Hlen in Ha. congruence.
Qed.

(* ===================================================================== *)
(** * Properties *)
(* ===================================================================== *)

(** Unfold the steps of the service down to matches on the world. *)
Ltac run :=
  unfold auth.ValidateKey, auth.UpdateSpend, auth.UpdateKey, auth.RevokeKey,
    database.UpdateKeySpend, database.UpsertDailyStat, database.UpdateVirtualKey,
    database.RevokeVirtualKey, database.GetVirtualKeyByID,
    database.GetVirtualKeyByHash, database.GetUserProviders,
    cache.GetKeyConfig, cache.SetKeyConfig, cache.DeleteKeyConfig,
    mbind, mret, store.M_bind, store.M_ret, store.throw, store.wrapping,
    store.try, store.call, store.with_db, store.with_kv;
  simpl.

(** ** Byte strings *)

Section string_facts.

Lemma append_nil_l (t : string) : "" +:+ t = t.
Proof. reflexivity. Qed.

Lemma append_cons (c : ascii) (s t : string) :
  String c s +:+ t = String c (s +:+ t).
Proof. reflexivity. Qed.

Lemma append_nil_r (s : string) : s +:+ "" = s.
Proof.
  induction s as [|c s IH]; [reflexivity |].
  by rewrite append_cons, IH.
Qed.

Lemma length_append (s t : string) :
  String.length (s +:+ t) = String.length s + String.length t.
Proof.
  induction s as [|c s IH]; [reflexivity |].
  rewrite append_cons. simpl. by rewrite IH.
Qed.

Lemma substring_append_l (s t : string) :
  String.substring 0 (String.length s) (s +:+ t) = s.
Proof.
  induction s as [|c s IH].
  - rewrite append_nil_l. by destruct t.
  - rewrite append_cons. simpl. by rewrite IH.
Qed.

Lemma HasPrefix_iff (s p : string) :
  strings.HasPrefix s p = true <-> exists r, s = p +:+ r.
Proof.
  unfold strings.HasPrefix. revert s.
  induction p as [|a p IH]; intros s.
  - split; [intros _; by exists s | intros _; by destruct s].
  - destruct s as [|b s]; simpl.
    + split; [done | intros [r Hr]; discriminate].
    + destruct (ascii_dec a b) as [->|Hab].
      * rewrite IH. split; intros [r Hr]; exists r;
          rewrite append_cons in *; congruence.
      * split; [done | intros [r Hr]; rewrite append_cons in Hr; congruence].
Qed.

Lemma HasSuffix_unfold (s suf : string) :
  strings.HasSuffix s suf =
  String.eqb s suf ||
  match s with
  | EmptyString => false
  | String _ r => strings.HasSuffix r suf
  end.
Proof. by destruct s. Qed.

Lemma HasSuffix_app (q suf : string) : strings.HasSuffix (q +:+ suf) suf = true.
Proof.
  induction q as [|c q IH].
  - by rewrite append_nil_l, HasSuffix_unfold, String.eqb_refl.
  - rewrite append_cons, HasSuffix_unfold, IH. apply orb_true_r.
Qed.

Lemma HasSuffix_iff (s suf : string) :
  strings.HasSuffix s suf = true <-> exists q, s = q +:+ suf.
Proof.
  split; [| intros [q ->]; apply HasSuffix_app].
  induction s as [|c s IH]; rewrite HasSuffix_unfold, orb_true_iff.
  - intros [Heq|?]; [| done]. apply String.eqb_eq in Heq. by exists "".
  - intros [Heq|Hs].
    + apply String.eqb_eq in Heq. by exists "".
    + destruct (IH Hs) as [q ->]. by exists (String c q).
Qed.

Lemma TrimSuffix_app (q suf : string) : strings.TrimSuffix (q +:+ suf) suf = q.
Proof.
  unfold strings.TrimSuffix. rewrite HasSuffix_app, length_append.
  replace (String.length q + String.length suf - String.length suf)
    with (String.length q) by lia.
  apply substring_append_l.
Qed.

End string_facts.

(** ** Model patterns *)

Section pattern_facts.
Context `{Filepath}.
Import models.

Lemma append_star_inj (q q' : string) : q +:+ "*" = q' +:+ "*" -> q = q'.
Proof.
  intros Heq.
  by rewrite <- (TrimSuffix_app q "*"), <- (TrimSuffix_app q' "*"), Heq.
Qed.

(** The fallback of [matchModelPattern] is the literal-prefix match. *)
Lemma prefix_fallback_iff (pattern model : string) :
  (if strings.HasSuffix pattern "*"
   then strings.HasPrefix model (strings.TrimSuffix pattern "*")
   else false) = true <->
  prefix_matches pattern model.
Proof.
  unfold prefix_matches.
  destruct (strings.HasSuffix pattern "*") eqn:Hsuf.
  - apply HasSuffix_iff in Hsuf as [q ->].
    rewrite TrimSuffix_app, HasPrefix_iff. split.
    + intros [r ->]. exists q. eauto.
    + intros (q' & Hq & r & ->). apply append_star_inj in Hq as ->. by exists r.
  - split; [done |]. intros (q & -> & _). by rewrite HasSuffix_app in Hsuf.
Qed.

Lemma matchModelPattern_iff (pattern model : string) :
  auth.matchModelPattern pattern model = true <->
  pattern = "*" \/ glob_matches pattern model \/ prefix_matches pattern model.
Proof.
  unfold auth.matchModelPattern, glob_matches.
  destruct (String.eqb_spec pattern "*") as [->|Hstar]; [tauto |].
  destruct (filepath_Match pattern model) as [matched err].
  destruct err, matched; simpl; rewrite ?prefix_fallback_iff.
  - split; [tauto | intros [?|[?|?]]; [done | discriminate | done]].
  - split; [tauto | intros [?|[?|?]]; [done | discriminate | done]].
  - tauto.
  - split; [tauto | intros [?|[?|?]]; [done | discriminate | done]].
Qed.

(** C6: [IsModelAllowed] holds exactly when the list of allowed patterns
    is empty, or one of its patterns is the lone star, glob-matches the
    model, or ends in a star whose un-starred part is a literal prefix of
    the model. *)
Theorem IsModelAllowed_iff (c : KeyConfig) (m : string) :
  auth.IsModelAllowed c m = true <->
  kc_AllowedModels c = [] \/
  exists pattern, pattern ∈ kc_AllowedModels c /\
    (pattern = "*" \/ glob_matches pattern m \/ prefix_matches pattern m).
Proof.
  unfold auth.IsModelAllowed.
  destruct (decide (length (kc_AllowedModels c) = 0)) as [Hlen|Hlen].
  - apply length_zero_iff_nil in Hlen. tauto.
  - rewrite existsb_exists. split.
    + intros (p & Hin & Hp). right. exists p.
      split; [by apply list_elem_of_In | by apply matchModelPattern_iff].
    + intros [Hnil|(p & Hin & Hp)].
      * by rewrite Hnil in Hlen.
      * exists p. split; [by apply list_elem_of_In | by apply matchModelPattern_iff].
Qed.

(** The lone star admits every model. *)
Lemma star_admits_every_model (c : KeyConfig) (m : string) :
  "*" ∈ kc_AllowedModels c -> auth.IsModelAllowed c m = true.
Proof.
  intros Hin. unfold auth.IsModelAllowed. case_decide; [done |].
  apply existsb_exists. exists "*". split; [by apply list_elem_of_In | done].
Qed.

(** A key restricted to [openai/*] admits openai/gpt-4o whatever the
    globbing says, and rejects a model of another provider as soon as
    the globbing does. *)
Lemma provider_wildcard (c : KeyConfig) :
  kc_AllowedModels c = ["openai/*"] ->
  auth.IsModelAllowed c "openai/gpt-4o" = true /\
  (fst (filepath_Match "openai/*" "anthropic/claude-3-haiku-20240307") = false ->
   auth.IsModelAllowed c "anthropic/claude-3-haiku-20240307" = false).
Proof.
  intros Hc. unfold auth.IsModelAllowed, auth.matchModelPattern. rewrite Hc. simpl.
  split.
  - destruct (filepath_Match "openai/*" "openai/gpt-4o") as [[] []]; reflexivity.
  - destruct (filepath_Match "openai/*" _) as [matched err]. simpl.
    intros ->. by rewrite andb_false_r.
Qed.

End pattern_facts.

(** ** Cost *)

Section cost_facts.
Import models proxy.



End cost_facts.

(** ** The ingress queue *)

Section ingress_facts.
Import models logging.

Lemma Log_bounded (p : Pipeline) (entry : LogEntry) :
  length (logChan p) <= channelSize ->
  length (logChan (fst (Log p entry))) <= channelSize.
Proof.
  intros Hle. unfold Log.
  destruct (closed p); [done |].
  destruct (decide (length (logChan p) < channelSize)); [| done].
  simpl. rewrite length_app. simpl. lia.
Qed.

Lemma flush_logChan (p : Pipeline) : logChan (flush p) = logChan p.
Proof. unfold flush. by destruct (batch p). Qed.

Lemma receive_bounded (p : Pipeline) :
  length (logChan p) <= channelSize ->
  length (logChan (receive p)) <= channelSize.
Proof.
  intros Hle. unfold receive.
  destruct (logChan p) as [|entry rest] eqn:Hchan; [by rewrite Hchan |].
  simpl in *. lia.
Qed.

Lemma worker_reachable (p : Pipeline) : reachable p -> reachable (worker p).
Proof.
  intros Hp. unfold worker.
  assert (reachable (receive p)) by (eapply reachable_step; [done | constructor]).
  case_decide; [| done]. eapply reachable_step; [done | constructor].
Qed.

(** Whatever callers, workers and the ticker do, the channel holds at
    most [channelSize] entries. *)
Lemma reachable_bounded (p : Pipeline) :
  reachable p -> length (logChan p) <= channelSize.
Proof.
  induction 1 as [|p p' _ IH Hstep].
  - simpl. unfold channelSize. lia.
  - destruct Hstep.
    + by apply Log_bounded.
    + by apply receive_bounded.
    + by rewrite flush_logChan.
    + done.
Qed.

(** C9: on a pipeline that has not been closed, [Log] returns at once:
    with fewer than 1,000 entries queued the entry joins the queue, with
    the queue full the entry is dropped and the pipeline is as before,
    and either way the queue holds at most 1,000 entries afterwards. *)
Theorem Log_never_blocks (p : Pipeline) (entry : LogEntry) :
  reachable p ->
  closed p = false ->
  (length (logChan p) < 1000 ->
     Log p entry =
       ({| logChan := logChan p ++ [entry]; closed := false;
           batch := batch p; flushed := flushed p |}, Enqueued)) /\
  (length (logChan p) = 1000 -> Log p entry = (p, Dropped)) /\
  length (logChan p) <= 1000 /\
  length (logChan (fst (Log p entry))) <= 1000.
Proof.
  intros Hreach Hopen.
  pose proof (reachable_bounded p Hreach) as Hle.
  pose proof (Log_bounded p entry Hle) as Hle'.
  unfold channelSize in *. repeat split; [| | done | done].
  - intros Hlt. unfold Log. rewrite Hopen.
    destruct (decide (length (logChan p) < channelSize)) as [|Hn]; [done |].
    unfold channelSize in Hn. lia.
  - intros Hfull. unfold Log. rewrite Hopen.
    destruct (decide (length (logChan p) < channelSize)) as [Hlt|]; [| done].
    unfold channelSize in Hlt. lia.
Qed.

Lemma submit_length (entries : list LogEntry) (p : Pipeline) :
  closed p = false ->
  length (logChan p) <= channelSize ->
  closed (submit p entries) = false /\
  length (logChan (submit p entries)) =
    Nat.min (length (logChan p) + length entries) channelSize.
Proof.
  revert p. induction entries as [|entry entries IH]; intros p Hopen Hle.
  - simpl. split; [done | lia].
  - unfold submit in *. simpl.
    assert (closed (fst (Log p entry)) = false) as Hopen'.
    { unfold Log. rewrite Hopen. by case_decide. }
    destruct (IH (fst (Log p entry)) Hopen' (Log_bounded p entry Hle)) as [Hc Hl].
    split; [done |]. rewrite Hl.
    unfold Log. rewrite Hopen. case_decide; simpl; rewrite ?length_app; simpl; lia.
Qed.

Lemma reachable_submit (entries : list LogEntry) (p : Pipeline) :
  reachable p -> reachable (submit p entries).
Proof.
  revert p. induction entries as [|entry entries IH]; intros p Hp; [done |].
  apply IH. eapply reachable_step; [done | constructor].
Qed.

End ingress_facts.

(** ** Spend accounting and key updates *)

Section service_facts.
Import models store database auth.

(** C3, as the code has it: the increment is always attempted; when it
    fails, [UpdateSpend] returns its error and the upsert is not
    attempted; when it succeeds the upsert is attempted, and a failing
    upsert leaves the increment in place. *)
Theorem UpdateSpend_attempts (f : faults) (keyID : string) (cost : float)
    (tokens today : Z) (w : World) :
  let '(r, w') := UpdateSpend f keyID cost tokens today w in
  match f DbUpdateKeySpend with
  | Some e =>
      r = inr (wrapError "failed to update key spend" e) /\
      calls w' = DbUpdateKeySpend :: calls w /\
      db w' = db w
  | None =>
      calls w' = DbUpsertDailyStat :: DbUpdateKeySpend :: calls w /\
      virtual_keys (db w') = virtual_keys (update_keys (add_spend cost) keyID (db w)) /\
      match f DbUpsertDailyStat with
      | Some e =>
          r = inr (wrapError "failed to upsert daily stat" e) /\
          daily_stats (db w') = daily_stats (db w)
      | None =>
          r = inl tt /\
          daily_stats (db w') = upsert_stat keyID today tokens cost (daily_stats (db w))
      end
  end.
Proof.
  run. destruct (f DbUpdateKeySpend); [done |].
  destruct (f DbUpsertDailyStat); done.
Qed.

(** What [UpdateKey] can do to the relational store: nothing, or the
    patch on the rows with the given id. *)
Lemma UpdateKey_db (f : faults) (keyID userID : string) (req : UpdateKeyRequest)
    (w : World) :
  db (snd (UpdateKey f keyID userID req w)) = db w \/
  db (snd (UpdateKey f keyID userID req w)) =
    update_keys (patch (ur_Name req) (ur_AllowedModels req) (ur_BudgetLimit req))
      keyID (db w).
Proof.
  run. repeat (case_match; simpl; simplify_eq; auto).
Qed.

(** C10: [UpdateKey] never removes a budget cap: a key that has a cap
    before the call has one after it, whatever the patch and whichever
    calls fail; and a patch without a budget-cap field leaves the stored
    cap as it was. *)
Theorem UpdateKey_keeps_budget (f : faults) (keyID userID : string)
    (req : UpdateKeyRequest) (w : World) (i : nat) (k : VirtualKey) :
  virtual_keys (db w) !! i = Some k ->
  is_Some (BudgetLimit k) ->
  exists k',
    virtual_keys (db (snd (UpdateKey f keyID userID req w))) !! i = Some k' /\
    ID k' = ID k /\
    is_Some (BudgetLimit k') /\
    (ur_BudgetLimit req = None -> BudgetLimit k' = BudgetLimit k).
Proof.
  intros Hk Hcap.
  destruct (UpdateKey_db f keyID userID req w) as [-> | ->].
  - exists k. eauto.
  - unfold update_keys. simpl. rewrite list_lookup_fmap, Hk. simpl.
    destruct (String.eqb (ID k) keyID); [| eauto].
    eexists. split; [reflexivity |]. simpl.
    destruct (ur_BudgetLimit req); split_and!; eauto; done.
Qed.

End service_facts.

(** ** Sealing provider credentials *)

Section crypto_facts.
Context `{AEAD} `{!AEADLaws}.
Import auth.

Lemma length_list_byte_of_string (str : string) :
  length (list_byte_of_string str) = String.length str.
Proof.
  unfold list_byte_of_string. rewrite length_map.
  induction str as [|c r IH]; simpl; [reflexivity | by rewrite IH].
Qed.

Lemma NewKeyService_key (masterKey : string) (s : KeyService) :
  NewKeyService masterKey = Some s -> length (encryptionKey s) = 32.
Proof.
  unfold NewKeyService. case_decide as Hlen; [| done].
  intros [= <-]. simpl. rewrite length_take.
  rewrite length_list_byte_of_string. lia.
Qed.

Lemma NewKeyService_cipher (masterKey : string) (s : KeyService) :
  NewKeyService masterKey = Some s -> aes_NewCipher (encryptionKey s) = None.
Proof.
  intros Hs. unfold aes_NewCipher.
  rewrite (NewKeyService_key _ _ Hs). by case_decide; [| tauto].
Qed.

(** What [Encrypt] returns: the nonce it drew, then the sealed box. *)
Lemma Encrypt_layout (s : KeyService) (entropy : list byte) (plaintext : string)
    (c : list byte) :
  Encrypt s entropy plaintext = inl c ->
  aes_NewCipher (encryptionKey s) = None /\
  exists nonce,
    length nonce = NonceSize /\
    c = nonce ++ Seal (encryptionKey s) nonce (list_byte_of_string plaintext).
Proof.
  unfold Encrypt, io_ReadFull.
  destruct (aes_NewCipher (encryptionKey s)); [done |].
  case_decide as Hlen; [| done]. intros [= <-].
  split; [done |]. eexists. split; [| reflexivity].
  rewrite length_take. lia.
Qed.

(** [Decrypt] on a nonce followed by some box. *)
Lemma Decrypt_layout (s : KeyService) (nonce box : list byte) :
  aes_NewCipher (encryptionKey s) = None ->
  length nonce = NonceSize ->
  Decrypt s (nonce ++ box) =
    match Open (encryptionKey s) nonce box with
    | None => inr (errorString "cipher: message authentication failed")
    | Some plaintext => inl (string_of_list_byte plaintext)
    end.
Proof.
  intros Hkey Hlen. unfold Decrypt. rewrite Hkey.
  case_decide as Hshort; [rewrite length_app in Hshort; lia |].
  by rewrite <- Hlen, take_app_length, drop_app_length.
Qed.

(** C7: under the master key the service was built with, [Decrypt]
    gives back every plaintext that [Encrypt] sealed, fails on every
    ciphertext shorter than the nonce, and fails on the output of
    [Encrypt] once any one of its bytes has been changed. *)
Theorem Decrypt_Encrypt (masterKey : string) (s : KeyService)
    (entropy : list byte) (plaintext : string) :
  NewKeyService masterKey = Some s ->
  NonceSize <= length entropy ->
  exists c,
    Encrypt s entropy plaintext = inl c /\
    Decrypt s c = inl plaintext /\
    (forall short, length short < NonceSize ->
       Decrypt s short = inr (errorString "ciphertext too short")) /\
    (forall i b, i < length c -> c !! i <> Some b ->
       Decrypt s (<[i:=b]> c) =
         inr (errorString "cipher: message authentication failed")).
Proof.
  intros Hs Hentropy.
  pose proof (NewKeyService_cipher _ _ Hs) as Hkey.
  destruct (Encrypt s entropy plaintext) as [c|e] eqn:Henc; cycle 1.
  { unfold Encrypt, io_ReadFull in Henc. rewrite Hkey in Henc.
    by case_decide. }
  exists c. split; [done |].
  destruct (Encrypt_layout _ _ _ _ Henc) as (_ & nonce & Hlen & ->).
  split_and!.
  - rewrite Decrypt_layout, Open_Seal by done.
    by rewrite string_of_list_byte_of_string.
  - intros short Hshort. unfold Decrypt. rewrite Hkey. by case_decide.
  - intros i b Hi Hb.
    destruct (decide (i < length nonce)) as [Hin|Hout].
    + rewrite insert_app_l by done.
      rewrite Decrypt_layout by (by rewrite ?length_insert).
      rewrite lookup_app_l in Hb by done.
      by rewrite Open_nonce_tampered.
    + rewrite insert_app_r_alt by lia.
      rewrite length_app in Hi.
      rewrite lookup_app_r in Hb by lia.
      rewrite Decrypt_layout by done.
      by rewrite Open_box_tampered by (done || lia).
Qed.

End crypto_facts.

(** ** Validating a key *)

Section validate_facts.
Context `{Sha256} `{AEAD}.
Import models store database auth.

Lemma decryptProviders_error (s : KeyService) (rows : list UserProvider)
    (providers : gmap string string) (e : error) :
  decryptProviders s rows providers = inr e ->
  exists e', e = wrapError "decryption error" e'.
Proof.
  revert providers. induction rows as [|p rows IH]; intros providers; simpl; [done |].
  destruct (Decrypt s (up_APIKeyEncrypted p)); [apply IH |].
  intros [= <-]. eauto.
Qed.

(** The row [GetVirtualKeyByHash] hands over is never a revoked one, so
    the [ErrKeyRevoked] branch of [ValidateKey] is never taken. *)
Lemma ValidateKey_never_revoked (f : faults) (s : KeyService) (virtualKey : string)
    (w : World) :
  fst (ValidateKey f s virtualKey w) <> inr ErrKeyRevoked.
Proof.
  run. destruct (strings.HasPrefix virtualKey virtualKeyPrefix); simpl; [| done].
  destruct (f CacheGet); [done |].
  destruct (kv w !! _); [done |].
  destruct (f DbGetVirtualKeyByHash); [done |].
  destruct (List.find _ _) as [key|] eqn:Hfind; [| done].
  apply find_some in Hfind as [_ [_ Hlive]%andb_true_iff]. rewrite Hlive. simpl.
  destruct (f DbGetUserProviders); [done |].
  destruct (decryptProviders _ _ _) as [providers|e] eqn:Hdec.
  - destruct (cache.marshal_fails _); [done |]. by destruct (f CacheSet).
  - apply decryptProviders_error in Hdec as [e' ->]. done.
Qed.

(** C2, as the code has it: a failing cache read ends [ValidateKey] with
    a cache error before the durable store is asked, even when the store
    holds a valid non-revoked key; the store is the fallback for a cache
    miss only, and then the key configuration is returned whether or not
    writing it back to the cache succeeds. *)
Theorem ValidateKey_cache (f : faults) (s : KeyService) (virtualKey : string)
    (w : World) (key : VirtualKey) (providers : gmap string string) :
  strings.HasPrefix virtualKey virtualKeyPrefix = true ->
  live_key (HashKey virtualKey) (db w) = Some key ->
  f DbGetVirtualKeyByHash = None ->
  f DbGetUserProviders = None ->
  decryptProviders s
    (List.filter (fun p => String.eqb (up_UserID p) (UserID key)) (user_providers (db w)))
    ∅ = inl providers ->
  match f CacheGet with
  | Some e =>
      ValidateKey f s virtualKey w =
        (inr (wrapError "cache error" (wrapError "failed to get key config" e)),
         {| db := db w; kv := kv w; calls := CacheGet :: calls w |})
  | None =>
      kv w !! (cache.keyConfigPrefix +:+ HashKey virtualKey) = None ->
      fst (ValidateKey f s virtualKey w) = inl (config_of key providers)
  end.
Proof.
  intros Hprefix Hkey Hdb Hup Hdec. unfold live_key in Hkey.
  destruct (f CacheGet) as [e|] eqn:Hget.
  - run. rewrite Hprefix. simpl. by rewrite Hget.
  - intros Hmiss. run. rewrite Hprefix. simpl. rewrite Hget. simpl.
    rewrite Hmiss, Hdb. simpl. rewrite Hkey. simpl.
    apply find_some in Hkey as [_ [_ Hlive]%andb_true_iff]. rewrite Hlive. simpl.
    rewrite Hup, Hdec. fold (config_of key providers).
    destruct (cache.marshal_fails _); [done |]. by destruct (f CacheSet).
Qed.

(** What a successful [RevokeKey] leaves behind. *)
Lemma RevokeKey_ok (f : faults) (keyID userID : string) (now : Time) (w w' : World) :
  RevokeKey f keyID userID now w = (inl tt, w') ->
  exists k,
    List.find (fun k => String.eqb (ID k) keyID) (virtual_keys (db w)) = Some k /\
    UserID k = userID /\
    db w' = update_keys (set_RevokedAt (Some now)) keyID (db w) /\
    kv w' = match f CacheDel with
            | Some _ => kv w
            | None => delete (cache.keyConfigPrefix +:+ KeyHash k) (kv w)
            end.
Proof.
  run. destruct (f DbGetVirtualKeyByID); [done |].
  destruct (List.find _ _) as [k|]; [| done].
  destruct (String.eqb_spec (UserID k) userID) as [Huser|]; simpl; [| done].
  destruct (f DbRevokeVirtualKey); [done |].
  destruct (f CacheDel); intros [= <-]; exists k; done.
Qed.

Lemma find_none_intro {A} (g : A -> bool) (l : list A) :
  (forall x, In x l -> g x = false) -> List.find g l = None.
Proof.
  induction l as [|a l IH]; intros Hall; simpl; [reflexivity |].
  rewrite (Hall a) by (by left). apply IH. intros x Hx. apply Hall. by right.
Qed.

(** Once the rows with an id are revoked, no live row has the hash of a
    row with that id: hashes are unique. *)
Lemma live_key_revoked (keyID : string) (now : Time) (d : DB) (k : VirtualKey) :
  NoDup (KeyHash <$> virtual_keys d) ->
  List.find (fun k => String.eqb (ID k) keyID) (virtual_keys d) = Some k ->
  live_key (KeyHash k) (update_keys (set_RevokedAt (Some now)) keyID d) = None.
Proof.
  intros Hnodup Hfind. unfold live_key, update_keys. simpl.
  apply find_some in Hfind as [Hin Hid%String.eqb_eq].
  apply find_none_intro. intros k' Hin'.
  apply in_map_iff in Hin' as (k0 & <- & Hin0).
  destruct (String.eqb_spec (ID k0) keyID) as [Hid0|Hid0]; simpl.
  - apply andb_false_r.
  - apply andb_false_iff. left. apply String.eqb_neq. intros Hhash.
    apply Hid0. rewrite <- Hid. f_equal.
    apply list_elem_of_In in Hin, Hin0.
    apply list_elem_of_lookup in Hin as [i Hi], Hin0 as [j Hj].
    assert (i = j) as ->; [| congruence].
    apply (NoDup_lookup _ i j (KeyHash k) Hnodup); rewrite list_lookup_fmap.
    + by rewrite Hi.
    + rewrite Hj. simpl. by rewrite Hhash.
Qed.

(** C4, on the code: after a [RevokeKey] that succeeded and purged the
    cache entry, [ValidateKey] on the key's token answers [ErrInvalidKey],
    the answer for a token that was never issued, and not
    [ErrKeyRevoked]. *)
Theorem revoke_then_validate (f f' : faults) (s : KeyService)
    (keyID userID virtualKey : string) (now : Time) (w w' : World) (k : VirtualKey) :
  NoDup (KeyHash <$> virtual_keys (db w)) ->
  List.find (fun k => String.eqb (ID k) keyID) (virtual_keys (db w)) = Some k ->
  KeyHash k = HashKey virtualKey ->
  strings.HasPrefix virtualKey virtualKeyPrefix = true ->
  RevokeKey f keyID userID now w = (inl tt, w') ->
  f CacheDel = None ->
  f' CacheGet = None ->
  f' DbGetVirtualKeyByHash = None ->
  fst (ValidateKey f' s virtualKey w') = inr ErrInvalidKey.
Proof.
  intros Hnodup Hfind Hhash Hprefix Hrevoke Hdel Hget Hdb.
  apply RevokeKey_ok in Hrevoke as (k' & Hfind' & _ & Hdb' & Hkv').
  assert (k' = k) as -> by congruence.
  pose proof (live_key_revoked keyID now (db w) k Hnodup Hfind) as Hlive.
  unfold live_key in Hlive. rewrite Hhash, <- Hdb' in Hlive.
  run. rewrite Hprefix. simpl. rewrite Hget. simpl.
  rewrite Hkv', Hdel, Hhash, lookup_delete_eq, Hdb. simpl. rewrite Hlive.
  reflexivity.
Qed.

End validate_facts.

(** ** Dispatch *)

Section dispatch_facts.
Context `{Sha256} `{AEAD} `{Filepath}.
Import models store auth proxy.



(** The only 403 that [proxyUnified] writes is the one for a model the
    key does not allow. *)
Lemma proxyUnified_forbidden (f : faults) (s : KeyService) (r : Request)
    (path requestType : string) (w : World) (message : string) :
  fst (proxyUnified f s r path requestType w) = WriteError 403 message ->
  exists keyConfig requestData,
    fst (extractAndValidateKey f s r w) = inl keyConfig /\
    Body r = Object requestData /\
    IsModelAllowed keyConfig (extractModel requestData) = false /\
    message = "model '" +:+ extractModel requestData +:+ "' is not allowed for this key".
Proof.
  unfold proxyUnified.
  destruct (extractAndValidateKey f s r w) as [[keyConfig|e] w']; simpl; [| done].
  destruct (Body r) as [| |requestData]; simpl; [done | done |].
  destruct (parseModel (extractModel requestData)) as [[provider actualModel]|msg];
    simpl; [| done].
  destruct (IsModelAllowed keyConfig (extractModel requestData)) eqn:Hallowed; simpl.
  - destruct (GetProviderKey keyConfig provider); simpl; [| done].
    by repeat (case_match; simpl).
  - intros [= <-]. by exists keyConfig, requestData.
Qed.

(** C1, on the code: [proxyUnified] sends a request upstream without
    asking [CheckBudget]: on every route, a request that passes the other
    checks is dispatched even when [CheckBudget] with an estimated cost
    of zero answers [ErrBudgetExceeded] for its key. *)
Theorem over_budget_is_dispatched (f : faults) (s : KeyService) (r : Request)
    (path requestType : string) (w w' : World) (keyConfig : KeyConfig)
    (requestData : gmap string jsonv) (provider actualModel realAPIKey : string) :
  extractAndValidateKey f s r w = (inl keyConfig, w') ->
  CheckBudget keyConfig 0 = Some ErrBudgetExceeded ->
  Body r = Object requestData ->
  parseModel (extractModel requestData) = inl (provider, actualModel) ->
  provider = "openai" \/ provider = "anthropic" ->
  IsModelAllowed keyConfig (extractModel requestData) = true ->
  GetProviderKey keyConfig provider = inl realAPIKey ->
  exists streaming,
    proxyUnified f s r path requestType w =
      (Upstream (upstream_url provider path) (upstream_headers provider realAPIKey)
         (<["model" := JString actualModel]> requestData) streaming, w').
Proof.
  intros Hkey _ Hbody Hmodel Hprov Hallowed Hprovider.
  unfold proxyUnified. rewrite Hkey, Hbody, Hmodel, Hallowed, Hprovider. simpl.
  unfold upstream_url, upstream_headers.
  destruct Hprov as [-> | ->]; simpl; eexists; reflexivity.
Qed.

End dispatch_facts.

(* ===================================================================== *)
(** * The properties on the sample data *)
(* ===================================================================== *)

(** A request for openai/gpt-4o under a key that is four dollars over
    its cap is sent to OpenAI. *)
Lemma over_budget_is_dispatched_witness :
  auth.CheckBudget sample.config 0 = Some ErrBudgetExceeded /\
  exists streaming,
    @proxy.ChatCompletions sample.sha sample.aead sample.glob store.no_faults sample.svc
      (sample.request "openai/gpt-4o") sample.world =
    (proxy.Upstream "https://api.openai.com/v1/chat/completions"
       (<["Content-Type" := "application/json"]>
          (<["Authorization" := "Bearer sk-openai"]> ∅))
       {[ "model" := proxy.JString "gpt-4o" ]}
       streaming,
     sample.cached).
Proof.
  split; [vm_compute; reflexivity |].
  destruct (@over_budget_is_dispatched sample.sha sample.aead sample.glob
              store.no_faults sample.svc (sample.request "openai/gpt-4o")
              "/v1/chat/completions" "chat" sample.world sample.cached sample.config
              {[ "model" := proxy.JString "openai/gpt-4o" ]} "openai" "gpt-4o" "sk-openai")
    as [streaming Hsent]; try (vm_compute; reflexivity).
  { by left. }
  exists streaming. unfold proxy.ChatCompletions. rewrite Hsent.
  vm_compute. reflexivity.
Defined.

(** With the cache refusing the write-back, the key is still validated
    from the relational store. *)
Lemma ValidateKey_cache_witness :
  fst (@auth.ValidateKey sample.sha sample.aead sample.cache_write_fails sample.svc
         sample.token sample.world) = inl sample.config.
Proof.
  apply (@ValidateKey_cache sample.sha sample.aead sample.cache_write_fails sample.svc
           sample.token sample.world sample.key
           (<["anthropic" := "sk-ant"]> (<["openai" := "sk-openai"]> ∅)));
    vm_compute; reflexivity.
Defined.

(** The relational store holds the key, live, and the cache read fails:
    [ValidateKey] answers with the cache error and has asked the cache
    only. *)
Lemma cache_failure_is_fatal :
  @live_key (sample.sha sample.token) (store.db sample.world) = Some sample.key /\
  models.RevokedAt sample.key = None /\
  @auth.ValidateKey sample.sha sample.aead sample.cache_read_fails sample.svc
    sample.token sample.world =
  (inr (wrapError "cache error"
          (wrapError "failed to get key config"
             (errorString "dial tcp: connection refused"))),
   {| store.db := sample.database; store.kv := ∅; store.calls := [store.CacheGet] |}).
Proof. split_and!; vm_compute; reflexivity. Qed.

(** The increment fails: [UpdateSpend] returns its error and the upsert
    of the daily rollup is never attempted. *)
Lemma increment_failure_skips_upsert :
  auth.UpdateSpend sample.increment_fails "key-1" 0x1.d7dbf487fcb93p-13 30 19000
    sample.world =
  (inr (wrapError "failed to update key spend" (errorString "pq: deadlock detected")),
   {| store.db := sample.database; store.kv := ∅;
      store.calls := [store.DbUpdateKeySpend] |}) /\
  store.attempted store.DbUpsertDailyStat
    (snd (auth.UpdateSpend sample.increment_fails "key-1" 0x1.d7dbf487fcb93p-13 30 19000
            sample.world)) = false.
Proof. split; vm_compute; reflexivity. Qed.

(** The key is validated (so its configuration is cached), then revoked,
    then validated again. *)
Lemma revoke_then_validate_witness :
  fst (@auth.ValidateKey sample.sha sample.aead store.no_faults sample.svc sample.token
         (snd (auth.RevokeKey store.no_faults "key-1" "user-1" 86400%Z sample.cached)))
  = inr ErrInvalidKey.
Proof.
  apply (@revoke_then_validate sample.sha sample.aead store.no_faults store.no_faults
           sample.svc "key-1" "user-1" sample.token 86400%Z sample.cached
           (snd (auth.RevokeKey store.no_faults "key-1" "user-1" 86400%Z sample.cached))
           sample.key);
    try (vm_compute; reflexivity).
  vm_compute. apply NoDup_singleton.
Defined.



(** A credential sealed under the sample master key. *)
Lemma Decrypt_Encrypt_witness :
  exists c,
    @auth.Encrypt sample.aead sample.svc sample.entropy "sk-openai" = inl c /\
    @auth.Decrypt sample.aead sample.svc c = inl "sk-openai" /\
    (forall short, length short < 12 ->
       @auth.Decrypt sample.aead sample.svc short =
         inr (errorString "ciphertext too short")) /\
    (forall i b, i < length c -> c !! i <> Some b ->
       @auth.Decrypt sample.aead sample.svc (<[i:=b]> c) =
         inr (errorString "cipher: message authentication failed")).
Proof.
  apply (@Decrypt_Encrypt sample.aead sample_aead_laws sample.masterKey sample.svc
           sample.entropy "sk-openai").
  - reflexivity.
  - vm_compute. lia.
Defined.

(** A queue filled to the brim drops the next entry. *)
Lemma Log_never_blocks_witness :
  logging.Log (submit logging.New (replicate 1000 sample.entry)) sample.entry =
  (submit logging.New (replicate 1000 sample.entry), logging.Dropped).
Proof.
  assert (logging.reachable (submit logging.New (replicate 1000 sample.entry))) as Hreach.
  { apply reachable_submit. constructor. }
  apply (Log_never_blocks _ sample.entry Hreach); vm_compute; reflexivity.
Defined.

(** Two thousand entries submitted in a row with no worker running: the
    queue stops at a thousand. *)
Lemma submit_two_thousand :
  length (logging.logChan (submit logging.New (replicate 2000 sample.entry))) = 1000.
Proof. vm_compute. reflexivity. Qed.

(** When the purge of the cache entry fails, [RevokeKey] still succeeds
    and the next [ValidateKey] is answered from the cache. *)
Lemma revoked_key_served_from_stale_cache :
  fst (auth.RevokeKey sample.cache_delete_fails "key-1" "user-1" 86400%Z sample.cached)
    = inl tt /\
  fst (@auth.ValidateKey sample.sha sample.aead store.no_faults sample.svc sample.token
         (snd (auth.RevokeKey sample.cache_delete_fails "key-1" "user-1" 86400%Z
                 sample.cached)))
    = inl sample.config.
Proof. split; vm_compute; reflexivity. Qed.

(** A patch that renames the sample key and says nothing of its cap. *)
Lemma UpdateKey_keeps_budget_witness :
  exists k',
    store.virtual_keys
      (store.db (snd (auth.UpdateKey store.no_faults "key-1" "user-1"
                        {| models.ur_Name := Some "nightly";
                           models.ur_AllowedModels := None;
                           models.ur_BudgetLimit := None |} sample.world))) !! 0
      = Some k' /\
    models.ID k' = "key-1" /\
    is_Some (models.BudgetLimit k') /\
    (@None float = None -> models.BudgetLimit k' = Some 1%float).
Proof.
  apply (UpdateKey_keeps_budget store.no_faults "key-1" "user-1"
           {| models.ur_Name := Some "nightly"; models.ur_AllowedModels := None;
              models.ur_BudgetLimit := None |} sample.world 0 sample.key).
  - reflexivity.
  - simpl. eauto.
Defined.

(* ===================================================================== *)
(** * Further properties of the code *)
(* ===================================================================== *)

(** Beyond the claims: the account administration of the key service,
    the responses of the proxy, the key handlers of the dashboard, the
    configuration, the migrations and the rate-limit counter. *)

Section token_facts.
Import auth.

Lemma digit_hex (n : nat) : is_hex_digit (hex.digit n) = true.
Proof.
  do 16 (destruct n as [|n]; [reflexivity |]). reflexivity.
Qed.

Lemma digit_inj (n m : nat) : n < 16 -> m < 16 -> hex.digit n = hex.digit m -> n = m.
Proof.
  intros Hn Hm.
  do 16 (destruct n as [|n]; [do 16 (destruct m as [|m]; [by vm_compute|]); lia |]).
  lia.
Qed.

Lemma to_nat_bound (b : byte) : Byte.to_nat b < 256.
Proof. pose proof (Byte.to_nat_bounded b). lia. Qed.

Lemma EncodeToString_length (src : list byte) :
  String.length (hex.EncodeToString src) = 2 * length src.
Proof. induction src as [|b src IH]; simpl; lia. Qed.

Lemma EncodeToString_hex (src : list byte) :
  forallb is_hex_digit (list_ascii_of_string (hex.EncodeToString src)) = true.
Proof.
  induction src as [|b src IH]; [reflexivity |].
  cbn [hex.EncodeToString list_ascii_of_string forallb].
  by rewrite !digit_hex, IH.
Qed.

Lemma EncodeToString_inj (a b : list byte) :
  hex.EncodeToString a = hex.EncodeToString b -> a = b.
Proof.
  revert b. induction a as [|x a IH]; intros [|y b]; cbn [hex.EncodeToString]; try done.
  intros Heq.
  assert (hex.digit (Byte.to_nat x / 16) = hex.digit (Byte.to_nat y / 16)) as Hhi
    by congruence.
  assert (hex.digit (Byte.to_nat x mod 16) = hex.digit (Byte.to_nat y mod 16)) as Hlo
    by congruence.
  assert (hex.EncodeToString a = hex.EncodeToString b) as Hrest by congruence.
  pose proof (to_nat_bound x). pose proof (to_nat_bound y).
  apply digit_inj in Hhi; [| apply Nat.Div0.div_lt_upper_bound; lia ..].
  apply digit_inj in Hlo; [| apply Nat.mod_upper_bound; lia ..].
  f_equal; [| by apply IH].
  assert (Byte.to_nat x = Byte.to_nat y) as Hxy; [|
    pose proof (Byte.of_to_nat x) as Hx; pose proof (Byte.of_to_nat y) as Hy;
    congruence ].
  rewrite (Nat.div_mod_eq (Byte.to_nat x) 16), (Nat.div_mod_eq (Byte.to_nat y) 16).
  congruence.
Qed.

Lemma append_inv_l (p a b : string) : p +:+ a = p +:+ b -> a = b.
Proof.
  induction p as [|c p IH]; [by rewrite !append_nil_l |].
  rewrite !append_cons. intros [= Heq]. by apply IH.
Qed.

Lemma GenerateVirtualKey_bytes (random : list byte) :
  length (take 32 (random ++ replicate 32 "000"%byte)) = 32.
Proof. rewrite length_take, length_app, length_replicate. lia. Qed.

Lemma GenerateVirtualKey_prefix (random : list byte) :
  strings.HasPrefix (GenerateVirtualKey random) virtualKeyPrefix = true.
Proof. apply HasPrefix_iff. unfold GenerateVirtualKey. eauto. Qed.

(** X1: a virtual key that [GenerateVirtualKey] makes is the prefix
    [lum_] followed by 64 lower-case hexadecimal digits, so it passes the
    prefix test of [ValidateKey]; when the source of randomness gives 32
    bytes, the digits are the hex encoding of those bytes. *)
Theorem GenerateVirtualKey_format (random : list byte) :
  exists digits,
    GenerateVirtualKey random = "lum_" +:+ digits /\
    String.length digits = 64 /\
    forallb is_hex_digit (list_ascii_of_string digits) = true /\
    strings.HasPrefix (GenerateVirtualKey random) virtualKeyPrefix = true /\
    (32 <= length random -> digits = hex.EncodeToString (take 32 random)).
Proof.
  unfold GenerateVirtualKey. eexists. split; [reflexivity |].
  split; [by rewrite EncodeToString_length, GenerateVirtualKey_bytes |].
  split; [apply EncodeToString_hex |].
  split; [apply GenerateVirtualKey_prefix |].
  intros Hlen. by rewrite take_app_le.
Qed.

(** X2: two different draws of 32 random bytes give two different
    virtual keys. *)
Theorem GenerateVirtualKey_distinct (r1 r2 : list byte) :
  length r1 = 32 -> length r2 = 32 -> r1 <> r2 ->
  GenerateVirtualKey r1 <> GenerateVirtualKey r2.
Proof.
  intros H1 H2 Hne. unfold GenerateVirtualKey.
  rewrite !take_app_le, !firstn_all2 by lia.
  intros Heq%append_inv_l. by apply Hne, EncodeToString_inj.
Qed.

End token_facts.

Ltac run_admin :=
  unfold auth.CreateKey, auth.SetUserProvider, auth.RemoveUserProvider,
    auth.invalidateUserKeyCache, auth.ListKeys, auth.GetKey,
    database.CreateVirtualKey, database.ListVirtualKeysByUser,
    database.SetUserProvider, database.RemoveUserProvider, store.admin_call;
  run.

Section admin_facts.
Context `{Sha256} `{AEAD}.
Import models store database auth.

(** [ValidateKey] on a token the cache does not hold, with the stores
    answering: the configuration comes from the live row of the hash and
    the credentials of its owner. *)
Lemma ValidateKey_store (f : faults) (s : KeyService) (virtualKey : string)
    (w : World) (key : VirtualKey) :
  strings.HasPrefix virtualKey virtualKeyPrefix = true ->
  f CacheGet = None ->
  kv w !! (cache.keyConfigPrefix +:+ HashKey virtualKey) = None ->
  f DbGetVirtualKeyByHash = None ->
  live_key (HashKey virtualKey) (db w) = Some key ->
  f DbGetUserProviders = None ->
  match decryptProviders s
          (List.filter (fun p => String.eqb (up_UserID p) (UserID key))
             (user_providers (db w))) ∅ with
  | inl providers =>
      fst (ValidateKey f s virtualKey w) = inl (config_of key providers) /\
      db (snd (ValidateKey f s virtualKey w)) = db w
  | inr e =>
      fst (ValidateKey f s virtualKey w) = inr e /\
      db (snd (ValidateKey f s virtualKey w)) = db w /\
      kv (snd (ValidateKey f s virtualKey w)) = kv w
  end.
Proof.
  intros Hprefix Hget Hmiss Hdb Hkey Hup. unfold live_key in Hkey.
  run. rewrite Hprefix. simpl. rewrite Hget. simpl.
  rewrite Hmiss, Hdb. simpl. rewrite Hkey. simpl.
  apply find_some in Hkey as [_ [_ Hlive]%andb_true_iff]. rewrite Hlive. simpl.
  rewrite Hup. destruct (decryptProviders _ _ _) as [providers|e]; [| done].
  fold (config_of key providers).
  destruct (cache.marshal_fails _); [done |]. by destruct (f CacheSet).
Qed.

Lemma CreateVirtualKey_ok (f : admin_faults) (key : VirtualKey) (w w' : World) :
  CreateVirtualKey f key w = (inl tt, w') ->
  (forall k, k ∈ virtual_keys (db w) -> ID k <> ID key /\ KeyHash k <> KeyHash key) /\
  w' = with_db w {| virtual_keys := virtual_keys (db w) ++ [key];
                    user_providers := user_providers (db w);
                    daily_stats := daily_stats (db w) |}.
Proof.
  run_admin. destruct (f DbCreateVirtualKey); [done |].
  destruct (existsb _ _) eqn:Hex; [done |].
  intros [= <-]. split; [| done].
  intros k Hk.
  assert (String.eqb (ID k) (ID key) || String.eqb (KeyHash k) (KeyHash key) = false)
    as [Hid Hhash]%orb_false_iff.
  { destruct (_ || _) eqn:Hor; [| done].
    rewrite <- Hex. symmetry. apply existsb_exists. exists k.
    split; [by apply list_elem_of_In | done]. }
  by apply String.eqb_neq in Hid, Hhash.
Qed.



Lemma NoDup_fmap_filter {A B} (g : A -> B) (P : A -> bool) (l : list A) :
  NoDup (g <$> l) -> NoDup (g <$> List.filter P l).
Proof.
  induction l as [|a l IH]; simpl; [done |].
  intros [Hnotin Hnodup]%NoDup_cons. destruct (P a); simpl; [| by apply IH].
  apply NoDup_cons. split; [| by apply IH].
  intros (x & Heq & Hin)%list_elem_of_fmap. apply Hnotin.
  apply list_elem_of_fmap. exists x. split; [done |].
  apply list_elem_of_In. apply list_elem_of_In in Hin.
  by apply filter_In in Hin as [? _].
Qed.

Lemma NoDup_fmap_snoc {A B} (g : A -> B) (l : list A) (a : A) :
  NoDup (g <$> l) -> (forall x, x ∈ l -> g x <> g a) -> NoDup (g <$> l ++ [a]).
Proof.
  intros Hnodup Hfresh. rewrite fmap_app. apply NoDup_app.
  split; [done |]. split; [| apply NoDup_singleton].
  intros b (x & -> & Hx)%list_elem_of_fmap [Heq|[]%elem_of_nil]%elem_of_cons.
  by apply (Hfresh x).
Qed.

Lemma fmap_map_if {A B} (g : A -> B) (P : A -> bool) (h : A -> A) (l : list A) :
  (forall a, g (h a) = g a) ->
  g <$> List.map (fun a => if P a then h a else a) l = g <$> l.
Proof.
  intros Hh. induction l as [|a l IH]; [done |].
  cbn [List.map]. rewrite !fmap_cons, IH. f_equal. by destruct (P a).
Qed.

Lemma existsb_false_elem {A} (P : A -> bool) (l : list A) (x : A) :
  existsb P l = false -> x ∈ l -> P x = false.
Proof.
  intros Hex Hx. destruct (P x) eqn:HP; [| done].
  rewrite <- Hex. symmetry. apply existsb_exists. exists x.
  split; [by apply list_elem_of_In | done].
Qed.

Lemma update_keys_consistent (g : VirtualKey -> VirtualKey) (id : string) (d : DB) :
  (forall k, ID (g k) = ID k) -> (forall k, KeyHash (g k) = KeyHash k) ->
  consistent d -> consistent (update_keys g id d).
Proof.
  intros Hid Hhash (? & ? & ? & ?). unfold consistent, update_keys. simpl.
  by rewrite !fmap_map_if.
Qed.

Lemma upsert_provider_NoDup (userID provider : string) (c : list byte)
    (rows : list UserProvider) :
  NoDup ((fun p => (up_UserID p, up_Provider p)) <$> rows) ->
  NoDup ((fun p => (up_UserID p, up_Provider p)) <$>
           upsert_provider userID provider c rows).
Proof.
  intros Hnodup. unfold upsert_provider.
  destruct (existsb _ _) eqn:Hex.
  - by rewrite (fmap_map_if (fun p => (up_UserID p, up_Provider p))).
  - apply NoDup_fmap_snoc; [done |]. intros p Hp. simpl. intros [= Hu Hpr].
    apply (existsb_false_elem _ _ p) in Hex; [| done].
    unfold same_provider in Hex. by rewrite Hu, Hpr, !String.eqb_refl in Hex.
Qed.

Lemma upsert_stat_NoDup (keyID : string) (today tokens : Z) (cost : float)
    (rows : list DailyStat) :
  NoDup ((fun r => (ds_KeyID r, ds_Date r)) <$> rows) ->
  NoDup ((fun r => (ds_KeyID r, ds_Date r)) <$>
           upsert_stat keyID today tokens cost rows).
Proof.
  intros Hnodup. unfold upsert_stat.
  destruct (existsb _ _) eqn:Hex.
  - by rewrite (fmap_map_if (fun r => (ds_KeyID r, ds_Date r))).
  - apply NoDup_fmap_snoc; [done |]. intros r Hr. simpl. intros [= Hk Hd].
    apply (existsb_false_elem _ _ r) in Hex; [| done].
    unfold same_day in Hex. by rewrite Hk, Hd, String.eqb_refl, Z.eqb_refl in Hex.
Qed.

(** [ValidateKey] reads the durable store and never writes it. *)
Lemma ValidateKey_db (f : faults) (s : KeyService) (virtualKey : string) (w : World) :
  db (snd (ValidateKey f s virtualKey w)) = db w.
Proof.
  run. destruct (strings.HasPrefix virtualKey virtualKeyPrefix); simpl; [| done].
  destruct (f CacheGet); [done |]. simpl.
  destruct (kv w !! _); [done |].
  destruct (f DbGetVirtualKeyByHash); [done |]. simpl.
  destruct (List.find _ _) as [key|]; [| done].
  destruct (is_null (RevokedAt key)); simpl; [| done].
  destruct (f DbGetUserProviders); [done |]. simpl.
  destruct (decryptProviders _ _ _) as [providers|e]; [| done].
  destruct (cache.marshal_fails _); [done |]. by destruct (f CacheSet).
Qed.

(** The purge loop answers [nil] and leaves the durable store alone. *)
Lemma invalidateKeys_result (fdel : string -> option error) (keys : list VirtualKey)
    (w : World) :
  fst (invalidateKeys fdel keys w) = inl tt /\
  db (snd (invalidateKeys fdel keys w)) = db w.
Proof.
  revert w. induction keys as [|k keys IH]; intros w; [done |].
  cbn [invalidateKeys]. run.
  destruct (fdel (KeyHash k));
    match goal with |- context [invalidateKeys fdel keys ?w1] =>
      destruct (IH w1) as [-> ->] end; done.
Qed.

Lemma invalidateUserKeyCache_db (f : admin_faults) (fdel : string -> option error)
    (userID : string) (w : World) :
  db (snd (invalidateUserKeyCache f fdel userID w)) = db w.
Proof.
  run_admin. destruct (f DbListVirtualKeysByUser); [done |].
  apply invalidateKeys_result.
Qed.

Lemma serve_consistent (w : World) (r : request) :
  consistent (db w) -> consistent (db (serve w r)).
Proof.
  intros Hw. destruct r; cbn [serve].
  - unfold CreateKey, mbind, M_bind, mret, M_ret.
    match goal with |- context [CreateVirtualKey ?f ?k w] =>
      destruct (CreateVirtualKey f k w) as [[[]|e] w1] eqn:Hins end.
    + apply CreateVirtualKey_ok in Hins as [Hfresh ->]. simpl.
      destruct Hw as (Hid & Hhash & ? & ?). unfold consistent. simpl.
      split_and!; [| | done ..]; apply NoDup_fmap_snoc; try done;
        intros k Hk; by apply Hfresh.
    + revert Hins. run_admin. destruct (f DbCreateVirtualKey); [by intros [= _ <-] |].
      destruct (existsb _ _); by intros [= _ <-].
  - by rewrite ValidateKey_db.
  - run. destruct (f DbUpdateKeySpend); [done |].
    destruct (f DbUpsertDailyStat); simpl.
    + by apply update_keys_consistent.
    + apply (update_keys_consistent (add_spend cost) keyID) in Hw; [| done ..].
      destruct Hw as (? & ? & ? & ?). unfold consistent. simpl.
      split_and!; try done. by apply upsert_stat_NoDup.
  - run. destruct (f DbGetVirtualKeyByID); [done |].
    destruct (List.find _ _) as [k|]; [| done].
    destruct (negb _); [done |]. simpl.
    destruct (f DbRevokeVirtualKey); [done |].
    destruct (f CacheDel); simpl; by apply update_keys_consistent.
  - run. destruct (f DbGetVirtualKeyByID); [done |].
    destruct (List.find _ _) as [k|]; [| done].
    destruct (negb _); [done |]. simpl.
    destruct (_ && _); simpl.
    + by destruct (f CacheDel).
    + destruct (f DbUpdateVirtualKey); [done |].
      destruct (f CacheDel); simpl; by apply update_keys_consistent.
  - unfold SetUserProvider. destruct (Encrypt s entropy apiKey) as [c|e]; [| done].
    unfold mbind, M_bind, mret, M_ret, try.
    destruct (database.SetUserProvider f userID provider c w) as [[[]|e] w1] eqn:Hset.
    + assert (db w1 = {| virtual_keys := virtual_keys (db w);
                         user_providers :=
                           upsert_provider userID provider c (user_providers (db w));
                         daily_stats := daily_stats (db w) |}) as Hdb.
      { revert Hset. run_admin. destruct (f DbSetUserProvider); [done |].
        by intros [= <-]. }
      pose proof (invalidateUserKeyCache_db f fdel userID w1) as Hinv.
      destruct (invalidateUserKeyCache f fdel userID w1) as [[[]|e] w2];
        simpl in *; rewrite Hinv, Hdb; destruct Hw as (? & ? & ? & ?);
        (split_and!; try done; by apply upsert_provider_NoDup).
    + revert Hset. run_admin. by destruct (f DbSetUserProvider); intros [= _ <-].
  - unfold RemoveUserProvider. unfold mbind, M_bind, mret, M_ret, try.
    destruct (database.RemoveUserProvider f userID provider w) as [[[]|e] w1] eqn:Hrm.
    + assert (db w1 = {| virtual_keys := virtual_keys (db w);
                         user_providers :=
                           List.filter (fun p => negb (same_provider userID provider p))
                             (user_providers (db w));
                         daily_stats := daily_stats (db w) |}) as Hdb.
      { revert Hrm. run_admin. destruct (f DbRemoveUserProvider); [done |].
        by intros [= <-]. }
      pose proof (invalidateUserKeyCache_db f fdel userID w1) as Hinv.
      destruct (invalidateUserKeyCache f fdel userID w1) as [[[]|e] w2];
        simpl in *; rewrite Hinv, Hdb; destruct Hw as (? & ? & ? & ?);
        (split_and!; try done; by apply NoDup_fmap_filter).
    + revert Hrm. run_admin. by destruct (f DbRemoveUserProvider); intros [= _ <-].
Qed.

(** X4: whatever the key service is asked, in any order and with any
    call failing, the rows stay unique (the store refusing an insert that
    repeats an id or a hash): no two keys share an id or a hash, no two
    credentials a user and a provider, no two daily statistics a key and
    a day. *)
Theorem service_keeps_rows_unique (w : World) (requests : list request) :
  consistent (db w) -> consistent (db (foldl serve w requests)).
Proof.
  revert w. induction requests as [|r requests IH]; intros w Hw; [done |].
  simpl. apply IH. by apply serve_consistent.
Qed.

Lemma find_foreign (keyID userID : string) (rows : list VirtualKey) :
  (forall k, k ∈ rows -> ID k = keyID -> UserID k <> userID) ->
  match List.find (fun k => String.eqb (ID k) keyID) rows with
  | Some k => String.eqb (UserID k) userID = false
  | None => True
  end.
Proof.
  intros Hforeign. destruct (List.find _ _) as [k|] eqn:Hfind; [| done].
  apply find_some in Hfind as [Hin Hid%String.eqb_eq].
  apply String.eqb_neq. apply Hforeign; [by apply list_elem_of_In | done].
Qed.

(** X5: a user cannot touch a key of somebody else.  When no row with
    the id belongs to the caller, [RevokeKey], [UpdateKey] and [GetKey]
    all end in an error, the first two leave the key rows and the cache
    as they were, and with the lookup answered the error is "key not
    found" or "unauthorized". *)
Theorem foreign_key_is_untouched (f : faults) (keyID userID : string) (now : Time)
    (req : UpdateKeyRequest) (w : World) :
  (forall k, k ∈ virtual_keys (db w) -> ID k = keyID -> UserID k <> userID) ->
  (exists e w', RevokeKey f keyID userID now w = (inr e, w') /\
     db w' = db w /\ kv w' = kv w) /\
  (exists e w', UpdateKey f keyID userID req w = (inr e, w') /\
     db w' = db w /\ kv w' = kv w) /\
  (exists e w', GetKey f keyID userID w = (inr e, w')) /\
  (f DbGetVirtualKeyByID = None ->
   forall e,
     (fst (RevokeKey f keyID userID now w) = inr e \/
      fst (UpdateKey f keyID userID req w) = inr e \/
      fst (GetKey f keyID userID w) = inr e) ->
     e = errorString "key not found" \/ e = errorString "unauthorized").
Proof.
  intros Hforeign%find_foreign.
  split_and!.
  - run. destruct (f DbGetVirtualKeyByID); [by eauto |].
    destruct (List.find _ _) as [k|]; [rewrite Hforeign |]; simpl; by eauto.
  - run. destruct (f DbGetVirtualKeyByID); [by eauto |].
    destruct (List.find _ _) as [k|]; [rewrite Hforeign |]; simpl; by eauto.
  - run_admin. destruct (f DbGetVirtualKeyByID); [by eauto |].
    destruct (List.find _ _) as [k|]; [rewrite Hforeign |]; simpl; by eauto.
  - intros Hdb e. run_admin. rewrite Hdb. simpl.
    destruct (List.find _ _) as [k|]; [rewrite Hforeign |]; simpl;
      intros [[= <-]|[[= <-]|[= <-]]]; eauto.
Qed.

#[local] Instance created_desc_total : Total created_desc.
Proof. intros a b. unfold created_desc. lia. Qed.

#[local] Instance created_desc_trans : Transitive created_desc.
Proof. intros a b c. unfold created_desc. lia. Qed.

(** X6: [ListKeys] returns the keys of the user and no other: each row
    of the user once, the revoked ones included, the newest first; a
    failing query is returned wrapped and the world stays as it was. *)
Theorem ListKeys_spec (f : admin_faults) (userID : string) (w : World) :
  match f DbListVirtualKeysByUser with
  | Some e =>
      ListKeys f userID w = (inr (wrapError "failed to list virtual keys" e), w)
  | None =>
      exists keys,
        ListKeys f userID w = (inl keys, w) /\
        keys ≡ₚ List.filter (fun k => String.eqb (UserID k) userID)
                  (virtual_keys (db w)) /\
        (forall k, k ∈ keys <-> k ∈ virtual_keys (db w) /\ UserID k = userID) /\
        StronglySorted (fun a b => (CreatedAt b <= CreatedAt a)%Z) keys
  end.
Proof.
  run_admin. destruct (f DbListVirtualKeysByUser); [done |].
  eexists. split; [reflexivity |].
  split; [apply merge_sort_Permutation |].
  split.
  - intros k. rewrite merge_sort_Permutation, !list_elem_of_In, filter_In.
    by rewrite String.eqb_eq.
  - apply (StronglySorted_merge_sort created_desc).
Qed.

Lemma decryptProviders_fails (s : KeyService) (rows : list UserProvider)
    (providers : gmap string string) (p : UserProvider) (e : error) :
  p ∈ rows -> Decrypt s (up_APIKeyEncrypted p) = inr e ->
  exists e', decryptProviders s rows providers = inr (wrapError "decryption error" e').
Proof.
  revert providers. induction rows as [|q rows IH]; intros providers Hin Hdec.
  - by apply elem_of_nil in Hin.
  - simpl. destruct (Decrypt s (up_APIKeyEncrypted q)) as [x|e0] eqn:Hq; [| by eauto].
    apply elem_of_cons in Hin as [->|Hin]; [congruence |]. by apply IH.
Qed.

End admin_facts.

Section provider_facts.
Context `{Sha256} `{AEAD} `{!AEADLaws}.
Import models store database auth.

(** X10: the footprint of [ValidateKey].  It never changes the
    durable store; in the cache it changes at most the entry of the
    token's own hash, and only by storing the configuration it returns;
    a token without the prefix is refused as invalid without a single
    call to a store. *)
Theorem ValidateKey_footprint (f : faults) (s : KeyService) (virtualKey : string)
    (w : World) :
  let own := cache.keyConfigPrefix +:+ HashKey virtualKey in
  let '(r, w') := ValidateKey f s virtualKey w in
  db w' = db w /\
  (kv w' = kv w \/ exists config, r = inl config /\ kv w' = <[own := config]> (kv w)) /\
  (forall c, c <> own -> kv w' !! c = kv w !! c) /\
  (strings.HasPrefix virtualKey virtualKeyPrefix = false ->
   r = inr ErrInvalidKey /\ w' = w).
Proof.
  intros own.
  run. destruct (strings.HasPrefix virtualKey virtualKeyPrefix) eqn:Hprefix; simpl;
    [| split_and!; auto].
  destruct (f CacheGet); simpl; [split_and!; auto; done |].
  destruct (kv w !! _); [split_and!; auto; done |].
  destruct (f DbGetVirtualKeyByHash); simpl; [split_and!; auto; done |].
  destruct (List.find _ _) as [key|]; [| split_and!; auto; done].
  destruct (is_null (RevokedAt key)); simpl; [| split_and!; auto; done].
  destruct (f DbGetUserProviders); simpl; [split_and!; auto; done |].
  destruct (decryptProviders _ _ _) as [providers|e]; [| split_and!; auto; done].
  destruct (cache.marshal_fails _); [split_and!; auto; done |].
  destruct (f CacheSet); simpl; [split_and!; auto; done |].
  split_and!; [done | right; by eexists | | done].
  intros c Hc. by rewrite lookup_insert_ne.
Qed.

Lemma Decrypt_Encrypt_ok (s : KeyService) (entropy : list byte) (plaintext : string)
    (c : list byte) :
  Encrypt s entropy plaintext = inl c -> Decrypt s c = inl plaintext.
Proof.
  intros (Haes & nonce & Hlen & ->)%Encrypt_layout.
  rewrite Decrypt_layout, Open_Seal by done.
  by rewrite string_of_list_byte_of_string.
Qed.

Lemma decryptProviders_succeeds (s : KeyService) (rows : list UserProvider)
    (providers : gmap string string) :
  (forall p, p ∈ rows -> exists x, Decrypt s (up_APIKeyEncrypted p) = inl x) ->
  exists m, decryptProviders s rows providers = inl m.
Proof.
  revert providers. induction rows as [|p rows IH]; intros providers Hall; simpl;
    [by eauto |].
  destruct (Hall p) as [x ->]; [left |]. apply IH. intros q Hq. apply Hall. by right.
Qed.

Lemma decryptProviders_absent (s : KeyService) (rows : list UserProvider)
    (providers m : gmap string string) (provider : string) :
  decryptProviders s rows providers = inl m ->
  (forall p, p ∈ rows -> up_Provider p <> provider) ->
  m !! provider = providers !! provider.
Proof.
  revert providers. induction rows as [|p rows IH]; intros providers; simpl.
  - by intros [= ->].
  - destruct (Decrypt s (up_APIKeyEncrypted p)) as [x|]; [| done].
    intros Hdec Hall. rewrite (IH _ Hdec).
    + apply lookup_insert_ne. apply Hall. left.
    + intros q Hq. apply Hall. by right.
Qed.

Lemma decryptProviders_present (s : KeyService) (rows : list UserProvider)
    (providers m : gmap string string) (provider x : string) :
  decryptProviders s rows providers = inl m ->
  (forall p, p ∈ rows -> up_Provider p = provider ->
     Decrypt s (up_APIKeyEncrypted p) = inl x) ->
  (exists p, p ∈ rows /\ up_Provider p = provider) \/ providers !! provider = Some x ->
  m !! provider = Some x.
Proof.
  revert providers. induction rows as [|p rows IH]; intros providers; simpl.
  - intros [= ->] _ [(p & []%elem_of_nil & _)|Hacc]. done.
  - destruct (Decrypt s (up_APIKeyEncrypted p)) as [y|] eqn:Hp; [| done].
    intros Hdec Hall Hsome. apply (IH _ Hdec).
    + intros q Hq. apply Hall. by right.
    + destruct (decide (up_Provider p = provider)) as [Heq|Hne].
      * right. rewrite Heq. rewrite (Hall p) in Hp by (done || left).
        injection Hp as ->. apply lookup_insert_eq.
      * destruct Hsome as [(q & [->|Hq]%elem_of_cons & Hprov)|Hacc]; [done | |].
        -- left. eauto.
        -- right. by rewrite lookup_insert_ne.
Qed.

(** What a returned configuration is: the cached entry of the token, or
    the live row of its hash with the decrypted credentials of the
    owner. *)
Lemma ValidateKey_inl (f : faults) (s : KeyService) (virtualKey : string)
    (w w' : World) (config : KeyConfig) :
  ValidateKey f s virtualKey w = (inl config, w') ->
  strings.HasPrefix virtualKey virtualKeyPrefix = true /\
  (kv w !! (cache.keyConfigPrefix +:+ HashKey virtualKey) = Some config \/
   kv w !! (cache.keyConfigPrefix +:+ HashKey virtualKey) = None /\
   exists key providers,
     live_key (HashKey virtualKey) (db w) = Some key /\
     decryptProviders s (providers_of (UserID key) (db w)) ∅ = inl providers /\
     config = config_of key providers).
Proof.
  unfold live_key, providers_of.
  run. destruct (strings.HasPrefix virtualKey virtualKeyPrefix); simpl; [| done].
  destruct (f CacheGet); [done |]. simpl.
  destruct (kv w !! _) as [c|]; [intros [= <- _]; by auto |].
  destruct (f DbGetVirtualKeyByHash); [done |]. simpl.
  destruct (List.find _ _) as [key|]; [| done].
  destruct (is_null (RevokedAt key)); simpl; [| done].
  destruct (f DbGetUserProviders); [done |]. simpl.
  destruct (decryptProviders _ _ _) as [providers|e] eqn:Hdec; [| done].
  destruct (cache.marshal_fails _); [| destruct (f CacheSet)]; intros [= <- _];
    (split; [done |]; right; split; [done |]; by exists key, providers).
Qed.

(** [ValidateKey] looks at the cache entry of the token, at the key
    rows, and at the credentials of the owner of the live row. *)
Lemma ValidateKey_ext (f : faults) (s : KeyService) (virtualKey : string)
    (w1 w2 : World) :
  kv w1 !! (cache.keyConfigPrefix +:+ HashKey virtualKey) =
    kv w2 !! (cache.keyConfigPrefix +:+ HashKey virtualKey) ->
  virtual_keys (db w1) = virtual_keys (db w2) ->
  (forall key, live_key (HashKey virtualKey) (db w1) = Some key ->
     providers_of (UserID key) (db w1) = providers_of (UserID key) (db w2)) ->
  fst (ValidateKey f s virtualKey w1) = fst (ValidateKey f s virtualKey w2).
Proof.
  unfold live_key, providers_of. intros Hkv Hkeys Hprov.
  run. destruct (strings.HasPrefix virtualKey virtualKeyPrefix); simpl; [| done].
  destruct (f CacheGet); [done |]. simpl. rewrite <- Hkv.
  destruct (kv w1 !! _) as [c|]; [done |].
  destruct (f DbGetVirtualKeyByHash); [done |]. simpl. rewrite <- Hkeys.
  destruct (List.find _ _) as [key|]; [| done].
  specialize (Hprov key eq_refl).
  destruct (is_null (RevokedAt key)); simpl; [| done].
  destruct (f DbGetUserProviders); [done |]. simpl. rewrite <- Hprov.
  destruct (decryptProviders _ _ _) as [providers|e]; [| done].
  destruct (cache.marshal_fails _); [done |]. by destruct (f CacheSet).
Qed.

(** The purge loop never fills the cache, keeps the entries of the keys
    it is not given, and empties the entry of a key whose delete goes
    through. *)
Lemma invalidateKeys_none (fdel : string -> option error) (keys : list VirtualKey)
    (w : World) (c : string) :
  kv w !! c = None -> kv (snd (invalidateKeys fdel keys w)) !! c = None.
Proof.
  revert w. induction keys as [|k keys IH]; intros w Hc; [done |].
  cbn [invalidateKeys]. run. destruct (fdel (KeyHash k)); apply IH; simpl; [done |].
  destruct (decide (cache.keyConfigPrefix +:+ KeyHash k = c)) as [->|Hne].
  - apply lookup_delete_eq.
  - by rewrite lookup_delete_ne.
Qed.

Lemma invalidateKeys_other (fdel : string -> option error) (keys : list VirtualKey)
    (w : World) (c : string) :
  (forall k, k ∈ keys -> c <> cache_key k) ->
  kv (snd (invalidateKeys fdel keys w)) !! c = kv w !! c.
Proof.
  revert w. induction keys as [|k keys IH]; intros w Hc; [done |].
  cbn [invalidateKeys]. run.
  assert (forall k0, k0 ∈ keys -> c <> cache_key k0) as Hrest
    by (intros k0 Hk0; apply Hc; by right).
  destruct (fdel (KeyHash k)); rewrite (IH _ Hrest); simpl; [done |].
  apply lookup_delete_ne. intros Heq. by apply (Hc k); [left |].
Qed.

Lemma invalidateKeys_purged (fdel : string -> option error) (keys : list VirtualKey)
    (w : World) (k : VirtualKey) :
  k ∈ keys -> fdel (KeyHash k) = None ->
  kv (snd (invalidateKeys fdel keys w)) !! cache_key k = None.
Proof.
  revert w. induction keys as [|k0 keys IH]; intros w Hin Hdel.
  - by apply elem_of_nil in Hin.
  - cbn [invalidateKeys]. run.
    apply elem_of_cons in Hin as [<-|Hin].
    + rewrite Hdel. apply invalidateKeys_none. simpl. apply lookup_delete_eq.
    + destruct (fdel (KeyHash k0)); by apply IH.
Qed.

(** [invalidateUserKeyCache], whatever fails: the durable store and the
    cache entries of other users' keys stay; with the listing answered,
    the entry of each key of the user whose delete goes through is gone. *)
Lemma invalidateUserKeyCache_kv (f : admin_faults) (fdel : string -> option error)
    (userID : string) (w : World) :
  let w' := snd (invalidateUserKeyCache f fdel userID w) in
  (forall c, (forall k, k ∈ virtual_keys (db w) -> UserID k = userID -> c <> cache_key k) ->
     kv w' !! c = kv w !! c) /\
  (f DbListVirtualKeysByUser = None ->
   forall k, k ∈ virtual_keys (db w) -> UserID k = userID -> fdel (KeyHash k) = None ->
     kv w' !! cache_key k = None).
Proof.
  run_admin. destruct (f DbListVirtualKeysByUser); [done |].
  split.
  - intros c Hc. apply invalidateKeys_other. intros k.
    rewrite merge_sort_Permutation, list_elem_of_In, filter_In, String.eqb_eq.
    intros [Hin Huser]. apply Hc; [by apply list_elem_of_In | done].
  - intros _ k Hin Huser Hdel. apply invalidateKeys_purged; [| done].
    rewrite merge_sort_Permutation, list_elem_of_In, filter_In, String.eqb_eq.
    split; [by apply list_elem_of_In | done].
Qed.

Lemma SetUserProvider_world (s : KeyService) (entropy : list byte) (f : admin_faults)
    (fdel : string -> option error) (userID provider apiKey : string) (w : World) :
  let r := SetUserProvider s entropy f fdel userID provider apiKey w in
  (exists e, fst r = inr e /\ snd r = w) \/
  exists c,
    Encrypt s entropy apiKey = inl c /\
    fst r = inl tt /\
    snd r =
      snd (invalidateUserKeyCache f fdel userID
             (with_db w
                {| virtual_keys := virtual_keys (db w);
                   user_providers :=
                     upsert_provider userID provider c (user_providers (db w));
                   daily_stats := daily_stats (db w) |})).
Proof.
  unfold SetUserProvider. destruct (Encrypt s entropy apiKey) as [c|e]; [| left; by eexists].
  unfold database.SetUserProvider, admin_call, wrapping, mbind, M_bind, mret, M_ret, try.
  destruct (f DbSetUserProvider); [left; by eexists |].
  right. exists c. split; [done |].
  by destruct (invalidateUserKeyCache _ _ _ _) as [[[]|e] w2].
Qed.

Lemma RemoveUserProvider_world (f : admin_faults) (fdel : string -> option error)
    (userID provider : string) (w : World) :
  let r := RemoveUserProvider f fdel userID provider w in
  (exists e, fst r = inr e /\ snd r = w) \/
  fst r = inl tt /\
  snd r =
    snd (invalidateUserKeyCache f fdel userID
           (with_db w
              {| virtual_keys := virtual_keys (db w);
                 user_providers :=
                   List.filter (fun p => negb (same_provider userID provider p))
                     (user_providers (db w));
                 daily_stats := daily_stats (db w) |})).
Proof.
  unfold RemoveUserProvider.
  unfold database.RemoveUserProvider, admin_call, wrapping, mbind, M_bind, mret, M_ret, try.
  destruct (f DbRemoveUserProvider); [left; by eexists |].
  right. by destruct (invalidateUserKeyCache _ _ _ _) as [[[]|e] w2].
Qed.

Lemma upsert_provider_elem (userID provider : string) (c : list byte)
    (rows : list UserProvider) (p : UserProvider) :
  p ∈ upsert_provider userID provider c rows ->
  (up_UserID p = userID /\ up_Provider p = provider /\ up_APIKeyEncrypted p = c) \/
  (p ∈ rows /\ same_provider userID provider p = false).
Proof.
  unfold upsert_provider. destruct (existsb _ _) eqn:Hex.
  - rewrite list_elem_of_In, in_map_iff. intros (q & <- & Hq%list_elem_of_In).
    destruct (same_provider userID provider q) eqn:Hsame; [| by right].
    left. apply andb_true_iff in Hsame as [Hu%String.eqb_eq Hp%String.eqb_eq]. done.
  - intros [Hp|Hp%list_elem_of_singleton]%elem_of_app.
    + right. split; [done |]. by apply (existsb_false_elem _ _ p) in Hex.
    + left. by subst p.
Qed.

Lemma upsert_provider_has (userID provider : string) (c : list byte)
    (rows : list UserProvider) :
  exists p, p ∈ upsert_provider userID provider c rows /\
    up_UserID p = userID /\ up_Provider p = provider.
Proof.
  unfold upsert_provider. destruct (existsb _ _) eqn:Hex.
  - apply existsb_exists in Hex as (q & Hq & Hsame).
    exists {| up_UserID := up_UserID q; up_Provider := up_Provider q;
              up_APIKeyEncrypted := c |}.
    split.
    + apply list_elem_of_In, in_map_iff. exists q. by rewrite Hsame.
    + by apply andb_true_iff in Hsame as [Hu%String.eqb_eq Hp%String.eqb_eq].
  - eexists. split; [apply elem_of_app; right; by apply list_elem_of_singleton |]. done.
Qed.

Lemma filter_map_if {A} (P Q : A -> bool) (h : A -> A) (l : list A) :
  (forall a, Q a = true -> P a = false /\ P (h a) = false) ->
  List.filter P (List.map (fun a => if Q a then h a else a) l) = List.filter P l.
Proof.
  intros HQ. induction l as [|a l IH]; [done |]. cbn [List.map List.filter].
  rewrite IH. destruct (Q a) eqn:Ha; [| done].
  destruct (HQ a Ha) as [-> ->]. done.
Qed.

Lemma providers_of_upsert_other (userID provider other : string) (c : list byte)
    (d : DB) :
  other <> userID ->
  List.filter (fun p => String.eqb (up_UserID p) other)
    (upsert_provider userID provider c (user_providers d)) =
  providers_of other d.
Proof.
  intros Hne. unfold upsert_provider, providers_of. destruct (existsb _ _).
  - apply filter_map_if. intros p [Hu%String.eqb_eq _]%andb_true_iff. simpl.
    rewrite Hu. split; apply String.eqb_neq; congruence.
  - rewrite List.filter_app. simpl.
    assert (String.eqb userID other = false) as -> by (apply String.eqb_neq; congruence).
    apply app_nil_r.
Qed.

Lemma providers_of_remove_other (userID provider other : string) (d : DB) :
  other <> userID ->
  List.filter (fun p => String.eqb (up_UserID p) other)
    (List.filter (fun p => negb (same_provider userID provider p)) (user_providers d)) =
  providers_of other d.
Proof.
  intros Hne. unfold providers_of.
  induction (user_providers d) as [|p rows IH]; [done |]. cbn [List.filter].
  destruct (same_provider userID provider p) eqn:Hsame; cbn [negb List.filter].
  - rewrite IH. apply andb_true_iff in Hsame as [Hu%String.eqb_eq _].
    assert (String.eqb (up_UserID p) other = false) as ->
      by (apply String.eqb_neq; congruence).
    done.
  - rewrite IH. done.
Qed.

Lemma live_key_elem (keyHash : string) (d : DB) (key : VirtualKey) :
  live_key keyHash d = Some key ->
  key ∈ virtual_keys d /\ KeyHash key = keyHash /\ RevokedAt key = None.
Proof.
  unfold live_key. intros [Hin [Hhash%String.eqb_eq Hlive]%andb_true_iff]%find_some.
  split; [by apply list_elem_of_In |]. split; [done |].
  by destruct (RevokedAt key).
Qed.

(** X7: a new provider credential takes effect at once.  After a
    [SetUserProvider] that succeeded, with the keys of the user listed
    and the cache entry of a key purged, [ValidateKey] on the token of
    that key (the stores answering, the other credentials of the user
    decrypting) gives a configuration of the key whose credential for
    the provider is the new API key. *)
Theorem SetUserProvider_takes_effect (s : KeyService) (entropy : list byte)
    (f : admin_faults) (fdel : string -> option error) (f' : faults)
    (userID provider apiKey virtualKey : string) (w w' : World) (key : VirtualKey) :
  SetUserProvider s entropy f fdel userID provider apiKey w = (inl tt, w') ->
  f DbListVirtualKeysByUser = None ->
  fdel (KeyHash key) = None ->
  strings.HasPrefix virtualKey virtualKeyPrefix = true ->
  live_key (HashKey virtualKey) (db w) = Some key ->
  UserID key = userID ->
  (forall p, p ∈ providers_of userID (db w) ->
     exists x, Decrypt s (up_APIKeyEncrypted p) = inl x) ->
  f' CacheGet = None ->
  f' DbGetVirtualKeyByHash = None ->
  f' DbGetUserProviders = None ->
  exists config,
    fst (ValidateKey f' s virtualKey w') = inl config /\
    kc_KeyID config = ID key /\
    GetProviderKey config provider = inl apiKey.
Proof.
  intros Hset Hlist Hdel Hprefix Hlive Huser Hold Hget Hdb Hup.
  destruct (SetUserProvider_world s entropy f fdel userID provider apiKey w)
    as [(e & He & _)|(c & Henc & _ & Hw')]; rewrite Hset in *; [done |].
  simpl in Hw'. subst w'.
  set (w1 := with_db w _).
  pose proof (invalidateUserKeyCache_db f fdel userID w1) as Hdb'.
  destruct (invalidateUserKeyCache_kv f fdel userID w1) as [_ Hpurged].
  destruct (live_key_elem _ _ _ Hlive) as (Hin & Hhash & _).
  specialize (Hpurged Hlist key Hin Huser Hdel).
  unfold cache_key in Hpurged. rewrite Hhash in Hpurged.
  set (w' := snd (invalidateUserKeyCache f fdel userID w1)) in *.
  assert (live_key (HashKey virtualKey) (db w') = Some key) as Hlive'
    by (by rewrite Hdb').
  pose proof (ValidateKey_store f' s virtualKey w' key
                Hprefix Hget Hpurged Hdb Hlive' Hup) as Hval.
  rewrite Hdb' in Hval. simpl in Hval. rewrite Huser in Hval.
  pose proof (Decrypt_Encrypt_ok _ _ _ _ Henc) as Hround.
  destruct (decryptProviders_succeeds s
              (List.filter (fun p => String.eqb (up_UserID p) userID)
                 (upsert_provider userID provider c (user_providers (db w)))) ∅)
    as [m Hm].
  { intros p [Hp Hu%String.eqb_eq]%list_elem_of_In%filter_In.
    apply list_elem_of_In, upsert_provider_elem in Hp as [(_ & _ & ->)|[Hp _]];
      [by eauto |].
    apply Hold. apply list_elem_of_In, filter_In.
    split; [by apply list_elem_of_In | by apply String.eqb_eq]. }
  rewrite Hm in Hval. destruct Hval as [Hval _].
  exists (config_of key m). split; [done |]. split; [done |].
  unfold GetProviderKey. simpl.
  rewrite (decryptProviders_present _ _ _ _ provider apiKey Hm); [done | |].
  - intros p [Hp Hu%String.eqb_eq]%list_elem_of_In%filter_In Hprov.
    apply list_elem_of_In, upsert_provider_elem in Hp as [(_ & _ & ->)|[_ Hsame]];
      [done |].
    unfold same_provider in Hsame. by rewrite Hu, Hprov, !String.eqb_refl in Hsame.
  - left. destruct (upsert_provider_has userID provider c (user_providers (db w)))
      as (p & Hp & Hu & Hprov).
    exists p. split; [| done]. apply list_elem_of_In, filter_In.
    split; [by apply list_elem_of_In | by apply String.eqb_eq].
Qed.

(** X8: a removed provider credential is gone at once.  After a
    [RemoveUserProvider] that succeeded, with the keys of the user listed
    and the cache entry of a key purged, every configuration that
    [ValidateKey] returns for the token of that key is the key's and has
    no credential for the provider: [GetProviderKey] answers
    [ErrProviderNotFound]. *)
Theorem RemoveUserProvider_takes_effect (f : admin_faults)
    (fdel : string -> option error) (f' : faults) (s : KeyService)
    (userID provider virtualKey : string) (w w' w'' : World) (key : VirtualKey)
    (config : KeyConfig) :
  RemoveUserProvider f fdel userID provider w = (inl tt, w') ->
  f DbListVirtualKeysByUser = None ->
  fdel (KeyHash key) = None ->
  live_key (HashKey virtualKey) (db w) = Some key ->
  UserID key = userID ->
  ValidateKey f' s virtualKey w' = (inl config, w'') ->
  kc_KeyID config = ID key /\
  GetProviderKey config provider = inr ErrProviderNotFound.
Proof.
  intros Hrm Hlist Hdel Hlive Huser Hval.
  destruct (RemoveUserProvider_world f fdel userID provider w)
    as [(e & He & _)|[_ Hw']]; rewrite Hrm in *; [done |].
  simpl in Hw'. subst w'.
  set (w1 := with_db w _) in *.
  pose proof (invalidateUserKeyCache_db f fdel userID w1) as Hdb'.
  destruct (invalidateUserKeyCache_kv f fdel userID w1) as [_ Hpurged].
  destruct (live_key_elem _ _ _ Hlive) as (Hin & Hhash & _).
  specialize (Hpurged Hlist key Hin Huser Hdel).
  unfold cache_key in Hpurged. rewrite Hhash in Hpurged.
  apply ValidateKey_inl in Hval as [_ [Hhit|(_ & key' & m & Hlive' & Hm & ->)]];
    [congruence |].
  rewrite Hdb' in Hlive', Hm. unfold live_key in Hlive, Hlive'. simpl in Hlive', Hm.
  assert (key' = key) as -> by congruence.
  split; [done |]. unfold GetProviderKey. simpl.
  rewrite (decryptProviders_absent _ _ _ _ provider Hm); [done |].
  unfold providers_of. simpl.
  intros p [[Hp Hsame%negb_true_iff]%filter_In Hu%String.eqb_eq]%list_elem_of_In%filter_In
    Hprov.
  unfold same_provider in Hsame. by rewrite Hu, Huser, Hprov, !String.eqb_refl in Hsame.
Qed.

Lemma NoDup_fmap_elem {A B} (g : A -> B) (l : list A) (x y : A) :
  NoDup (g <$> l) -> x ∈ l -> y ∈ l -> g x = g y -> x = y.
Proof.
  intros Hnodup [i Hi]%list_elem_of_lookup [j Hj]%list_elem_of_lookup Heq.
  assert (i = j) as ->; [| congruence].
  apply (NoDup_lookup _ i j (g x) Hnodup); rewrite list_lookup_fmap.
  - by rewrite Hi.
  - rewrite Hj. simpl. by rewrite Heq.
Qed.

(** X11: changing the credentials of one user changes nothing for
    the keys of another.  With hashes unique, [ValidateKey] on the token
    of a live key of another user answers the same after
    [SetUserProvider] or [RemoveUserProvider] as before, whatever fails
    in between. *)
Theorem provider_change_is_local (s : KeyService) (entropy : list byte)
    (f : admin_faults) (fdel : string -> option error) (f' : faults)
    (userID provider apiKey virtualKey : string) (w : World) (key : VirtualKey) :
  NoDup (KeyHash <$> virtual_keys (db w)) ->
  live_key (HashKey virtualKey) (db w) = Some key ->
  UserID key <> userID ->
  fst (ValidateKey f' s virtualKey
         (snd (SetUserProvider s entropy f fdel userID provider apiKey w))) =
    fst (ValidateKey f' s virtualKey w) /\
  fst (ValidateKey f' s virtualKey
         (snd (RemoveUserProvider f fdel userID provider w))) =
    fst (ValidateKey f' s virtualKey w).
Proof.
  intros Hnodup Hlive Hother.
  destruct (live_key_elem _ _ _ Hlive) as (Hin & Hhash & _).
  assert (forall k, k ∈ virtual_keys (db w) -> UserID k = userID ->
            cache.keyConfigPrefix +:+ HashKey virtualKey <> cache_key k) as Hown.
  { intros k Hk Hu Heq%append_inv_l. rewrite <- Hhash in Heq.
    assert (key = k) as -> by (by apply (NoDup_fmap_elem KeyHash (virtual_keys (db w)))).
    done. }
  split.
  - destruct (SetUserProvider_world s entropy f fdel userID provider apiKey w)
      as [(e & _ & ->)|(c & _ & _ & ->)]; [done |].
    set (w1 := with_db w _).
    pose proof (invalidateUserKeyCache_db f fdel userID w1) as Hdb'.
    destruct (invalidateUserKeyCache_kv f fdel userID w1) as [Hkept _].
    apply ValidateKey_ext.
    + by rewrite Hkept.
    + by rewrite Hdb'.
    + rewrite Hdb'. unfold live_key at 1. simpl. fold (live_key (HashKey virtualKey) (db w)).
      rewrite Hlive. intros ? [= <-]. unfold providers_of at 1. simpl.
      by apply providers_of_upsert_other.
  - destruct (RemoveUserProvider_world f fdel userID provider w)
      as [(e & _ & ->)|[_ ->]]; [done |].
    set (w1 := with_db w _).
    pose proof (invalidateUserKeyCache_db f fdel userID w1) as Hdb'.
    destruct (invalidateUserKeyCache_kv f fdel userID w1) as [Hkept _].
    apply ValidateKey_ext.
    + by rewrite Hkept.
    + by rewrite Hdb'.
    + rewrite Hdb'. unfold live_key at 1. simpl. fold (live_key (HashKey virtualKey) (db w)).
      rewrite Hlive. intros ? [= <-]. unfold providers_of at 1. simpl.
      by apply providers_of_remove_other.
Qed.

End provider_facts.

Section lockout_facts.
Context `{Sha256} `{AEAD} `{Filepath}.
Import models store database auth proxy.

Lemma substring_append_r (p t : string) :
  String.substring (String.length p) (String.length (p +:+ t) - String.length p)
    (p +:+ t) = t.
Proof.
  rewrite length_append. replace (String.length p + String.length t - String.length p)
    with (String.length t) by lia.
  induction p as [|c p IH].
  - rewrite append_nil_l. simpl. clear. induction t as [|c t IH]; simpl; [done |].
    by rewrite IH.
  - rewrite append_cons. simpl. apply IH.
Qed.

Lemma TrimPrefix_app (p t : string) : strings.TrimPrefix (p +:+ t) p = t.
Proof.
  unfold strings.TrimPrefix.
  assert (strings.HasPrefix (p +:+ t) p = true) as -> by (apply HasPrefix_iff; eauto).
  apply substring_append_r.
Qed.

(** X9: one credential that does not decrypt locks the key out.  When
    some provider row of the owner fails to decrypt, a proxied request
    with the key's token (on a cache miss, the stores answering) is
    answered 401 with a decryption error, whichever model and provider it
    names, and neither the store nor the cache changes. *)
Theorem undecryptable_credential_locks_the_key (f : faults) (s : KeyService)
    (r : Request) (path requestType virtualKey : string) (w : World)
    (key : VirtualKey) (p : UserProvider) (e : error) :
  Authorization r = "Bearer " +:+ virtualKey ->
  strings.HasPrefix virtualKey virtualKeyPrefix = true ->
  f CacheGet = None ->
  kv w !! (cache.keyConfigPrefix +:+ HashKey virtualKey) = None ->
  f DbGetVirtualKeyByHash = None ->
  live_key (HashKey virtualKey) (db w) = Some key ->
  f DbGetUserProviders = None ->
  p ∈ providers_of (UserID key) (db w) ->
  Decrypt s (up_APIKeyEncrypted p) = inr e ->
  exists e' w',
    proxyUnified f s r path requestType w =
      (WriteError 401 ("decryption error: " +:+ Error e'), w') /\
    db w' = db w /\ kv w' = kv w.
Proof.
  intros Hauth Hprefix Hget Hmiss Hdb Hlive Hup Hp Hdec.
  pose proof (ValidateKey_store f s virtualKey w key Hprefix Hget Hmiss Hdb Hlive Hup)
    as Hval.
  destruct (decryptProviders_fails s _ ∅ p e Hp Hdec) as [e' He'].
  unfold providers_of in He'. rewrite He' in Hval. destruct Hval as (Hr & Hdb' & Hkv').
  exists e'. unfold proxyUnified, extractAndValidateKey.
  rewrite Hauth, TrimPrefix_app.
  assert (strings.HasPrefix ("Bearer " +:+ virtualKey) "Bearer " = true) as ->
    by (apply HasPrefix_iff; eauto).
  simpl. destruct (ValidateKey f s virtualKey w) as [r0 w'].
  simpl in *. subst r0. eauto.
Qed.

End lockout_facts.

Section budget_facts.
Import models auth.

Lemma SFltb_add_zero (x y : spec_float) :
  SFltb x (SFadd prec emax y (S754_zero false)) = SFltb x y.
Proof.
  destruct y as [[]|sy| |sy my ey]; try reflexivity; destruct x as [[]|[]| |[] mx ex];
    reflexivity.
Qed.

Lemma ltb_add_zero (limit spend : float) :
  (limit <? spend + 0)%float = (limit <? spend)%float.
Proof.
  rewrite !FloatAxioms.ltb_spec, FloatAxioms.add_spec.
  change (Prim2SF 0) with (S754_zero false). apply SFltb_add_zero.
Qed.

Lemma SFltb_irrefl (x : spec_float) : SFltb x x = false.
Proof.
  destruct x as [[]|[]| |[] m e]; try reflexivity; unfold SFltb, SFcompare;
    rewrite Z.compare_refl, ?Pos.compare_cont_refl, ?Pos.compare_refl; reflexivity.
Qed.

Lemma is_nan_Prim2SF (x : float) : PrimFloat.is_nan x = true -> Prim2SF x = S754_nan.
Proof.
  unfold PrimFloat.is_nan. rewrite FloatAxioms.eqb_spec.
  destruct (Prim2SF x) as [[]|[]| |[] m e]; try done;
    unfold SFeqb, SFcompare;
    rewrite Z.compare_refl, ?Pos.compare_cont_refl, ?Pos.compare_refl; done.
Qed.

(** X12: [CheckBudget] with an estimate of zero refuses exactly when
    the cap is strictly below the current spend.  A key whose spend
    equals its cap is admitted, and so is every request whose spend plus
    estimate is not a number. *)
Theorem CheckBudget_zero_estimate (config : KeyConfig) :
  CheckBudget config 0 =
    match kc_BudgetLimit config with
    | Some limit =>
        if (limit <? kc_CurrentSpend config)%float then Some ErrBudgetExceeded else None
    | None => None
    end /\
  (kc_BudgetLimit config = Some (kc_CurrentSpend config) -> CheckBudget config 0 = None) /\
  (forall estimatedCost,
     PrimFloat.is_nan (kc_CurrentSpend config + estimatedCost) = true ->
     CheckBudget config estimatedCost = None).
Proof.
  unfold CheckBudget. split_and!.
  - destruct (kc_BudgetLimit config); [| done]. by rewrite ltb_add_zero.
  - intros ->. by rewrite ltb_add_zero, FloatAxioms.ltb_spec, SFltb_irrefl.
  - intros estimatedCost Hnan. destruct (kc_BudgetLimit config) as [limit|]; [| done].
    rewrite FloatAxioms.ltb_spec, (is_nan_Prim2SF _ Hnan).
    by destruct (Prim2SF limit) as [[]|[]| |[] ? ?].
Qed.

End budget_facts.

Section model_facts.
Import models proxy.

Lemma SplitN2_shape (s : string) (sep : ascii) :
  (strings.SplitN2 s sep = [s] /\ ~ In sep (list_ascii_of_string s)) \/
  exists a b,
    strings.SplitN2 s sep = [a; b] /\
    s = a +:+ String sep b /\ ~ In sep (list_ascii_of_string a).
Proof.
  induction s as [|c s IH]; simpl.
  - left. split; [done | tauto].
  - destruct (Ascii.eqb_spec c sep) as [->|Hne].
    + right. exists "", s. rewrite append_nil_l. simpl. tauto.
    + destruct IH as [[-> Hnone]|(a & b & -> & Hs & Hnone)].
      * left. split; [done |]. simpl. tauto.
      * right. exists (String c a), b. rewrite append_cons, <- Hs. simpl.
        split; [done |]. split; [done |]. tauto.
Qed.

Lemma SplitN2_app (a b : string) (sep : ascii) :
  ~ In sep (list_ascii_of_string a) ->
  strings.SplitN2 (a +:+ String sep b) sep = [a; b].
Proof.
  induction a as [|c a IH]; intros Hnone.
  - rewrite append_nil_l. simpl. by rewrite Ascii.eqb_refl.
  - rewrite append_cons. simpl in *.
    destruct (Ascii.eqb_spec c sep) as [->|Hne]; [tauto |].
    rewrite IH by tauto. done.
Qed.

(** X13: [parseModel] splits at the first slash and loses nothing:
    what it accepts is the provider, a slash and the model, the provider
    holding no slash; what it refuses holds no slash at all; and a
    provider without a slash followed by a slash and any model parses
    back to the two. *)
Theorem parseModel_spec (model : string) :
  match parseModel model with
  | inl (provider, actualModel) =>
      model = provider +:+ "/" +:+ actualModel /\
      ~ In "/"%char (list_ascii_of_string provider)
  | inr _ => ~ In "/"%char (list_ascii_of_string model)
  end /\
  (forall provider actualModel,
     ~ In "/"%char (list_ascii_of_string provider) ->
     parseModel (provider +:+ "/" +:+ actualModel) = inl (provider, actualModel)).
Proof.
  unfold parseModel. split.
  - destruct (SplitN2_shape model "/") as [[-> Hnone]|(a & b & -> & Hs & Hnone)]; done.
  - intros provider actualModel Hnone.
    change ("/" +:+ actualModel) with (String "/" actualModel).
    by rewrite SplitN2_app.
Qed.

End model_facts.

Section conservation_facts.
Import models logging.

Lemma held_after (p : Pipeline) (ev : event) :
  held (after p ev) ≡ₚ held p ++ accepted p [ev].
Proof.
  unfold held. destruct ev as [entry| | |]; simpl.
  - unfold Log. destruct (closed p); simpl; [by rewrite !app_nil_r |].
    case_decide; simpl; [| by rewrite !app_nil_r].
    by rewrite ?app_nil_r, <- ?app_assoc.
  - rewrite app_nil_r. unfold receive. destruct (logChan p) as [|entry rest] eqn:Hc;
      simpl; [by rewrite Hc |].
    by rewrite <- !app_assoc.
  - rewrite app_nil_r. unfold flush. destruct (batch p) as [|entry rest] eqn:Hb; simpl.
    + by rewrite Hb.
    + rewrite concat_app. simpl. by rewrite app_nil_r, <- !app_assoc.
  - by rewrite app_nil_r.
Qed.

(** X14: the pipeline neither loses nor duplicates an entry it has
    accepted.  After any run of log calls, receives, flushes and closes,
    the entries handed to [bulkIndex], in the batch and in the channel
    are, as a multiset, those there were before and those [Log] took in;
    an entry that [Log] dropped adds nothing. *)
Theorem pipeline_conserves_entries (p : Pipeline) (events : list event) :
  held (foldl after p events) ≡ₚ held p ++ accepted p events.
Proof.
  revert p. induction events as [|ev events IH]; intros p; simpl.
  - by rewrite app_nil_r.
  - rewrite IH, held_after. simpl. by rewrite app_nil_r, <- !app_assoc.
Qed.

End conservation_facts.

Section accounting_facts.
Import models store database auth.








End accounting_facts.

Section startup_facts.
Context `{AEAD}.
Import auth config.

(** X16: a configuration that [Load] accepts has what the key
    service needs.  The database URL and the JWT secret are not empty,
    [NewKeyService] does not panic on the encryption key and keeps 32
    bytes of it, and [Encrypt] succeeds whenever the random source gives
    a nonce; what [Load] refuses lacks one of the three. *)
Theorem Load_guarantees_cipher (env : gmap string string) :
  match Load env with
  | inl cfg =>
      DatabaseURL cfg <> "" /\ JWTSecret cfg <> "" /\
      EncryptionKey cfg = os_Getenv env "ENCRYPTION_KEY" /\
      exists s,
        NewKeyService (EncryptionKey cfg) = Some s /\
        length (encryptionKey s) = 32 /\
        forall entropy plaintext,
          NonceSize <= length entropy ->
          exists c, Encrypt s entropy plaintext = inl c
  | inr _ =>
      os_Getenv env "DATABASE_URL" = "" \/ os_Getenv env "JWT_SECRET" = "" \/
      String.length (os_Getenv env "ENCRYPTION_KEY") < 32
  end.
Proof.
  unfold Load. cbn [DatabaseURL JWTSecret EncryptionKey].
  destruct (String.eqb_spec (os_Getenv env "DATABASE_URL") ""); [by left |].
  destruct (String.eqb_spec (os_Getenv env "JWT_SECRET") ""); [by auto |].
  destruct (String.eqb_spec (os_Getenv env "ENCRYPTION_KEY") "") as [->|];
    [right; right; simpl; lia |].
  case_decide as Hlen; [by auto |].
  cbn [DatabaseURL JWTSecret EncryptionKey].
  split; [done |]. split; [done |]. split; [done |].
  unfold NewKeyService. case_decide; [| lia].
  eexists. split; [reflexivity |]. cbn [encryptionKey].
  assert (length (take 32 (list_byte_of_string (os_Getenv env "ENCRYPTION_KEY"))) = 32)
    as Hkey by (rewrite length_take, length_list_byte_of_string; lia).
  split; [done |].
  intros entropy plaintext Hentropy. unfold Encrypt, aes_NewCipher, io_ReadFull.
  cbn [encryptionKey]. rewrite Hkey.
  case_decide; [| tauto]. case_decide; [| lia]. by eexists.
Qed.

End startup_facts.

Section migration_facts.
Import database.

Lemma migrateEntries_applied (f : migrate_faults) (entries : list DirEntry)
    (st st' : Schema) :
  migrateEntries f entries st = (inl tt, st') ->
  (forall name, name ∈ schema_migrations st -> name ∈ schema_migrations st') /\
  (forall entry, entry ∈ entries -> de_IsDir entry = false ->
     de_Name entry ∈ schema_migrations st').
Proof.
  revert st. induction entries as [|entry rest IH]; intros st; simpl.
  - intros [= <-]. split; [done |]. by intros entry []%elem_of_nil.
  - destruct (de_IsDir entry) eqn:Hdir.
    { intros [Hkeep Hall]%IH. split; [done |].
      intros e [->|He]%elem_of_cons; [congruence | by apply Hall]. }
    destruct (f (CheckMigration _)); [done |].
    case_bool_decide as Hin.
    { intros [Hkeep Hall]%IH. split; [done |].
      intros e [->|He]%elem_of_cons; [by auto | by apply Hall]. }
    destruct (f (ReadFile _)); [done |].
    destruct (f (ExecMigration _)); [done |].
    destruct (f (RecordMigration _)); [done |].
    intros [Hkeep Hall]%IH. simpl in Hkeep.
    split; [intros name Hname; apply Hkeep, elem_of_app; by left |].
    intros e [->|He]%elem_of_cons; [| by apply Hall].
    intros _. apply Hkeep, elem_of_app. right. by apply list_elem_of_singleton.
Qed.

Lemma migrateEntries_nothing (f : migrate_faults) (entries : list DirEntry)
    (st : Schema) :
  (forall name, f (CheckMigration name) = None) ->
  (forall entry, entry ∈ entries -> de_IsDir entry = false ->
     de_Name entry ∈ schema_migrations st) ->
  migrateEntries f entries st = (inl tt, st).
Proof.
  intros Hcheck. induction entries as [|entry rest IH]; intros Hall; simpl; [done |].
  assert (migrateEntries f rest st = (inl tt, st)) as Hrest.
  { apply IH. intros e He. apply Hall. by right. }
  destruct (de_IsDir entry) eqn:Hdir; [done |].
  rewrite Hcheck. rewrite bool_decide_eq_true_2; [done |].
  apply Hall; [left | done].
Qed.

(** X17: [Migrate] is idempotent.  After a run that succeeded, every
    script of the directory is recorded, and a later run succeeds and
    leaves the store as it is, without reading, executing or recording
    anything, as long as the table and the directory can be read. *)
Theorem Migrate_idempotent (f f' : migrate_faults) (entries : list DirEntry)
    (st st' : Schema) :
  Migrate f entries st = (inl tt, st') ->
  f' CreateMigrationsTable = None ->
  f' ReadDir = None ->
  (forall name, f' (CheckMigration name) = None) ->
  (forall entry, entry ∈ entries -> de_IsDir entry = false ->
     de_Name entry ∈ schema_migrations st') /\
  Migrate f' entries st' = (inl tt, st').
Proof.
  unfold Migrate. intros Hrun Hcreate Hdir Hcheck. rewrite Hcreate, Hdir.
  destruct (f CreateMigrationsTable); [done |]. destruct (f ReadDir); [done |].
  apply migrateEntries_applied in Hrun as [_ Hall].
  split; [done |]. by apply migrateEntries_nothing.
Qed.

Lemma migrateEntries_executed (f : migrate_faults) (entries : list DirEntry)
    (st : Schema) :
  exists more, executed (snd (migrateEntries f entries st)) = executed st ++ more.
Proof.
  revert st. induction entries as [|entry rest IH]; intros st; simpl.
  - exists []. by rewrite app_nil_r.
  - destruct (de_IsDir entry); [apply IH |].
    destruct (f (CheckMigration _)); [exists []; by rewrite app_nil_r |].
    case_bool_decide; [apply IH |].
    destruct (f (ReadFile _)); [exists []; by rewrite app_nil_r |].
    destruct (f (ExecMigration _)); [exists []; by rewrite app_nil_r |].
    destruct (f (RecordMigration _)); [by eexists |].
    destruct (IH {| schema_migrations := schema_migrations st ++ [de_Name entry];
                    executed := executed st ++ [de_Content entry] |}) as [more Hmore].
    simpl in *. rewrite Hmore, <- app_assoc. by eexists.
Qed.

Lemma migrateEntries_record_failure (f : migrate_faults) (entries : list DirEntry)
    (st st' : Schema) (name : string) (e : error) :
  migrateEntries f entries st =
    (inr (wrapError ("failed to record migration " +:+ name) e), st') ->
  exists skipped entry rest before,
    entries = skipped ++ entry :: rest /\
    de_IsDir entry = false /\ de_Name entry = name /\
    (name ∉ schema_migrations st') /\
    (forall x, x ∈ skipped ->
       de_IsDir x = true \/ de_Name x ∈ schema_migrations st') /\
    executed st' = before ++ [de_Content entry].
Proof.
  revert st. induction entries as [|entry rest IH]; intros st; simpl; [done |].
  assert (forall st0,
    (exists skipped entry0 rest0 before,
       rest = skipped ++ entry0 :: rest0 /\
       de_IsDir entry0 = false /\ de_Name entry0 = name /\
       (name ∉ schema_migrations st') /\
       (forall x, x ∈ skipped ->
          de_IsDir x = true \/ de_Name x ∈ schema_migrations st') /\
       executed st' = before ++ [de_Content entry0]) ->
    migrateEntries f rest st0 =
      (inr (wrapError ("failed to record migration " +:+ name) e), st') ->
    de_IsDir entry = true \/ de_Name entry ∈ schema_migrations st0 ->
    exists skipped entry0 rest0 before,
      entry :: rest = skipped ++ entry0 :: rest0 /\
      de_IsDir entry0 = false /\ de_Name entry0 = name /\
      (name ∉ schema_migrations st') /\
      (forall x, x ∈ skipped ->
         de_IsDir x = true \/ de_Name x ∈ schema_migrations st') /\
      executed st' = before ++ [de_Content entry0]) as Hskip.
  { intros st0 (skipped & entry0 & rest0 & before & -> & Hdir & Hname & Hnot & Hsk & Hex)
      Hrun Hentry.
    exists (entry :: skipped), entry0, rest0, before. split_and!; try done.
    intros x [->|Hx]%elem_of_cons; [| by apply Hsk].
    destruct Hentry as [?|Hin]; [by left |]. right.
    clear -Hrun Hin. revert st0 Hrun Hin.
    induction (skipped ++ entry0 :: rest0) as [|y l IHl]; intros st0; simpl; [done |].
    destruct (de_IsDir y); [apply IHl |].
    destruct (f (CheckMigration _)); [by intros [= _ _ <-] |].
    case_bool_decide; [apply IHl |].
    destruct (f (ReadFile _)); [by intros [= _ _ <-] |].
    destruct (f (ExecMigration _)); [by intros [= _ _ <-] |].
    destruct (f (RecordMigration _)); [by intros [= _ _ <-] |].
    intros Hrun Hin. apply (IHl _ Hrun). simpl. apply elem_of_app. by left. }
  destruct (de_IsDir entry) eqn:Hdir.
  { intros Hrun. apply (Hskip st); [by apply (IH st) | done | by left]. }
  destruct (f (CheckMigration _)).
  { intros [= Hmsg _ _]. }
  case_bool_decide as Hin.
  { intros Hrun. apply (Hskip st); [by apply (IH st) | done | by right]. }
  destruct (f (ReadFile _)).
  { intros [= Hmsg _ _]. }
  destruct (f (ExecMigration _)).
  { intros [= Hmsg _ _]. }
  destruct (f (RecordMigration _)).
  - intros [= Hmsg%append_inv_l _ <-]. simpl.
    exists [], entry, rest, (executed st). split_and!; try done.
    + by rewrite <- Hmsg.
    + by intros x []%elem_of_nil.
  - intros Hrun. eapply Hskip; [by eapply IH | done |]. right. simpl.
    apply elem_of_app. right. by apply list_elem_of_singleton.
Qed.

Lemma migrateEntries_skip (f : migrate_faults) (skipped rest : list DirEntry)
    (st : Schema) :
  (forall name, f (CheckMigration name) = None) ->
  (forall x, x ∈ skipped -> de_IsDir x = true \/ de_Name x ∈ schema_migrations st) ->
  migrateEntries f (skipped ++ rest) st = migrateEntries f rest st.
Proof.
  intros Hcheck. induction skipped as [|x skipped IH]; intros Hall; [done |].
  rewrite <- app_comm_cons. cbn [migrateEntries].
  assert (migrateEntries f (skipped ++ rest) st = migrateEntries f rest st) as ->.
  { apply IH. intros y Hy. apply Hall. by right. }
  destruct (Hall x) as [->|Hin]; [by left | done |].
  destruct (de_IsDir x); [done |]. rewrite Hcheck.
  by rewrite bool_decide_eq_true_2.
Qed.

(** X18: a migration that was executed but could not be recorded is
    executed again.  When [Migrate] fails to record a script, the script
    was the last one executed and its name is not among the versions, and
    the next run that meets no failure starts by executing the same
    script a second time. *)
Theorem Migrate_record_failure_reruns_script (f : migrate_faults)
    (entries : list DirEntry) (st st' : Schema) (name : string) (e : error) :
  Migrate f entries st =
    (inr (wrapError ("failed to record migration " +:+ name) e), st') ->
  exists entry before after,
    entry ∈ entries /\ de_Name entry = name /\
    (name ∉ schema_migrations st') /\
    executed st' = before ++ [de_Content entry] /\
    executed (snd (Migrate (fun _ => None) entries st')) =
      before ++ [de_Content entry; de_Content entry] ++ after.
Proof.
  unfold Migrate.
  destruct (f CreateMigrationsTable); [intros [= Hmsg _ _] |].
  destruct (f ReadDir); [intros [= Hmsg _ _] |].
  intros (skipped & entry & rest & before & -> & Hdir & Hname & Hnot & Hsk & Hex)
    %migrateEntries_record_failure.
  rewrite migrateEntries_skip by done. cbn [migrateEntries].
  rewrite Hdir, Hname, bool_decide_eq_false_2 by done.
  match goal with |- context [migrateEntries ?g rest ?st1] =>
    destruct (migrateEntries_executed g rest st1) as [after Hafter] end.
  exists entry, before, after. split_and!; try done.
  - apply elem_of_app. right. left.
  - rewrite Hafter. simpl. rewrite Hex, <- !app_assoc. done.
Qed.

End migration_facts.

Section api_facts.
Import models store database.

Lemma keyError_failed (msg failure : string) (e : error) :
  api.keyError (wrapError ("failed to " +:+ msg) e) failure =
    (500%Z, api.ErrorBody failure).
Proof. reflexivity. Qed.

(** X19: the status of the key handlers.  [GetKey], [RevokeKey] and
    [UpdateKey] of the dashboard answer 404 exactly when the lookup was
    answered and found no key, 403 exactly when it found a key of another
    user, and otherwise 200 or 500; a failure of the store is never
    reported as 404 or 403, any answer but 200 means the key rows and the
    cache are as before, and a 200 of [GetKey] carries the caller's key
    with its hash blanked. *)
Theorem key_handlers_status (f : faults) (userID keyID : string) (now : Time)
    (req : UpdateKeyRequest) (w : World) :
  let found := List.find (fun k => String.eqb (ID k) keyID) (virtual_keys (db w)) in
  let verdict (a : api.answer * World) :=
    (fst (fst a) = 404%Z <-> f DbGetVirtualKeyByID = None /\ found = None) /\
    (fst (fst a) = 403%Z <->
       f DbGetVirtualKeyByID = None /\
       exists k, found = Some k /\ UserID k <> userID) /\
    (fst (fst a) = 200%Z \/ fst (fst a) = 403%Z \/ fst (fst a) = 404%Z \/
     fst (fst a) = 500%Z) /\
    (fst (fst a) <> 200%Z -> db (snd a) = db w /\ kv (snd a) = kv w) in
  verdict (api.GetKey f userID keyID w) /\
  verdict (api.RevokeKey f userID keyID now w) /\
  verdict (api.UpdateKey f userID keyID (Some req) w) /\
  (forall body, fst (fst (api.GetKey f userID keyID w)) = 200%Z ->
     snd (fst (api.GetKey f userID keyID w)) = body ->
     exists k, found = Some k /\ UserID k = userID /\ body = api.KeyBody (api.mask k)).
Proof.
  intros found verdict. subst verdict. cbv beta.
  unfold api.GetKey, api.RevokeKey, api.UpdateKey. run_admin. subst found.
  destruct (f DbGetVirtualKeyByID) as [e|] eqn:Hget.
  { split_and!; simpl; try (split; [done | by intros [? _]]); auto; done. }
  simpl. destruct (List.find _ _) as [k|] eqn:Hfind; simpl.
  2: { split_and!; simpl; try (split; [done | by intros [_ (? & ? & _)]]);
       try (split; done); auto; done. }
  destruct (String.eqb_spec (UserID k) userID) as [Hown|Hother]; simpl.
  2: { split_and!; simpl; try (split; [done | by intros [_ ?]]);
       try (split; [by eauto | done]); auto; done. }
  assert (forall P : Prop, (exists k0, Some k = Some k0 /\ UserID k0 <> userID) -> P)
    as Hno by (intros P (k0 & [= <-] & Hne); done).
  split_and!.
  - split; [done | by intros [_ ?]].
  - split; [done | intros [_ ?]; by apply Hno].
  - auto.
  - done.
  - destruct (f DbRevokeVirtualKey); simpl; [| destruct (f CacheDel)];
      (split; [done | by intros [_ ?]]).
  - destruct (f DbRevokeVirtualKey); simpl; [| destruct (f CacheDel)];
      (split; [done | intros [_ ?]; by apply Hno]).
  - destruct (f DbRevokeVirtualKey); simpl; [| destruct (f CacheDel)]; auto.
  - destruct (f DbRevokeVirtualKey); simpl; [| destruct (f CacheDel)]; done.
  - destruct (_ && _); simpl; [| destruct (f DbUpdateVirtualKey); simpl];
      try destruct (f CacheDel); (split; [done | by intros [_ ?]]).
  - destruct (_ && _); simpl; [| destruct (f DbUpdateVirtualKey); simpl];
      try destruct (f CacheDel); (split; [done | intros [_ ?]; by apply Hno]).
  - destruct (_ && _); simpl; [| destruct (f DbUpdateVirtualKey); simpl];
      try destruct (f CacheDel); auto.
  - destruct (_ && _); simpl; [| destruct (f DbUpdateVirtualKey); simpl];
      try destruct (f CacheDel); done.
  - intros body _ <-. by exists k.
Qed.

End api_facts.

Section response_facts.
Context `{proxy.Json}.
Import models store database auth logging proxy.

Lemma bytes_of_app (a b : list written) : bytes_of (a ++ b) = bytes_of a ++ bytes_of b.
Proof. unfold bytes_of. by rewrite map_app, concat_app. Qed.

(** The read loop on a writer whose status line is out. *)
Lemma stream_spec (w : ResponseWriter) (body : Reader) :
  is_Some (rw_sent w) ->
  let w' := stream w body in
  rw_sent w' = rw_sent w /\ rw_header w' = rw_header w /\
  rw_flusher w' = rw_flusher w /\
  exists chunks,
    rw_body w' = rw_body w ++ (Bytes <$> chunks) /\
    concat chunks = fst (io_ReadAll body) /\
    Forall (fun data => 0 < length data) chunks /\
    rw_flushes w' = rw_flushes w + length chunks.
Proof.
  revert w. induction body as [|[data err] rest IH]; intros w [sent Hsent]; simpl.
  - split_and!; try done. exists (@nil (list byte)). simpl. rewrite app_nil_r. split_and!; auto.
  - set (w1 := if decide (0 < length data) then Flush (Write w (Bytes data)) else w).
    assert (rw_sent w1 = rw_sent w /\ rw_header w1 = rw_header w /\
            rw_flusher w1 = rw_flusher w /\
            exists chunks,
              rw_body w1 = rw_body w ++ (Bytes <$> chunks) /\
              concat chunks = data /\
              Forall (fun data => 0 < length data) chunks /\
              rw_flushes w1 = rw_flushes w + length chunks) as (Hs & Hh & Hf & Hc).
    { subst w1. case_decide as Hlen.
      - unfold Flush, Write, WriteHeader. destruct w as [? sent0 ? ? ?].
        simpl in *. subst sent0. simpl.
        split_and!; try done. exists (data :: nil). simpl. rewrite app_nil_r.
        split_and!; auto. lia.
      - split_and!; try done. exists (@nil (list byte)). simpl. rewrite app_nil_r.
        split_and!; auto. destruct data; [done | simpl in Hlen; lia]. }
    destruct Hc as (chunks & Hb & Hcat & Hpos & Hfl).
    destruct err as [e|].
    + split_and!; try done. exists chunks. by split_and!.
    + destruct (IH w1) as (Hs' & Hh' & Hf' & chunks' & Hb' & Hcat' & Hpos' & Hfl').
      { rewrite Hs. by eexists. }
      rewrite Hs', Hh', Hf', Hs, Hh, Hf. split_and!; try done.
      exists (chunks ++ chunks'). rewrite Hb', Hb, fmap_app, concat_app, Hcat, Hcat'.
      rewrite <- app_assoc. split_and!; try done.
      * by destruct (io_ReadAll rest).
      * by apply Forall_app.
      * rewrite Hfl', Hfl, length_app. lia.
Qed.

Lemma bytes_of_Bytes (chunks : list (list byte)) : bytes_of (Bytes <$> chunks) = concat chunks.
Proof.
  unfold bytes_of. induction chunks as [|c chunks IH]; [done |].
  rewrite fmap_cons. simpl. by rewrite IH.
Qed.

(** X20: a streamed response passes through byte for byte.  On a
    writer that can flush, the client gets the upstream's status with the
    event-stream headers and, in non-empty writes each followed by a
    flush, exactly the bytes read up to the first read error or end of
    stream; the entry logged has no tokens and a cost of 0.  On a writer
    that cannot flush, the client gets the upstream's status with an
    error body, and nothing is logged. *)
Theorem handleStreamingResponse_passthrough (resp : Response) (traceID : string)
    (keyConfig : KeyConfig) (provider fullModel : string) (p : Pipeline) :
  let sse : gmap string (list string) :=
    <["Connection" := ["keep-alive"]]>
      (<["Cache-Control" := ["no-cache"]]> (<["Content-Type" := ["text/event-stream"]]> ∅)) in
  (let '(w', p') :=
     handleStreamingResponse (fresh true) resp traceID keyConfig provider fullModel p in
   rw_sent w' = Some (StatusCode resp, sse) /\
   bytes_of (rw_body w') = fst (io_ReadAll (ResponseBody resp)) /\
   rw_flushes w' = length (rw_body w') /\
   (forall c, c ∈ rw_body w' -> exists data, c = Bytes data /\ 0 < length data) /\
   p' = fst (Log p
               {| le_TraceID := traceID; le_VirtualKeyID := kc_KeyID keyConfig;
                  le_Model := fullModel; le_Provider := provider;
                  le_Content := "[streaming response]";
                  le_Usage := {| PromptTokens := 0; CompletionTokens := 0;
                                 TotalTokens := 0 |};
                  le_StatusCode := StatusCode resp; le_CostUSD := 0%float |})) /\
  (let '(w', p') :=
     handleStreamingResponse (fresh false) resp traceID keyConfig provider fullModel p in
   rw_sent w' = Some (StatusCode resp, sse) /\
   rw_body w' = [ErrorJSON "streaming not supported"] /\
   p' = p).
Proof.
  intros sse. split; [| done].
  unfold handleStreamingResponse. cbn [rw_flusher Header_Set WriteHeader fresh rw_sent negb
    rw_header rw_body rw_flushes].
  match goal with |- context [stream ?w0 _] =>
    destruct (stream_spec w0 (ResponseBody resp)) as
      (Hs & _ & _ & chunks & Hb & Hcat & Hpos & Hfl); [by eexists |] end.
  simpl in *. rewrite Hs, Hb, Hfl. split_and!; try done.
  - by rewrite bytes_of_Bytes.
  - by rewrite length_fmap.
  - intros c (data & -> & Hin)%list_elem_of_fmap. exists data. split; [done |].
    by apply (proj1 (Forall_forall _ _) Hpos).
Qed.

Lemma prices_cases (provider actualModel : string) :
  prices provider actualModel ∈
    [(2.50, 10.00); (30.00, 60.00); (0.50, 1.50); (15.00, 60.00); (1.00, 2.00);
     (15.00, 75.00); (3.00, 15.00); (0.25, 1.25)]%float.
Proof.
  unfold prices.
  repeat match goal with |- context [if ?c then _ else _] => destruct c end;
    set_solver.
Qed.

Lemma calculateCost_zero (provider model : string) (total : Z) :
  calculateCost provider model
    {| PromptTokens := 0; CompletionTokens := 0; TotalTokens := total |} = 0%float.
Proof.
  unfold calculateCost. cbn [PromptTokens CompletionTokens].
  pose proof (prices_cases provider (actualModelOf model)) as Hin.
  destruct (prices provider (actualModelOf model)) as [inputPrice outputPrice].
  repeat (apply elem_of_cons in Hin as [[= -> ->]|Hin]; [by vm_compute |]).
  by apply elem_of_nil in Hin.
Qed.

(** X21: usage reported under other names is free.  When the usage
    object of a response has no number under [prompt_tokens] and none
    under [completion_tokens] (Anthropic reports [input_tokens] and
    [output_tokens]), the usage read is zero and the cost is exactly 0
    for every provider and model. *)
Theorem usage_under_other_names_is_free (responseData : gmap string jsonv) :
  (forall u, responseData !! "usage" = Some (JObject u) ->
     (forall x, field u "prompt_tokens" <> Some (JNumber x)) /\
     (forall x, field u "completion_tokens" <> Some (JNumber x))) ->
  extractUsage responseData =
    {| PromptTokens := 0; CompletionTokens := 0; TotalTokens := 0 |} /\
  forall provider fullModel,
    calculateCost provider fullModel (extractUsage responseData) = 0%float.
Proof.
  intros Hnames.
  assert (extractUsage responseData =
            {| PromptTokens := 0; CompletionTokens := 0; TotalTokens := 0 |}) as ->.
  { unfold extractUsage. destruct (responseData !! "usage") as [[|?|?|?|?|u]|]; try done.
    destruct (Hnames u eq_refl) as [Hpt Hct].
    destruct (field u "prompt_tokens") as [[|?|pt|?|?|?]|];
      try (by destruct (Hpt pt));
      (destruct (field u "completion_tokens") as [[|?|ct|?|?|?]|];
       try (by destruct (Hct ct)); done). }
  split; [done |]. intros provider fullModel. apply calculateCost_zero.
Qed.

Lemma Header_Add_fold_values (w : ResponseWriter) (key : string) (values : list string) :
  let w' := foldl (fun w value => Header_Add w key value) w values in
  rw_sent w' = rw_sent w /\ rw_body w' = rw_body w /\ rw_flushes w' = rw_flushes w /\
  rw_flusher w' = rw_flusher w /\
  rw_header w' !! key =
    (if decide (values = []) then rw_header w !! key
     else Some (default [] (rw_header w !! key) ++ values)) /\
  (forall other, other <> key -> rw_header w' !! other = rw_header w !! other).
Proof.
  revert w. induction values as [|v values IH]; intros w; [done |].
  cbn [foldl]. destruct (IH (Header_Add w key v)) as (-> & -> & -> & -> & Hkey & Hother).
  split_and!; try done.
  - rewrite Hkey. cbn [Header_Add rw_header]. rewrite lookup_insert_eq.
    rewrite (decide_False (P := v :: values = [])) by done.
    case_decide as Hv; [by subst |]. simpl.
    by rewrite <- app_assoc.
  - intros other Hne. rewrite Hother by done. cbn [Header_Add rw_header].
    by rewrite lookup_insert_ne.
Qed.

Lemma Header_Add_fold (w : ResponseWriter) (headers : list (string * list string)) :
  let w' :=
    foldl (fun w kv => foldl (fun w value => Header_Add w (fst kv) value) w (snd kv))
      w headers in
  rw_sent w' = rw_sent w /\ rw_body w' = rw_body w /\ rw_flushes w' = rw_flushes w /\
  rw_flusher w' = rw_flusher w /\
  (forall key values value, (key, values) ∈ headers -> value ∈ values ->
     exists sent, rw_header w' !! key = Some sent /\ value ∈ sent) /\
  (forall key value sent, rw_header w !! key = Some sent -> value ∈ sent ->
     exists sent', rw_header w' !! key = Some sent' /\ value ∈ sent') /\
  (forall key, (forall values, (key, values) ∈ headers -> values = []) ->
     rw_header w' !! key = rw_header w !! key).
Proof.
  revert w. induction headers as [|[key values] headers IH]; intros w.
  - split_and!; try done.
    + by intros key values value []%elem_of_nil.
    + by eauto.
  - cbn [foldl fst snd].
    destruct (Header_Add_fold_values w key values) as (Hs & Hb & Hf & Hfl & Hkey & Hother).
    set (w1 := foldl (fun w value => Header_Add w key value) w values) in *.
    destruct (IH w1) as (-> & -> & -> & -> & Hall & Hkeep & Hnone).
    split_and!; try done.
    + intros k vs v [[= -> ->]|Hin]%elem_of_cons Hv.
      * apply (Hkeep key v (default [] (rw_header w !! key) ++ values)).
        -- rewrite Hkey. case_decide as Hnil; [subst; by apply elem_of_nil in Hv | done].
        -- apply elem_of_app. by right.
      * by apply (Hall k vs v).
    + intros k v sent Hsent Hv.
      destruct (decide (k = key)) as [->|Hne].
      * apply (Hkeep key v (if decide (values = []) then sent
                            else default [] (rw_header w !! key) ++ values)).
        -- rewrite Hkey. case_decide; [done |]. done.
        -- case_decide; [done |]. rewrite Hsent. simpl. apply elem_of_app. by left.
      * apply (Hkeep k v sent); [| done]. by rewrite Hother.
    + intros k Hk. rewrite Hnone.
      * destruct (decide (k = key)) as [->|Hne]; [| by apply Hother].
        rewrite Hkey. rewrite decide_True; [done |]. apply Hk. left.
      * intros vs Hin. apply Hk. by right.
Qed.

(** X22: what is charged is what is logged.  For a response whose
    body could be read, [handleJSONResponse] charges the key by
    [UpdateSpend] with the cost and the total tokens of the very entry it
    logs, where the total is the sum of prompt and completion tokens and
    the cost is [calculateCost] of that usage; unless the pipeline is
    closed, the client gets the upstream's status, body and header
    values.  When the body cannot be read the answer is 502 and nothing
    is charged or logged. *)
Theorem handleJSONResponse_accounts (f : faults) (resp : Response) (traceID : string)
    (keyConfig : KeyConfig) (provider fullModel : string) (today : Z) (p : Pipeline)
    (world : World) (flusher : bool) :
  let '(w', p', world') :=
    handleJSONResponse f (fresh flusher) resp traceID keyConfig provider fullModel today
      p world in
  match io_ReadAll (ResponseBody resp) with
  | (respBody, None) =>
      exists entry,
        p' = fst (Log p entry) /\
        le_VirtualKeyID entry = kc_KeyID keyConfig /\
        le_StatusCode entry = StatusCode resp /\
        le_Usage entry = extractUsage (default ∅ (json_Unmarshal respBody)) /\
        TotalTokens (le_Usage entry) =
          int_add (PromptTokens (le_Usage entry)) (CompletionTokens (le_Usage entry)) /\
        le_CostUSD entry = calculateCost provider fullModel (le_Usage entry) /\
        world' =
          snd (UpdateSpend f (kc_KeyID keyConfig) (le_CostUSD entry)
                 (TotalTokens (le_Usage entry)) today world) /\
        if closed p then w' = fresh flusher
        else
          exists sent,
            rw_sent w' = Some (StatusCode resp, sent) /\
            rw_body w' = [Bytes respBody] /\
            (forall key values value, (key, values) ∈ Header resp -> value ∈ values ->
               exists vs, sent !! key = Some vs /\ value ∈ vs) /\
            (forall key, (forall values, (key, values) ∈ Header resp -> values = []) ->
               sent !! key = None)
  | (_, Some _) =>
      rw_sent w' = Some (502%Z, {[ "Content-Type" := ["application/json"] ]}) /\
      rw_body w' = [ErrorJSON "failed to read upstream response"] /\
      p' = p /\ world' = world
  end.
Proof.
  unfold handleJSONResponse.
  destruct (io_ReadAll (ResponseBody resp)) as [respBody [err|]]; [done |].
  destruct (Header_Add_fold (fresh flusher) (Header resp))
    as (Hs & Hb & _ & _ & Hall & _ & Hnone).
  set (w1 := foldl _ (fresh flusher) (Header resp)) in *.
  match goal with |- context [Log p ?e] => set (entry := e) end.
  assert (TotalTokens (extractUsage (default ∅ (json_Unmarshal respBody))) =
          int_add (PromptTokens (extractUsage (default ∅ (json_Unmarshal respBody))))
            (CompletionTokens (extractUsage (default ∅ (json_Unmarshal respBody)))))
    as Htotal.
  { unfold extractUsage. by destruct (_ !! "usage") as [[|?|?|?|?|u]|]. }
  unfold Log. destruct (closed p) eqn:Hclosed.
  { exists entry. by split_and!. }
  assert (exists sent,
            rw_sent (Write (WriteHeader w1 (StatusCode resp)) (Bytes respBody)) =
              Some (StatusCode resp, sent) /\
            rw_body (Write (WriteHeader w1 (StatusCode resp)) (Bytes respBody)) =
              [Bytes respBody] /\
            (forall key values value, (key, values) ∈ Header resp -> value ∈ values ->
               exists vs, sent !! key = Some vs /\ value ∈ vs) /\
            (forall key, (forall values, (key, values) ∈ Header resp -> values = []) ->
               sent !! key = None)) as Hwritten.
  { exists (rw_header w1). unfold Write, WriteHeader. rewrite Hs. simpl. rewrite Hb.
    by split_and!. }
  case_decide; exists entry; by split_and!.
Qed.

End response_facts.

Section permanence_facts.
Context `{Sha256} `{AEAD}.
Import models store database auth.

Lemma keeps_refl (k : VirtualKey) : keeps k k.
Proof. by unfold keeps. Qed.

Lemma keeps_trans (a b c : VirtualKey) : keeps a b -> keeps b c -> keeps a c.
Proof.
  unfold keeps. intros (? & ? & ? & ? & Hab) (? & ? & ? & ? & Hbc).
  split_and!; [congruence .. | auto].
Qed.

Lemma evolves_refl (rows : list VirtualKey) : evolves rows rows.
Proof.
  exists rows, []. split; [by rewrite app_nil_r |].
  induction rows; constructor; [apply keeps_refl | done].
Qed.

Lemma evolves_trans (a b c : list VirtualKey) : evolves a b -> evolves b c -> evolves a c.
Proof.
  intros (kept & added & -> & Hab) (kept' & added' & -> & Hbc).
  apply Forall2_app_inv_l in Hbc as (k1 & k2 & Hk1 & Hk2 & ->).
  exists k1, (k2 ++ added'). split; [by rewrite app_assoc |].
  clear -Hab Hk1. revert k1 Hk1.
  induction Hab as [|x y l l' Hxy Hl IH]; intros k1 Hk1.
  - apply Forall2_nil_inv_l in Hk1 as ->. constructor.
  - apply Forall2_cons_inv_l in Hk1 as (z & k1' & Hyz & Hk1' & ->).
    constructor; [by eapply keeps_trans | by apply IH].
Qed.

Lemma evolves_update (g : VirtualKey -> VirtualKey) (id : string) (d : DB) :
  (forall k, keeps k (g k)) ->
  evolves (virtual_keys d) (virtual_keys (update_keys g id d)).
Proof.
  intros Hg. unfold update_keys. simpl.
  exists (List.map (fun k => if String.eqb (ID k) id then g k else k) (virtual_keys d)), [].
  split; [by rewrite app_nil_r |].
  induction (virtual_keys d) as [|k rows IH]; simpl; constructor; [| done].
  destruct (String.eqb (ID k) id); [apply Hg | apply keeps_refl].
Qed.

Lemma evolves_snoc (rows : list VirtualKey) (key : VirtualKey) :
  evolves rows (rows ++ [key]).
Proof.
  exists rows, [key]. split; [done |].
  induction rows; constructor; [apply keeps_refl | done].
Qed.

Lemma evolves_eq (rows rows' : list VirtualKey) : rows' = rows -> evolves rows rows'.
Proof. intros ->. apply evolves_refl. Qed.

Lemma serve_evolves (w : World) (r : request) :
  evolves (virtual_keys (db w)) (virtual_keys (db (serve w r))).
Proof.
  destruct r; cbn [serve].
  - unfold CreateKey, mbind, M_bind, mret, M_ret.
    match goal with |- context [CreateVirtualKey ?f ?k w] =>
      destruct (CreateVirtualKey f k w) as [[[]|e] w1] eqn:Hins end.
    + apply CreateVirtualKey_ok in Hins as [_ ->]. simpl. apply evolves_snoc.
    + revert Hins. run_admin. destruct (f DbCreateVirtualKey).
      * intros [= _ <-]. apply evolves_refl.
      * destruct (existsb _ _); intros [= _ <-]; apply evolves_refl.
  - rewrite ValidateKey_db. apply evolves_refl.
  - run. destruct (f DbUpdateKeySpend); [apply evolves_refl |].
    destruct (f DbUpsertDailyStat); simpl; by apply (evolves_update (add_spend cost)).
  - run. destruct (f DbGetVirtualKeyByID); [apply evolves_refl |].
    destruct (List.find _ _) as [k|]; [| apply evolves_refl].
    destruct (negb _); [apply evolves_refl |]. simpl.
    destruct (f DbRevokeVirtualKey); [apply evolves_refl |].
    destruct (f CacheDel); simpl; by apply (evolves_update (set_RevokedAt (Some now))).
  - run. destruct (f DbGetVirtualKeyByID); [apply evolves_refl |].
    destruct (List.find _ _) as [k|]; [| apply evolves_refl].
    destruct (negb _); [apply evolves_refl |]. simpl.
    destruct (_ && _); simpl.
    + destruct (f CacheDel); apply evolves_refl.
    + destruct (f DbUpdateVirtualKey); [apply evolves_refl |].
      destruct (f CacheDel); simpl; by apply (evolves_update (patch _ _ _)).
  - apply evolves_eq.
    destruct (SetUserProvider_world s entropy f fdel userID provider apiKey w)
      as [(e & _ & ->)|(c & _ & _ & ->)]; [done |].
    by rewrite invalidateUserKeyCache_db.
  - apply evolves_eq.
    destruct (RemoveUserProvider_world f fdel userID provider w)
      as [(e & _ & ->)|[_ ->]]; [done |].
    by rewrite invalidateUserKeyCache_db.
Qed.

(** X23: revocation is permanent.  Whatever the key service is asked
    afterwards, the key rows only evolve (no row is removed, and each
    keeps its id, owner, hash and creation time and stays revoked once
    it is), and on unique rows the hash of a revoked key never selects a
    live row again. *)
Theorem revocation_is_permanent (w : World) (requests : list request)
    (k : VirtualKey) :
  consistent (db w) ->
  k ∈ virtual_keys (db w) ->
  RevokedAt k <> None ->
  evolves (virtual_keys (db w)) (virtual_keys (db (foldl serve w requests))) /\
  live_key (KeyHash k) (db (foldl serve w requests)) = None.
Proof.
  intros Hw Hk Hrevoked.
  assert (evolves (virtual_keys (db w)) (virtual_keys (db (foldl serve w requests))))
    as Hev.
  { clear. revert w. induction requests as [|r requests IH]; intros w; simpl.
    - apply evolves_refl.
    - eapply evolves_trans; [apply serve_evolves | apply IH]. }
  split; [done |].
  assert (consistent (db (foldl serve w requests))) as (_ & Hhash & _).
  { clear -Hw. revert w Hw. induction requests as [|r requests IH]; intros w Hw; [done |].
    simpl. apply IH. by apply serve_consistent. }
  destruct Hev as (kept & added & Heq & Hkept).
  apply list_elem_of_lookup in Hk as [i Hi].
  destruct (Forall2_lookup_l _ _ _ _ _ Hkept Hi) as (k' & Hi' & _ & _ & Hh & _ & Hrev).
  assert (k' ∈ virtual_keys (db (foldl serve w requests))) as Hin'.
  { rewrite Heq. apply elem_of_app. left. by apply list_elem_of_lookup_2 in Hi'. }
  unfold live_key. apply find_none_intro. intros x Hx%list_elem_of_In.
  destruct (String.eqb_spec (KeyHash x) (KeyHash k)) as [Hxk|]; [| done]. simpl.
  assert (x = k') as ->.
  { apply (NoDup_fmap_elem KeyHash (virtual_keys (db (foldl serve w requests)))); try done.
    congruence. }
  destruct (RevokedAt k'); [done |]. by destruct Hrev.
Qed.

End permanence_facts.

Section update_facts.
Context `{Sha256} `{AEAD}.
Import models store database auth.





End update_facts.


Section rate_facts.
Import models cache.

Lemma last_cons_default {A} (t d : A) (l : list A) :
  List.last (t :: l) d = List.last l t.
Proof.
  revert t d. induction l as [|x l IH]; intros t d; [done |].
  change (List.last (t :: x :: l) d) with (List.last (x :: l) d).
  by rewrite !IH.
Qed.

Lemma hits_paced (keyHash : string) (now : Time) (times : list Time) (cs : Counters)
    (n : Z) :
  cs !! (rateLimitPrefix +:+ keyHash) = Some (n, (now + rateLimitWindow)%Z) ->
  paced now times ->
  (0 <= n)%Z -> (n + Z.of_nat (length times) < 2 ^ 63)%Z ->
  fst (hits keyHash times cs) =
    imap (fun i _ => inl (n + 1 + Z.of_nat i)%Z) times /\
  (forall later,
     (later < List.last times now + rateLimitWindow)%Z -> (List.last times now <= later)%Z ->
     GetRateLimitCount None keyHash later (snd (hits keyHash times cs)) =
       inl (n + Z.of_nat (length times))%Z) /\
  (forall later,
     (List.last times now + rateLimitWindow <= later)%Z ->
     fst (IncrementRateLimit None keyHash later (snd (hits keyHash times cs))) = inl 1%Z).
Proof.
  unfold Counters, Time. revert now cs n.
  induction times as [|t times IH]; intros now cs n Hcs Hpaced Hn Hmax.
  - cbn [hits fst snd List.last length]. split; [done |].
    unfold GetRateLimitCount, IncrementRateLimit, unexpired, Counters, Time in *.
    cbv zeta. rewrite Hcs. split; intros later Hlater.
    + intros Hafter. rewrite (proj2 (Z.ltb_lt _ _)) by done. simpl. f_equal. lia.
    + rewrite (proj2 (Z.ltb_ge _ _)) by done. done.
  - destruct Hpaced as [Ht Hpaced].
    assert (IncrementRateLimit None keyHash t cs =
              (inl (n + 1)%Z,
               <[rateLimitPrefix +:+ keyHash := ((n + 1)%Z, (t + rateLimitWindow)%Z)]> cs))
      as Hstep.
    { unfold IncrementRateLimit, unexpired, Counters, Time in *. cbv zeta.
      rewrite Hcs. rewrite (proj2 (Z.ltb_lt _ _)) by lia.
      by rewrite decide_False by (cbn [length] in Hmax; lia). }
    cbn [hits]. rewrite Hstep.
    match goal with |- context [hits keyHash times ?cs1] =>
      destruct (IH t cs1 (n + 1)%Z) as (Hfst & Hget & Hnext);
        [apply lookup_insert_eq | done | lia | cbn [length] in Hmax; lia |];
      destruct (hits keyHash times cs1) as [rs cs2] end.
    cbn [fst snd] in *. cbn [length]. rewrite Nat2Z.inj_succ. split_and!.
    + rewrite imap_cons, Hfst. f_equal; [f_equal; lia |].
      apply imap_ext. intros i x _. simpl. f_equal. lia.
    + intros later H1 H2. rewrite last_cons_default in H1, H2.
      rewrite Hget by done. f_equal. lia.
    + intros later H1. rewrite last_cons_default in H1. by apply Hnext.
Qed.

(** X25: the rate-limit window slides.  From a counter that is not
    running, calls that each come less than a window after the one
    before are counted 1, 2, 3, ... without ever starting over, however
    long the run; the count starts over at 1 only with a call that comes
    a full window after the last. *)
Theorem rate_limit_window_slides (keyHash : string) (now : Time) (times : list Time)
    (cs : Counters) :
  unexpired now (cs !! (rateLimitPrefix +:+ keyHash)) = None ->
  paced now times ->
  (Z.of_nat (length times) + 1 < 2 ^ 63)%Z ->
  fst (hits keyHash (now :: times) cs) =
    imap (fun i _ => inl (1 + Z.of_nat i)%Z) (now :: times) /\
  (forall later,
     (List.last times now + rateLimitWindow <= later)%Z ->
     fst (IncrementRateLimit None keyHash later (snd (hits keyHash (now :: times) cs))) =
       inl 1%Z).
Proof.
  intros Hfresh Hpaced Hmax.
  assert (IncrementRateLimit None keyHash now cs =
            (inl 1%Z,
             <[rateLimitPrefix +:+ keyHash := (1%Z, (now + rateLimitWindow)%Z)]> cs))
    as Hstep.
  { unfold IncrementRateLimit. cbv zeta. by rewrite Hfresh. }
  cbn [hits]. rewrite Hstep.
  match goal with |- context [hits keyHash times ?cs1] =>
    destruct (hits_paced keyHash now times cs1 1) as (Hfst & _ & Hnext);
      [apply lookup_insert_eq | done | lia | lia |];
    destruct (hits keyHash times cs1) as [rs cs2] end.
  cbn [fst snd] in *. split.
  - rewrite imap_cons, Hfst. f_equal. apply imap_ext. intros i x _. simpl. f_equal. lia.
  - intros later Hlater. by apply Hnext.
Qed.

End rate_facts.

Section reach_facts.
Context `{Sha256} `{AEAD} `{Filepath}.
Import models store database auth proxy.

Lemma decryptProviders_dom (s : KeyService) (rows : list UserProvider)
    (providers m : gmap string string) (provider apiKey : string) :
  decryptProviders s rows providers = inl m ->
  m !! provider = Some apiKey ->
  (exists row, row ∈ rows /\ up_Provider row = provider) \/
  providers !! provider = Some apiKey.
Proof.
  revert providers. induction rows as [|row rows IH]; intros providers; simpl.
  - intros [= ->]. by right.
  - destruct (Decrypt s (up_APIKeyEncrypted row)) as [x|]; [| done].
    intros Hdec Hm. destruct (IH _ Hdec Hm) as [(r & Hr & Hp)|Hacc].
    + left. exists r. split; [by right | done].
    + destruct (decide (up_Provider row = provider)) as [Heq|Hne].
      * left. exists row. split; [left | done].
      * right. by rewrite lookup_insert_ne in Hacc.
Qed.

(** What [ValidateKey] leaves in the cache: what was there, and
    possibly the configuration it returns. *)
Lemma ValidateKey_kv (f : faults) (s : KeyService) (virtualKey : string) (w : World) :
  kv (snd (ValidateKey f s virtualKey w)) = kv w \/
  exists config,
    fst (ValidateKey f s virtualKey w) = inl config /\
    kv (snd (ValidateKey f s virtualKey w)) =
      <[cache.keyConfigPrefix +:+ HashKey virtualKey := config]> (kv w).
Proof.
  run. destruct (strings.HasPrefix virtualKey virtualKeyPrefix); simpl; [| by left].
  destruct (f CacheGet); simpl; [by left |].
  destruct (kv w !! _); [by left |].
  destruct (f DbGetVirtualKeyByHash); simpl; [by left |].
  destruct (List.find _ _) as [key|]; [| by left].
  destruct (is_null (RevokedAt key)); simpl; [| by left].
  destruct (f DbGetUserProviders); simpl; [by left |].
  destruct (decryptProviders _ _ _) as [providers|e]; [| by left].
  destruct (cache.marshal_fails _); [by left |].
  destruct (f CacheSet); simpl; [by left |]. right. by eexists.
Qed.

Lemma ValidateKey_supported (f : faults) (s : KeyService) (virtualKey : string)
    (w : World) :
  supported w ->
  supported (snd (ValidateKey f s virtualKey w)) /\
  forall config provider apiKey,
    fst (ValidateKey f s virtualKey w) = inl config ->
    kc_Providers config !! provider = Some apiKey ->
    known_provider provider.
Proof.
  intros [Hrows Hcache].
  assert (forall config provider apiKey,
            fst (ValidateKey f s virtualKey w) = inl config ->
            kc_Providers config !! provider = Some apiKey ->
            known_provider provider) as Hconfig.
  { intros config provider apiKey Hval Hp.
    destruct (ValidateKey f s virtualKey w) as [r w'] eqn:Hrun. simpl in Hval. subst r.
    apply ValidateKey_inl in Hrun as [_ [Hhit|(_ & key & m & _ & Hm & ->)]].
    - by eapply Hcache.
    - simpl in Hp. destruct (decryptProviders_dom _ _ _ _ _ _ Hm Hp)
        as [(row & Hrow & <-)|Hempty]; [| by rewrite lookup_empty in Hempty].
      apply Hrows. unfold providers_of in Hrow.
      by apply list_elem_of_In, filter_In in Hrow as [Hin%list_elem_of_In _]. }
  split; [| done]. split.
  - by rewrite ValidateKey_db.
  - intros entry config provider apiKey Hentry Hp.
    destruct (ValidateKey_kv f s virtualKey w) as [Hkv|(c & Hc & Hkv)];
      rewrite Hkv in Hentry; [by eapply Hcache |].
    destruct (decide (entry = cache.keyConfigPrefix +:+ HashKey virtualKey)) as [->|Hne].
    + rewrite lookup_insert_eq in Hentry. injection Hentry as <-. by eapply Hconfig.
    + rewrite lookup_insert_ne in Hentry by done. by eapply Hcache.
Qed.

Lemma invalidateKeys_sub (fdel : string -> option error) (keys : list VirtualKey)
    (w : World) (entry : string) (config : KeyConfig) :
  kv (snd (invalidateKeys fdel keys w)) !! entry = Some config ->
  kv w !! entry = Some config.
Proof.
  revert w. induction keys as [|k keys IH]; intros w; [done |].
  cbn [invalidateKeys]. run. destruct (fdel (KeyHash k)); intros Hc%IH; simpl in Hc;
    [done |].
  by apply lookup_delete_Some in Hc as [_ Hc].
Qed.

Lemma invalidateUserKeyCache_sub (f : admin_faults) (fdel : string -> option error)
    (userID : string) (w : World) (entry : string) (config : KeyConfig) :
  kv (snd (invalidateUserKeyCache f fdel userID w)) !! entry = Some config ->
  kv w !! entry = Some config.
Proof.
  run_admin. destruct (f DbListVirtualKeysByUser); [done |]. apply invalidateKeys_sub.
Qed.

(** X26: the answer "unsupported provider" is never given.  In a world
    that holds credentials of OpenAI and Anthropic only, in the store and
    in the cache, [proxyUnified] never answers that a provider is
    unsupported (a request for another provider is told that the provider
    is not configured), and the world stays such after a proxied request
    and after [SetProvider] and [RemoveProvider] of the dashboard, which
    refuse every other provider. *)
Theorem unsupported_provider_is_unreachable (f : faults) (s : KeyService)
    (r : Request) (path requestType : string) (w : World) :
  supported w ->
  (forall provider,
     fst (proxyUnified f s r path requestType w) <>
       WriteError 400 ("unsupported provider: " +:+ provider)) /\
  supported (snd (proxyUnified f s r path requestType w)) /\
  (forall entropy fa fdel userID body,
     supported (snd (api.SetProvider s entropy fa fdel userID body w))) /\
  (forall fa fdel userID provider,
     supported (snd (api.RemoveProvider fa fdel userID provider w))).
Proof.
  intros Hw. split_and!.
  - intros provider. unfold proxyUnified, extractAndValidateKey.
    destruct (strings.HasPrefix (Authorization r) "Bearer "); simpl; [| done].
    destruct (ValidateKey_supported f s
                (strings.TrimPrefix (Authorization r) "Bearer ") w Hw) as [_ Hconfig].
    destruct (ValidateKey f s _ w) as [[keyConfig|e] w']; [| done].
    destruct (Body r) as [| |requestData]; [by intros [= ?] | by intros [= ?] |].
    destruct (parseModel _) as [[p actualModel]|msg] eqn:Hparse.
    2: { unfold parseModel in Hparse. destruct (strings.SplitN2 _ _) as [|? [|? [|? ?]]];
         simplify_eq; by intros [= ?]. }
    destruct (negb _); [done |].
    destruct (GetProviderKey keyConfig p) as [realAPIKey|] eqn:Hkey; [| by intros [= ?]].
    unfold GetProviderKey in Hkey.
    destruct (kc_Providers keyConfig !! p) as [apiKey|] eqn:Hp; [| done].
    destruct (Hconfig keyConfig p apiKey eq_refl Hp) as [->| ->]; done.
  - unfold proxyUnified, extractAndValidateKey.
    destruct (strings.HasPrefix (Authorization r) "Bearer "); simpl; [| done].
    destruct (ValidateKey_supported f s
                (strings.TrimPrefix (Authorization r) "Bearer ") w Hw) as [Hw' _].
    destruct (ValidateKey f s _ w) as [[keyConfig|e] w']; [| done]. simpl in Hw'.
    destruct (Body r) as [| |requestData]; try done.
    destruct (parseModel _) as [[p actualModel]|msg]; [| done].
    destruct (negb _); [done |].
    destruct (GetProviderKey keyConfig p); [| done].
    destruct (String.eqb p "openai"); [done |]. by destruct (String.eqb p "anthropic").
  - intros entropy fa fdel userID [[provider apiKey]|]; [| done]. unfold api.SetProvider.
    destruct (negb (String.eqb provider "openai") && negb (String.eqb provider "anthropic"))
      eqn:Hknown; [done |].
    destruct (String.eqb apiKey ""); [done |].
    assert (known_provider provider) as Hprovider.
    { destruct (String.eqb_spec provider "openai"); [by left |].
      destruct (String.eqb_spec provider "anthropic"); [by right | done]. }
    destruct (SetUserProvider_world s entropy fa fdel userID provider apiKey w)
      as [(e & He & Hsame)|(c & _ & Hok & Hafter)];
      destruct (SetUserProvider s entropy fa fdel userID provider apiKey w) as [[[]|e'] w'];
      simpl in *; subst; try done.
    destruct Hw as [Hrows Hcache]. split.
    + rewrite invalidateUserKeyCache_db. simpl.
      intros row [(_ & -> & _)|[Hrow _]]%upsert_provider_elem; [done | by apply Hrows].
    + intros entry config p key Hentry%invalidateUserKeyCache_sub. by eapply Hcache.
  - intros fa fdel userID provider. unfold api.RemoveProvider.
    destruct (_ || _); [| done].
    destruct (RemoveUserProvider_world fa fdel userID provider w)
      as [(e & He & Hsame)|[Hok Hafter]];
      destruct (RemoveUserProvider fa fdel userID provider w) as [[[]|e'] w'];
      simpl in *; subst; try done.
    destruct Hw as [Hrows Hcache]. split.
    + rewrite invalidateUserKeyCache_db. simpl.
      intros row [Hrow _]%list_elem_of_In%filter_In. by apply Hrows, list_elem_of_In.
    + intros entry config p key Hentry%invalidateUserKeyCache_sub. by eapply Hcache.
Qed.

End reach_facts.

Section disclosure_facts.
Import models store database.

(** X27: [ListKeys] of the dashboard shows the keys of the caller
    only, one entry for each key row of the caller, each with its hash
    blanked; when the query fails it answers 500 and the world stays as
    it was. *)
Theorem ListKeys_discloses_no_hash (f : admin_faults) (userID : string) (w : World) :
  match api.ListKeys f userID w with
  | ((200%Z, api.KeysBody keys), w') =>
      w' = w /\
      length keys =
        length (List.filter (fun k => String.eqb (UserID k) userID) (virtual_keys (db w))) /\
      forall k, k ∈ keys ->
        KeyHash k = "" /\ UserID k = userID /\
        exists row, row ∈ virtual_keys (db w) /\ k = api.mask row
  | ((500%Z, api.ErrorBody message), w') =>
      w' = w /\ message = "failed to list keys" /\ f DbListVirtualKeysByUser <> None
  | _ => False
  end.
Proof.
  unfold api.ListKeys. run_admin. destruct (f DbListVirtualKeysByUser); [done |].
  split; [done |]. split.
  - by rewrite length_map, merge_sort_Permutation.
  - intros k (row & <- & Hrow)%list_elem_of_In%in_map_iff.
    apply list_elem_of_In in Hrow. rewrite merge_sort_Permutation in Hrow.
    apply list_elem_of_In, filter_In in Hrow as [Hin Huser%String.eqb_eq].
    split; [done |]. split; [done |]. exists row. by split; [apply list_elem_of_In |].
Qed.

End disclosure_facts.

(* ===================================================================== *)
(** * The further properties on the sample data *)
(* ===================================================================== *)

(** Two draws, two tokens. *)
Lemma GenerateVirtualKey_distinct_witness :
  auth.GenerateVirtualKey sample.random <> auth.GenerateVirtualKey sample.random'.
Proof.
  apply GenerateVirtualKey_distinct.
  - reflexivity.
  - reflexivity.
  - intros Heq. vm_compute in Heq. discriminate.
Defined.

(** The rows of the two accounts are unique. *)
Lemma sample_consistent : consistent (store.db sample.shared).
Proof. repeat split; apply (bool_decide_unpack _); vm_compute; exact I. Qed.


(** Five requests on the two accounts, the second of them refused for
    the hash it repeats. *)
Lemma service_keeps_rows_unique_witness :
  consistent
    (store.db
       (foldl (@serve sample.sha sample.aead) sample.shared
          [ CreateKeyReq store.no_admin_faults sample.random "key-3" 7200%Z "user-1"
              sample.staging;
            CreateKeyReq store.no_admin_faults sample.random "key-4" 7300%Z "user-2"
              sample.staging;
            RevokeKeyReq store.no_faults "key-2" "user-2" 7400%Z;
            SetUserProviderReq sample.svc sample.entropy store.no_admin_faults
              sample.purge_ok "user-2" "openai" "sk-rotated";
            UpdateSpendReq store.no_faults "key-1" 0x1.d7dbf487fcb93p-13%float 30 19000 ])).
Proof.
  apply (@service_keeps_rows_unique sample.sha sample.aead sample.shared).
  apply sample_consistent.
Defined.

(** The second account asks for the key of the first. *)
Lemma foreign_key_is_untouched_witness :
  (exists e w',
     auth.RevokeKey store.no_faults "key-1" "user-2" 7400%Z sample.shared = (inr e, w') /\
     store.db w' = store.db sample.shared /\ store.kv w' = store.kv sample.shared) /\
  (exists e w',
     auth.UpdateKey store.no_faults "key-1" "user-2"
       {| models.ur_Name := Some "mine"; models.ur_AllowedModels := None;
          models.ur_BudgetLimit := None |} sample.shared = (inr e, w') /\
     store.db w' = store.db sample.shared /\ store.kv w' = store.kv sample.shared) /\
  (exists e w', auth.GetKey store.no_faults "key-1" "user-2" sample.shared = (inr e, w')) /\
  (store.no_faults store.DbGetVirtualKeyByID = None ->
   forall e,
     (fst (auth.RevokeKey store.no_faults "key-1" "user-2" 7400%Z sample.shared) = inr e \/
      fst (auth.UpdateKey store.no_faults "key-1" "user-2"
             {| models.ur_Name := Some "mine"; models.ur_AllowedModels := None;
                models.ur_BudgetLimit := None |} sample.shared) = inr e \/
      fst (auth.GetKey store.no_faults "key-1" "user-2" sample.shared) = inr e) ->
     e = errorString "key not found" \/ e = errorString "unauthorized").
Proof.
  apply (foreign_key_is_untouched store.no_faults "key-1" "user-2" 7400%Z
           {| models.ur_Name := Some "mine"; models.ur_AllowedModels := None;
              models.ur_BudgetLimit := None |} sample.shared).
  intros k Hk Hid. vm_compute in Hk.
  apply elem_of_cons in Hk as [->|Hk]; [by vm_compute |].
  apply elem_of_cons in Hk as [->|Hk]; [by vm_compute in Hid |].
  by apply elem_of_nil in Hk.
Defined.

(** Both credentials of the first account decrypt. *)
Lemma sample_providers_decrypt (p : models.UserProvider) :
  p ∈ @providers_of "user-1" (store.db sample.cached) ->
  exists x, @auth.Decrypt sample.aead sample.svc (models.up_APIKeyEncrypted p) = inl x.
Proof.
  intros Hp. vm_compute in Hp.
  apply elem_of_cons in Hp as [->|Hp]; [eexists; vm_compute; reflexivity |].
  apply elem_of_cons in Hp as [->|Hp]; [eexists; vm_compute; reflexivity |].
  by apply elem_of_nil in Hp.
Qed.

(** The first account rotates its OpenAI credential while the
    configuration of its key is cached. *)
Lemma SetUserProvider_takes_effect_witness :
  exists config,
    fst (@auth.ValidateKey sample.sha sample.aead store.no_faults sample.svc sample.token
           (snd (@auth.SetUserProvider sample.aead sample.svc sample.entropy
                   store.no_admin_faults sample.purge_ok "user-1" "openai" "sk-rotated"
                   sample.cached))) = inl config /\
    models.kc_KeyID config = "key-1" /\
    auth.GetProviderKey config "openai" = inl "sk-rotated".
Proof.
  apply (@SetUserProvider_takes_effect sample.sha sample.aead sample_aead_laws
           sample.svc sample.entropy store.no_admin_faults sample.purge_ok
           store.no_faults "user-1" "openai" "sk-rotated" sample.token sample.cached
           (snd (@auth.SetUserProvider sample.aead sample.svc sample.entropy
                   store.no_admin_faults sample.purge_ok "user-1" "openai" "sk-rotated"
                   sample.cached))
           sample.key); try (vm_compute; reflexivity).
  apply sample_providers_decrypt.
Defined.

(** The first account removes its Anthropic credential while the
    configuration of its key is cached. *)
Lemma RemoveUserProvider_takes_effect_witness :
  models.kc_KeyID
    {| models.kc_KeyID := "key-1"; models.kc_UserID := "user-1";
       models.kc_Name := "ci"; models.kc_AllowedModels := [];
       models.kc_Providers := <["openai" := "sk-openai"]> ∅;
       models.kc_BudgetLimit := Some 1%float; models.kc_CurrentSpend := 5%float |}
    = "key-1" /\
  auth.GetProviderKey
    {| models.kc_KeyID := "key-1"; models.kc_UserID := "user-1";
       models.kc_Name := "ci"; models.kc_AllowedModels := [];
       models.kc_Providers := <["openai" := "sk-openai"]> ∅;
       models.kc_BudgetLimit := Some 1%float; models.kc_CurrentSpend := 5%float |}
    "anthropic" = inr ErrProviderNotFound.
Proof.
  apply (@RemoveUserProvider_takes_effect sample.sha sample.aead
           store.no_admin_faults sample.purge_ok store.no_faults sample.svc
           "user-1" "anthropic" sample.token sample.cached
           (snd (auth.RemoveUserProvider store.no_admin_faults sample.purge_ok "user-1"
                   "anthropic" sample.cached))
           (snd (@auth.ValidateKey sample.sha sample.aead store.no_faults sample.svc
                   sample.token
                   (snd (auth.RemoveUserProvider store.no_admin_faults sample.purge_ok
                           "user-1" "anthropic" sample.cached))))
           sample.key); vm_compute; reflexivity.
Defined.

(** A request for an OpenAI model with the key of an account whose
    Anthropic credential is cut short. *)
Lemma undecryptable_credential_locks_the_key_witness :
  exists e' w',
    @proxy.proxyUnified sample.sha sample.aead sample.glob store.no_faults sample.svc
      (sample.request "openai/gpt-4o") "/v1/chat/completions" "chat" sample.corrupt =
      (proxy.WriteError 401 ("decryption error: " +:+ Error e'), w') /\
    store.db w' = store.db sample.corrupt /\ store.kv w' = store.kv sample.corrupt.
Proof.
  apply (@undecryptable_credential_locks_the_key sample.sha sample.aead sample.glob
           store.no_faults sample.svc (sample.request "openai/gpt-4o")
           "/v1/chat/completions" "chat" sample.token sample.corrupt sample.key
           sample.truncated (errorString "ciphertext too short"));
    try (vm_compute; reflexivity).
  vm_compute. repeat constructor.
Defined.

(** The first account changes its OpenAI credential; the key of the
    second validates as before. *)
Lemma provider_change_is_local_witness :
  fst (@auth.ValidateKey sample.sha sample.aead store.no_faults sample.svc sample.token2
         (snd (@auth.SetUserProvider sample.aead sample.svc sample.entropy
                 store.no_admin_faults sample.purge_ok "user-1" "openai" "sk-rotated"
                 sample.shared))) =
    fst (@auth.ValidateKey sample.sha sample.aead store.no_faults sample.svc sample.token2
           sample.shared) /\
  fst (@auth.ValidateKey sample.sha sample.aead store.no_faults sample.svc sample.token2
         (snd (auth.RemoveUserProvider store.no_admin_faults sample.purge_ok "user-1"
                 "openai" sample.shared))) =
    fst (@auth.ValidateKey sample.sha sample.aead store.no_faults sample.svc sample.token2
           sample.shared).
Proof.
  apply (@provider_change_is_local sample.sha sample.aead sample.svc sample.entropy
           store.no_admin_faults sample.purge_ok store.no_faults "user-1" "openai"
           "sk-rotated" sample.token2 sample.shared sample.key2).
  - apply (bool_decide_unpack _). vm_compute. exact I.
  - vm_compute. reflexivity.
  - intros Heq. vm_compute in Heq. discriminate.
Defined.


(** After both scripts have run, a second run changes nothing, even on
    a store that could not record the second script. *)
Lemma Migrate_idempotent_witness :
  (forall entry, entry ∈ sample.migrations -> database.de_IsDir entry = false ->
     database.de_Name entry ∈ database.schema_migrations sample.migrated) /\
  database.Migrate sample.record_fails sample.migrations sample.migrated =
    (inl tt, sample.migrated).
Proof.
  apply (Migrate_idempotent sample.no_migrate_faults sample.record_fails
           sample.migrations sample.blank sample.migrated); try reflexivity.
Defined.

(** The store executes the second script and fails to record it: the
    next run executes it again. *)
Lemma Migrate_record_failure_reruns_script_witness :
  exists entry before after,
    entry ∈ sample.migrations /\
    database.de_Name entry = "002_providers.sql" /\
    ("002_providers.sql" ∉
       database.schema_migrations
         (snd (database.Migrate sample.record_fails sample.migrations sample.blank))) /\
    database.executed
      (snd (database.Migrate sample.record_fails sample.migrations sample.blank)) =
      before ++ [database.de_Content entry] /\
    database.executed
      (snd (database.Migrate (fun _ => None) sample.migrations
              (snd (database.Migrate sample.record_fails sample.migrations
                      sample.blank)))) =
      before ++ [database.de_Content entry; database.de_Content entry] ++ after.
Proof.
  apply (Migrate_record_failure_reruns_script sample.record_fails sample.migrations
           sample.blank
           (snd (database.Migrate sample.record_fails sample.migrations sample.blank))
           "002_providers.sql" (errorString "pq: connection reset by peer")).
  vm_compute. reflexivity.
Defined.

(** A reply that reports 12 input and 40 output tokens costs
    nothing. *)
Lemma usage_under_other_names_is_free_witness :
  proxy.extractUsage sample.anthropic_reply =
    {| models.PromptTokens := 0; models.CompletionTokens := 0;
       models.TotalTokens := 0 |} /\
  forall provider fullModel,
    proxy.calculateCost provider fullModel (proxy.extractUsage sample.anthropic_reply) =
      0%float.
Proof.
  apply (usage_under_other_names_is_free sample.anthropic_reply).
  intros u Hu. vm_compute in Hu. injection Hu as <-.
  split; intros x; vm_compute; discriminate.
Defined.

(** The retired key is renamed, its id is asked for again by a new
    key, and it is revoked once more: its hash selects no live row. *)
Lemma revocation_is_permanent_witness :
  let later :=
    foldl (@serve sample.sha sample.aead) sample.archive
      [ UpdateKeyReq store.no_faults "key-0" "user-1"
          {| models.ur_Name := Some "revived"; models.ur_AllowedModels := None;
             models.ur_BudgetLimit := None |};
        CreateKeyReq store.no_admin_faults sample.random "key-0" 7200%Z "user-1"
          sample.staging;
        RevokeKeyReq store.no_faults "key-0" "user-1" 7400%Z ] in
  evolves (store.virtual_keys (store.db sample.archive))
    (store.virtual_keys (store.db later)) /\
  @live_key (models.KeyHash sample.retired) (store.db later) = None.
Proof.
  apply (@revocation_is_permanent sample.sha sample.aead sample.archive).
  - repeat split; apply (bool_decide_unpack _); vm_compute; exact I.
  - vm_compute. repeat constructor.
  - discriminate.
Defined.


(** Five calls in 160 seconds, none a minute after the one before: the
    fifth is counted as the fifth. *)
Lemma rate_limit_window_slides_witness :
  fst (hits "5f2c" [0; 30; 65; 110; 160]%Z ∅) = [inl 1; inl 2; inl 3; inl 4; inl 5]%Z /\
  (forall later,
     (List.last [30; 65; 110; 160]%Z 0%Z + cache.rateLimitWindow <= later)%Z ->
     fst (cache.IncrementRateLimit None "5f2c" later
            (snd (hits "5f2c" [0; 30; 65; 110; 160]%Z ∅))) = inl 1%Z).
Proof.
  apply (rate_limit_window_slides "5f2c" 0%Z [30; 65; 110; 160]%Z ∅).
  - reflexivity.
  - vm_compute. intuition discriminate.
  - vm_compute. reflexivity.
Defined.

(** A request for a model of a provider the gateway does not know is
    told that the provider is not configured. *)
Lemma unsupported_provider_is_unreachable_witness :
  (forall provider,
     fst (@proxy.proxyUnified sample.sha sample.aead sample.glob store.no_faults sample.svc
            (sample.request "mistral/large") "/v1/chat/completions" "chat" sample.world) <>
       proxy.WriteError 400 ("unsupported provider: " +:+ provider)) /\
  supported
    (snd (@proxy.proxyUnified sample.sha sample.aead sample.glob store.no_faults sample.svc
            (sample.request "mistral/large") "/v1/chat/completions" "chat" sample.world)) /\
  (forall entropy fa fdel userID body,
     supported
       (snd (@api.SetProvider sample.aead sample.svc entropy fa fdel userID body
               sample.world))) /\
  (forall fa fdel userID provider,
     supported (snd (api.RemoveProvider fa fdel userID provider sample.world))).
Proof.
  apply (@unsupported_provider_is_unreachable sample.sha sample.aead sample.glob
           store.no_faults sample.svc (sample.request "mistral/large")
           "/v1/chat/completions" "chat" sample.world).
  split.
  - intros row Hrow. vm_compute in Hrow.
    apply elem_of_cons in Hrow as [->|Hrow]; [by left |].
    apply elem_of_cons in Hrow as [->|Hrow]; [by right |].
    by apply elem_of_nil in Hrow.
  - intros entry config provider apiKey Hentry. simpl in Hentry.
    by rewrite lookup_empty in Hentry.
Defined.
